(** * Couple's Quest Tracker: the state / persistence / render cycle

    A shallow embedding of [script.js].  The script keeps one mutable state
    object [data] and one flag [editMode], stores the state as JSON in
    [localStorage] under the key [coupleQuestData], and rebuilds the page
    from the state on every change.

    Layout of the development:
    - JavaScript strings, [trim], numbers and their decimal text;
    - [JSON.stringify] and [JSON.parse] on JSON trees;
    - the data model ([Task], [Category], [AppState]) and [defaultData];
    - the host: [localStorage] with a quota, the console, the page;
    - the script: [getData], [saveData], [render],
      [createCategorySection], the event handlers and the event loop;
    - a reference-level view of object literals and [JSON.parse] results,
      for the question of aliasing with [defaultData];
    - the theorems: [JSON.parse] inverts [JSON.stringify], then loading,
      saving, tasks, hero block, rendering, overlay slider, checkboxes and
      the default literal;
    - further properties of the script: the edit button, the controls and
      rows on the page, category titles, the background upload, and what
      holds along any history of events. *)

From Stdlib Require Import ZArith NArith List String Ascii Bool Lia DecimalN.
From stdpp Require Import base option list gmap.

Local Open Scope N_scope.

(** ** JavaScript strings

    A string is its sequence of UTF-16 code units. *)

Abbreviation jsstring := (list N).

(** An ASCII literal of the script as a JavaScript string. *)
Definition lit (s : string) : jsstring :=
  map N_of_ascii (list_ascii_of_string s).

(** [ToBoolean] on a string: the empty string is the only falsy one. *)
Definition truthy (s : jsstring) : bool :=
  match s with [] => false | _ :: _ => true end.

(** [x || ''] on a string [x]. *)
Definition or_empty (s : jsstring) : jsstring :=
  if truthy s then s else lit "".

(** ECMAScript [WhiteSpace] and [LineTerminator] code units, the ones
    [String.prototype.trim] strips. *)
Definition is_space (c : N) : bool :=
  ((9 <=? c) && (c <=? 13)) || (c =? 32) || (c =? 160) || (c =? 5760)
  || ((8192 <=? c) && (c <=? 8202)) || (c =? 8232) || (c =? 8233)
  || (c =? 8239) || (c =? 8287) || (c =? 12288) || (c =? 65279).

Fixpoint trim_start (s : jsstring) : jsstring :=
  match s with
  | [] => []
  | c :: r => if is_space c then trim_start r else s
  end.

Definition trim_end (s : jsstring) : jsstring := rev (trim_start (rev s)).

Definition trim (s : jsstring) : jsstring := trim_end (trim_start s).

Fixpoint starts_with (p s : jsstring) : option jsstring :=
  match p, s with
  | [], _ => Some s
  | a :: p', b :: s' => if a =? b then starts_with p' s' else None
  | _ :: _, [] => None
  end.

(** ** Numbers

    The script never computes with [data.overlay]: it only reads a number
    from text ([parseFloat], [JSON.parse]) and writes it back as text
    (template literals, [JSON.stringify]).  A finite number is therefore
    kept as the decimal numeral [Number::toString] prints for it: sign,
    significant digits [d1 .. dk] and the position [n] of the decimal
    point, standing for [0.d1...dk * 10^n].  The sign of zero is not
    represented (0 and -0 are one value, as under [===]), and a numeral
    keeps all its digits where an IEEE double would round. *)

Inductive digit := d0 | d1 | d2 | d3 | d4 | d5 | d6 | d7 | d8 | d9.

Inductive number :=
  | NaN
  | Infinity (neg : bool)
  | Finite (neg : bool) (ds : list digit) (pt : Z).

Definition digit_N (d : digit) : N :=
  match d with
  | d0 => 0 | d1 => 1 | d2 => 2 | d3 => 3 | d4 => 4
  | d5 => 5 | d6 => 6 | d7 => 7 | d8 => 8 | d9 => 9
  end.

Definition digit_char (d : digit) : N := 48 + digit_N d.

Definition char_digit (c : N) : option digit :=
  match c with
  | 48 => Some d0 | 49 => Some d1 | 50 => Some d2 | 51 => Some d3
  | 52 => Some d4 | 53 => Some d5 | 54 => Some d6 | 55 => Some d7
  | 56 => Some d8 | 57 => Some d9
  | _ => None
  end.

Definition is_d0 (d : digit) : bool :=
  match d with d0 => true | _ => false end.

Definition chars (ds : list digit) : jsstring := map digit_char ds.

Fixpoint uint_digits (u : Decimal.uint) : list digit :=
  match u with
  | Decimal.Nil => []
  | Decimal.D0 u => d0 :: uint_digits u
  | Decimal.D1 u => d1 :: uint_digits u
  | Decimal.D2 u => d2 :: uint_digits u
  | Decimal.D3 u => d3 :: uint_digits u
  | Decimal.D4 u => d4 :: uint_digits u
  | Decimal.D5 u => d5 :: uint_digits u
  | Decimal.D6 u => d6 :: uint_digits u
  | Decimal.D7 u => d7 :: uint_digits u
  | Decimal.D8 u => d8 :: uint_digits u
  | Decimal.D9 u => d9 :: uint_digits u
  end.

Fixpoint digits_uint (ds : list digit) : Decimal.uint :=
  match ds with
  | [] => Decimal.Nil
  | d :: r =>
      let u := digits_uint r in
      match d with
      | d0 => Decimal.D0 u | d1 => Decimal.D1 u | d2 => Decimal.D2 u
      | d3 => Decimal.D3 u | d4 => Decimal.D4 u | d5 => Decimal.D5 u
      | d6 => Decimal.D6 u | d7 => Decimal.D7 u | d8 => Decimal.D8 u
      | d9 => Decimal.D9 u
      end
  end.

(** Decimal digits of a natural number, and back. *)
Definition N_digits (n : N) : list digit := uint_digits (N.to_uint n).
Definition digits_N (ds : list digit) : N := N.of_uint (digits_uint ds).

Definition is_nil {A} (l : list A) : bool :=
  match l with [] => true | _ :: _ => false end.

(** [Number::toString] (radix 10).  With [k] digits and the point at [n],
    ECMA-262 has four layouts: all digits then zeros ([k <= n <= 21]), a
    point inside the digits ([0 < n <= 21]), [0.] then zeros then the
    digits ([-6 < n <= 0]), and exponent notation with one digit before
    the point.  [layout] gives the digits before the point, the digits
    after it, and the exponent if there is one. *)
Definition layout (ds : list digit) (n : Z)
  : list digit * list digit * option Z :=
  let k := Z.of_nat (length ds) in
  if ((k <=? n) && (n <=? 21))%Z then
    (ds ++ repeat d0 (Z.to_nat (n - k)), [], None)
  else if ((0 <? n) && (n <=? 21))%Z then
    (take (Z.to_nat n) ds, drop (Z.to_nat n) ds, None)
  else if ((-6 <? n) && (n <=? 0))%Z then
    ([d0], repeat d0 (Z.to_nat (- n)) ++ ds, None)
  else
    (take 1 ds, drop 1 ds, Some (n - 1)%Z).

Definition exponent_text (ex : option Z) : jsstring :=
  match ex with
  | None => []
  | Some e =>
      lit "e" ++ (if (0 <=? e)%Z then lit "+" else lit "-") ++
      chars (N_digits (Z.abs_N e))
  end.

Definition numeral_text (l : list digit * list digit * option Z) : jsstring :=
  let '(ip, fp, ex) := l in
  chars ip ++ (if is_nil fp then [] else lit "." ++ chars fp) ++
  exponent_text ex.

Definition Number_toString (x : number) : jsstring :=
  match x with
  | NaN => lit "NaN"
  | Infinity neg => (if neg then lit "-" else []) ++ lit "Infinity"
  | Finite neg ds n =>
      match ds with
      | [] => lit "0"
      | _ :: _ =>
          (if neg then lit "-" else []) ++ numeral_text (layout ds n)
      end
  end.

(** A finite number in normal form: first and last digit not zero; zero
    has no digits, no sign and the point at 0.  These are the numbers that
    print and read back as themselves. *)
Definition normal (x : number) : bool :=
  match x with
  | Finite neg ds n =>
      match ds, rev ds with
      | [], _ => negb neg && (n =? 0)%Z
      | d :: _, l :: _ => negb (is_d0 d) && negb (is_d0 l)
      | _ :: _, [] => false
      end
  | _ => false
  end.

(** Reading numerals. *)
Fixpoint scan_digits (s : jsstring) : list digit * jsstring :=
  match s with
  | [] => ([], [])
  | c :: r =>
      match char_digit c with
      | Some d => let '(ds, r') := scan_digits r in (d :: ds, r')
      | None => ([], s)
      end
  end.

Fixpoint drop_zeros (ds : list digit) : list digit :=
  match ds with
  | [] => []
  | d :: r => if is_d0 d then drop_zeros r else ds
  end.

(** The number written [ip.fp] times ten to the [ex], in the normal form
    above: leading and trailing zeros removed. *)
Definition make_number (neg : bool) (ip fp : list digit) (ex : Z) : number :=
  let all := ip ++ fp in
  let sig := drop_zeros all in
  let lz := (length all - length sig)%nat in
  match rev (drop_zeros (rev sig)) with
  | [] => Finite false [] 0
  | ds => Finite neg ds (Z.of_nat (length ip) + ex - Z.of_nat lz)
  end.

(** An exponent part [e], [e+] or [e-] followed by digits; [None] when the
    text does not start with one. *)
Definition is_e (c : N) : bool := (c =? 101) || (c =? 69).

Definition scan_exponent (s : jsstring) : option (Z * jsstring) :=
  match s with
  | c :: r =>
      if is_e c then
        let '(sgn, r1) :=
          match r with
          | c1 :: r' =>
              if c1 =? 45 then (true, r')
              else if c1 =? 43 then (false, r')
              else (false, r)
          | [] => (false, r)
          end in
        match scan_digits r1 with
        | ([], _) => None
        | (ed, r2) =>
            let m := Z.of_N (digits_N ed) in
            Some (if sgn then (- m)%Z else m, r2)
        end
      else None
  | [] => None
  end.

(** Digits, then possibly a point and more digits: the digits before the
    point, whether there is a point, the digits after it, and the rest. *)
Definition scan_decimal (s : jsstring)
  : list digit * bool * list digit * jsstring :=
  let '(ip, s2) := scan_digits s in
  match s2 with
  | c :: r =>
      if c =? 46 then
        let '(fp, s3) := scan_digits r in (ip, true, fp, s3)
      else (ip, false, [], s2)
  | [] => (ip, false, [], s2)
  end.

(** An optional sign: [-] only (JSON), or [+] as well ([parseFloat]).
    The result says whether the sign is minus. *)
Definition strip_minus (s : jsstring) : bool * jsstring :=
  match s with
  | c :: r => if c =? 45 then (true, r) else (false, s)
  | [] => (false, s)
  end.

Definition strip_sign (s : jsstring) : bool * jsstring :=
  match s with
  | c :: r =>
      if c =? 45 then (true, r)
      else if c =? 43 then (false, r)
      else (false, s)
  | [] => (false, s)
  end.

(** [parseFloat]: leading white space is skipped, then the longest prefix
    that is a [StrDecimalLiteral] is read; [NaN] when there is none. *)
Definition parseFloat (s : jsstring) : number :=
  let '(neg, s1) := strip_sign (trim_start s) in
  match starts_with (lit "Infinity") s1 with
  | Some _ => Infinity neg
  | None =>
      let '(ip, _, fp, s3) := scan_decimal s1 in
      if is_nil ip && is_nil fp then NaN
      else
        match scan_exponent s3 with
        | Some (ex, _) => make_number neg ip fp ex
        | None => make_number neg ip fp 0
        end
  end.

(** What may follow a numeral for it to be read whole: nothing, or one of
    [,], [\]] and [}], the characters that follow a value in JSON text. *)
Definition ends_numeral (rest : jsstring) : Prop :=
  match rest with
  | [] => True
  | c :: _ => c = 44 ∨ c = 93 ∨ c = 125
  end.

Definition stops_digits (tail : jsstring) : Prop :=
  match tail with
  | [] => True
  | c :: _ => char_digit c = None ∧ (c =? 46) = false
  end.

Definition default_exponent (ex : option Z) : Z :=
  match ex with Some e => e | None => 0%Z end.

(** ** JSON

    The trees [JSON.parse] builds and [JSON.stringify] walks.  An object is
    its list of members in property order. *)

Unset Elimination Schemes.
Inductive value :=
  | Null
  | Bool (b : bool)
  | Num (n : number)
  | Str (s : jsstring)
  | Arr (elems : list value)
  | Obj (members : list (jsstring * value)).
Set Elimination Schemes.

(** *** JSON.stringify *)

Definition hex_char (n : N) : N := if n <? 10 then 48 + n else 87 + n.

(** The escape [\uXXXX] of a code unit, in lower-case hexadecimal. *)
Definition unicode_escape (c : N) : jsstring :=
  [92; 117; hex_char ((c / 4096) mod 16); hex_char ((c / 256) mod 16);
   hex_char ((c / 16) mod 16); hex_char (c mod 16)].

Definition is_high_surrogate (c : N) : bool := (55296 <=? c) && (c <=? 56319).
Definition is_low_surrogate (c : N) : bool := (56320 <=? c) && (c <=? 57343).

(** The two-character escapes of [QuoteJSONString]: backspace, tab, line
    feed, form feed, carriage return, double quote and backslash. *)
Definition short_escape (c : N) : option N :=
  if c =? 8 then Some 98
  else if c =? 9 then Some 116
  else if c =? 10 then Some 110
  else if c =? 12 then Some 102
  else if c =? 13 then Some 114
  else if c =? 34 then Some 34
  else if c =? 92 then Some 92
  else None.

Fixpoint quote_chars (s : jsstring) : jsstring :=
  match s with
  | [] => []
  | c :: r =>
      match short_escape c with
      | Some e => 92 :: e :: quote_chars r
      | None =>
          if c <? 32 then unicode_escape c ++ quote_chars r
          else if is_high_surrogate c then
            match r with
            | c2 :: r2 =>
                if is_low_surrogate c2 then c :: c2 :: quote_chars r2
                else unicode_escape c ++ quote_chars r
            | [] => unicode_escape c
            end
          else if is_low_surrogate c then unicode_escape c ++ quote_chars r
          else c :: quote_chars r
      end
  end.

Definition QuoteJSONString (s : jsstring) : jsstring :=
  34 :: quote_chars s ++ [34].

Fixpoint join_commas (l : list jsstring) : jsstring :=
  match l with
  | [] => []
  | x :: r => x ++ match r with [] => [] | _ :: _ => 44 :: join_commas r end
  end.

(** [SerializeJSONProperty] without indentation; a number that is not
    finite is written [null]. *)
Definition member_with (text_of : value → jsstring) (kv : jsstring * value)
  : jsstring :=
  let '(k, x) := kv in QuoteJSONString k ++ 58 :: text_of x.

Fixpoint JSON_stringify (v : value) : jsstring :=
  match v with
  | Null => lit "null"
  | Bool b => if b then lit "true" else lit "false"
  | Num n =>
      match n with
      | Finite _ _ _ => Number_toString n
      | _ => lit "null"
      end
  | Str s => QuoteJSONString s
  | Arr elems => 91 :: join_commas (map JSON_stringify elems) ++ [93]
  | Obj members =>
      123 :: join_commas (map (member_with JSON_stringify) members) ++ [125]
  end.

Definition member_text : jsstring * value → jsstring :=
  member_with JSON_stringify.

(** *** JSON.parse *)

Definition is_json_ws (c : N) : bool :=
  (c =? 9) || (c =? 10) || (c =? 13) || (c =? 32).

Fixpoint skip_ws (s : jsstring) : jsstring :=
  match s with
  | [] => []
  | c :: r => if is_json_ws c then skip_ws r else s
  end.

Definition hex_value (c : N) : option N :=
  if (48 <=? c) && (c <=? 57) then Some (c - 48)
  else if (97 <=? c) && (c <=? 102) then Some (c - 87)
  else if (65 <=? c) && (c <=? 70) then Some (c - 55)
  else None.

Definition hex4 (a b c d : N) : option N :=
  match hex_value a, hex_value b, hex_value c, hex_value d with
  | Some x, Some y, Some z, Some w => Some (4096 * x + 256 * y + 16 * z + w)
  | _, _, _, _ => None
  end.

(** The character a one-letter escape stands for. *)
Definition unescape (e : N) : option N :=
  if e =? 34 then Some 34
  else if e =? 92 then Some 92
  else if e =? 47 then Some 47
  else if e =? 98 then Some 8
  else if e =? 102 then Some 12
  else if e =? 110 then Some 10
  else if e =? 114 then Some 13
  else if e =? 116 then Some 9
  else None.

(** The characters of a string literal after its opening quote, up to and
    including the closing quote. *)
Fixpoint parse_chars (s : jsstring) : option (jsstring * jsstring) :=
  match s with
  | [] => None
  | c :: r =>
      if c =? 34 then Some ([], r)
      else if c =? 92 then
        match r with
        | [] => None
        | e :: r1 =>
            if e =? 117 then
              match r1 with
              | h1 :: h2 :: h3 :: h4 :: r2 =>
                  match hex4 h1 h2 h3 h4, parse_chars r2 with
                  | Some u, Some (t, rest) => Some (u :: t, rest)
                  | _, _ => None
                  end
              | _ => None
              end
            else
              match unescape e, parse_chars r1 with
              | Some u, Some (t, rest) => Some (u :: t, rest)
              | _, _ => None
              end
        end
      else if c <? 32 then None
      else
        match parse_chars r with
        | Some (t, rest) => Some (c :: t, rest)
        | None => None
        end
  end.

(** A JSON number: [-]? int frac? exp?, no leading zero, no bare point. *)
Definition leading_zero (ip : list digit) : bool :=
  match ip with
  | d :: _ :: _ => is_d0 d
  | _ => false
  end.

Definition json_number (s : jsstring) : option (number * jsstring) :=
  let '(neg, s1) := strip_minus s in
  let '(ip, pt, fp, s3) := scan_decimal s1 in
  if is_nil ip || leading_zero ip || (pt && is_nil fp) then None
  else
    match s3 with
    | c :: _ =>
        if is_e c then
          match scan_exponent s3 with
          | Some (ex, s4) => Some (make_number neg ip fp ex, s4)
          | None => None
          end
        else Some (make_number neg ip fp 0, s3)
    | [] => Some (make_number neg ip fp 0, s3)
    end.

(** Defining a property: a key already present keeps its place and takes
    the new value, a new key goes last. *)
Fixpoint obj_set (k : jsstring) (v : value) (ms : list (jsstring * value))
  : list (jsstring * value) :=
  match ms with
  | [] => [(k, v)]
  | (k', v') :: r =>
      if decide (k' = k) then (k', v) :: r else (k', v') :: obj_set k v r
  end.

Definition obj_of_members (ms : list (jsstring * value)) : value :=
  Obj (fold_left (fun acc kv => obj_set (fst kv) (snd kv) acc) ms []).

(** After a value in an array or an object: a comma, the closing bracket
    [close], or an error. *)
Inductive separator := Comma | Close.

Definition scan_separator (close : N) (s : jsstring)
  : option (separator * jsstring) :=
  match skip_ws s with
  | c :: r =>
      if c =? 44 then Some (Comma, r)
      else if c =? close then Some (Close, r)
      else None
  | [] => None
  end.

(** The literals [true], [false] and [null]. *)
Definition parse_literal (s : jsstring) : option (value * jsstring) :=
  match starts_with (lit "true") s with
  | Some r => Some (Bool true, r)
  | None =>
      match starts_with (lit "false") s with
      | Some r => Some (Bool false, r)
      | None =>
          match starts_with (lit "null") s with
          | Some r => Some (Null, r)
          | None => None
          end
      end
  end.

(** Recursive descent; [fuel] bounds the nesting of calls, and every call
    consumes a character, so the length of the text is always enough. *)
Fixpoint parse_value (fuel : nat) (s : jsstring) : option (value * jsstring) :=
  match fuel with
  | O => None
  | S f =>
      match skip_ws s with
      | [] => None
      | c :: r =>
          if c =? 123 then
            match starts_with [125] (skip_ws r) with
            | Some r' => Some (Obj [], r')
            | None =>
                match parse_members f r with
                | Some (ms, r') => Some (obj_of_members ms, r')
                | None => None
                end
            end
          else if c =? 91 then
            match starts_with [93] (skip_ws r) with
            | Some r' => Some (Arr [], r')
            | None =>
                match parse_elements f r with
                | Some (vs, r') => Some (Arr vs, r')
                | None => None
                end
            end
          else if c =? 34 then
            match parse_chars r with
            | Some (t, r') => Some (Str t, r')
            | None => None
            end
          else
            match parse_literal (c :: r) with
            | Some res => Some res
            | None =>
                match json_number (c :: r) with
                | Some (n, r') => Some (Num n, r')
                | None => None
                end
            end
      end
  end
with parse_elements (fuel : nat) (s : jsstring)
  : option (list value * jsstring) :=
  match fuel with
  | O => None
  | S f =>
      match parse_value f s with
      | None => None
      | Some (v, r) =>
          match scan_separator 93 r with
          | Some (Comma, r') =>
              match parse_elements f r' with
              | Some (vs, r'') => Some (v :: vs, r'')
              | None => None
              end
          | Some (Close, r') => Some ([v], r')
          | None => None
          end
      end
  end
with parse_members (fuel : nat) (s : jsstring)
  : option (list (jsstring * value) * jsstring) :=
  match fuel with
  | O => None
  | S f =>
      match starts_with [34] (skip_ws s) with
      | None => None
      | Some r =>
          match parse_chars r with
          | None => None
          | Some (k, r1) =>
              match starts_with [58] (skip_ws r1) with
              | None => None
              | Some r2 =>
                  match parse_value f r2 with
                  | None => None
                  | Some (v, r3) =>
                      match scan_separator 125 r3 with
                      | Some (Comma, r4) =>
                          match parse_members f r4 with
                          | Some (ms, r5) => Some ((k, v) :: ms, r5)
                          | None => None
                          end
                      | Some (Close, r4) => Some ([(k, v)], r4)
                      | None => None
                      end
                  end
              end
          end
      end
  end.

(** [JSON.parse]: [None] stands for the [SyntaxError] it throws. *)
Definition JSON_parse (s : jsstring) : option value :=
  match parse_value (S (length s)) s with
  | Some (v, r) =>
      match skip_ws r with
      | [] => Some v
      | _ :: _ => None
      end
  | None => None
  end.

(** *** Trees that survive the round trip

    Numbers in normal form (so: finite), and objects without a repeated
    key. *)
Fixpoint json_safe (v : value) : bool :=
  match v with
  | Num n => normal n
  | Arr l => forallb json_safe l
  | Obj ms =>
      bool_decide (NoDup (map fst ms))
      && forallb (λ kv, json_safe (snd kv)) ms
  | _ => true
  end.

(** Induction on trees, with the hypothesis on every element of an array
    and every member of an object. *)
Definition value_ind (P : value → Prop)
    (HNull : P Null) (HBool : ∀ b, P (Bool b)) (HNum : ∀ n, P (Num n))
    (HStr : ∀ s, P (Str s))
    (HArr : ∀ l, Forall P l → P (Arr l))
    (HObj : ∀ ms, Forall (λ kv, P (snd kv)) ms → P (Obj ms))
  : ∀ v, P v :=
  fix go (v : value) : P v :=
    match v with
    | Null => HNull
    | Bool b => HBool b
    | Num n => HNum n
    | Str s => HStr s
    | Arr l =>
        HArr l ((fix all (l : list value) : Forall P l :=
                   match l with
                   | [] => @List.Forall_nil _ P
                   | x :: r => @List.Forall_cons _ P x r (go x) (all r)
                   end) l)
    | Obj ms =>
        HObj ms ((fix all (l : list (jsstring * value))
                    : Forall (λ kv, P (snd kv)) l :=
                    match l with
                    | [] => @List.Forall_nil _ _
                    | kv :: r =>
                        @List.Forall_cons _ (λ kv, P (snd kv)) kv r
                          (go (snd kv)) (all r)
                    end) ms)
    end.

(** The text of [v], followed by [rest], parses to [v] and leaves [rest],
    with any fuel above the length of the text. *)
Definition parses_back (v : value) : Prop :=
  ∀ fuel rest,
    (length (JSON_stringify v) < fuel)%nat →
    ends_numeral rest →
    parse_value fuel (JSON_stringify v ++ rest) = Some (v, rest).

Local Close Scope N_scope.

(** Fuel [fuel] is enough for a parser: what it finds, it finds in a
    shorter rest, and finds again with any fuel above the number of
    characters consumed. *)
Definition enough_for {R} (parse : nat → jsstring → option (R * jsstring))
    (fuel : nat) : Prop :=
  ∀ s res r,
    parse fuel s = Some (res, r) →
    length r < length s
    ∧ ∀ fuel', length s - length r < fuel' → parse fuel' s = Some (res, r).

(** ** Data model *)

Record Task := { text : jsstring; completed : bool }.

Record Category := { title : jsstring; tasks : list Task }.

Record AppState := {
  names : jsstring;
  tagline : jsstring;
  background : jsstring;
  overlay : number;
  sections : list Category
}.

Definition new_task (t : jsstring) : Task := {| text := t; completed := false |}.

(** Default data structure used when nothing exists in localStorage. *)
Definition defaultData : AppState := {|
  names := lit "You & Me";
  tagline := lit "Adventures, dreams and memories together";
  background := lit "images/cosmos.jpg";
  overlay := Finite false [d6] 0;
  sections := [
    {| title := lit "Travel Adventures";
       tasks := [
         new_task (lit "Visit Paris, France");
         new_task (lit "Road trip across Iceland");
         new_task (lit "See the Northern Lights together");
         new_task (lit "Tokyo cherry blossoms") ] |};
    {| title := lit "Personal Goals";
       tasks := [
         new_task (lit "Learn Spanish together");
         new_task (lit "Cook 50 new recipes");
         new_task (lit "Run a 5K together");
         new_task (lit "Read 12 books together") ] |} ]
|}.

(** The object a state is in memory: the members in the order of the
    object literals of the script ([defaultData], and the task pushed by
    the add button). *)
Definition task_value (t : Task) : value :=
  Obj [(lit "text", Str (text t)); (lit "completed", Bool (completed t))].

Definition category_value (c : Category) : value :=
  Obj [(lit "title", Str (title c));
       (lit "tasks", Arr (map task_value (tasks c)))].

Definition state_value (d : AppState) : value :=
  Obj [(lit "names", Str (names d));
       (lit "tagline", Str (tagline d));
       (lit "background", Str (background d));
       (lit "overlay", Num (overlay d));
       (lit "sections", Arr (map category_value (sections d)))].

(** Reading a tree through the properties the script uses. *)
Fixpoint get_member (k : jsstring) (ms : list (jsstring * value))
  : option value :=
  match ms with
  | [] => None
  | (k', v) :: r => if decide (k' = k) then Some v else get_member k r
  end.

Definition as_task (v : value) : option Task :=
  match v with
  | Obj ms =>
      match get_member (lit "text") ms, get_member (lit "completed") ms with
      | Some (Str t), Some (Bool c) => Some {| text := t; completed := c |}
      | _, _ => None
      end
  | _ => None
  end.

Definition as_category (v : value) : option Category :=
  match v with
  | Obj ms =>
      match get_member (lit "title") ms, get_member (lit "tasks") ms with
      | Some (Str t), Some (Arr l) =>
          match mapM as_task l with
          | Some ts => Some {| title := t; tasks := ts |}
          | None => None
          end
      | _, _ => None
      end
  | _ => None
  end.

Definition as_state (v : value) : option AppState :=
  match v with
  | Obj ms =>
      match get_member (lit "names") ms, get_member (lit "tagline") ms,
            get_member (lit "background") ms, get_member (lit "overlay") ms,
            get_member (lit "sections") ms with
      | Some (Str n), Some (Str t), Some (Str b), Some (Num o), Some (Arr l) =>
          match mapM as_category l with
          | Some cs =>
              Some {| names := n; tagline := t; background := b;
                      overlay := o; sections := cs |}
          | None => None
          end
      | _, _, _, _, _ => None
      end
  | _ => None
  end.

(** The overlay of the data model is a numeral in normal form that lies
    in [0, 0.9]: zero, or [0.d1...dk * 10^n] with [n < 0],
    or with [n = 0] and either [d1 < 9] or the single digit 9. *)
Definition in_overlay_range (x : number) : bool :=
  match x with
  | Finite false [] _ => true
  | Finite false (d :: r) n =>
      (n <? 0)%Z
      || ((n =? 0)%Z && ((digit_N d <? 9)%N || is_nil r))
  | _ => false
  end.

(** A valid AppState (section 3 of the specification): the only
    constraint beyond the types is the one on [overlay]. *)
Definition valid_state (d : AppState) : Prop :=
  normal (overlay d) = true ∧ in_overlay_range (overlay d) = true.

(** ** The host: storage, console, page *)

Inductive error := SyntaxError | QuotaExceededError | TypeError.

(** [localStorage]: a string map with a quota on the code units it holds.
    [setItem] throws [QuotaExceededError] when the new contents would not
    fit. *)
Record Storage := { entries : gmap jsstring jsstring; quota : nat }.

Definition used (m : gmap jsstring jsstring) : nat :=
  map_fold (λ k v n, (length k + length v + n)%nat) 0%nat m.

Definition fits (st : Storage) (k v : jsstring) : bool :=
  (used (<[k := v]> (entries st)) <=? quota st)%nat.

(** The closures the script installs as listeners, named by the control
    they belong to, with the variables they capture. *)
Inductive handler :=
  | toggleBtn_click
  | namesInput_change
  | taglineInput_change
  | fileInput_change
  | rangeInput_input
  | titleInput_change (idx : nat)
  | checkbox_change (idx taskIndex : nat)
  | delBtn_click (idx taskIndex : nat)
  | addBtn_click (idx : nat).

Inductive pval := PStr (s : jsstring) | PBool (b : bool).

(** A DOM element: what the script assigns to it, in assignment order. *)
Unset Elimination Schemes.
Inductive element := El {
  tagName : string;
  classList : list string;
  props : list (string * pval);
  style : list (string * jsstring);
  listener : option (string * handler);
  childNodes : list element
}.
Set Elimination Schemes.

(** Modelled from the spec: the page, [index.html], is not among the
    sources; the rendering surface provides "a single root mount element
    to rebuild into" (section 6).  The mount [#app] is a child of [body];
    [body_before] and [body_after] are the element trees around it, and
    [app_children] what is inside it. *)
Record Document := {
  body_style : list (string * jsstring);
  body_before : list element;
  app_children : list element;
  body_after : list element
}.

Record Host := {
  localStorage : Storage;
  console : list (jsstring * error);
  document : Document
}.

(** The two module-level variables of the script, and the host. *)
Record World := { data : AppState; editMode : bool; host : Host }.

(** *** Statements: state passing with exceptions *)

Inductive outcome (Σ A : Type) :=
  | Ok (a : A) (σ : Σ)
  | Throw (e : error) (σ : Σ).
Arguments Ok {Σ A} a σ.
Arguments Throw {Σ A} e σ.

Definition js (Σ A : Type) : Type := Σ → outcome Σ A.

Definition ret {Σ A} (a : A) : js Σ A := λ σ, Ok a σ.

Definition bind {Σ A B} (m : js Σ A) (k : A → js Σ B) : js Σ B :=
  λ σ, match m σ with
       | Ok a σ' => k a σ'
       | Throw e σ' => Throw e σ'
       end.

Definition throw {Σ A} (e : error) : js Σ A := λ σ, Throw e σ.

(** [try { m } catch (err) { h err }] *)
Definition try_catch {Σ A} (m : js Σ A) (h : error → js Σ A) : js Σ A :=
  λ σ, match m σ with
       | Ok a σ' => Ok a σ'
       | Throw e σ' => h e σ'
       end.

Declare Scope js_scope.
Delimit Scope js_scope with js.
Notation "'let*' x ':=' m 'in' k" := (bind m (λ x, k))
  (at level 10, x name, m at level 100, k at level 200,
   format "'[v' 'let*'  x  ':='  m  'in' '/' k ']'") : js_scope.
Notation "m ';;;' k" := (bind m (λ _, k))
  (at level 100, k at level 200, right associativity,
   format "'[v' m ';;;' '/' k ']'") : js_scope.
Local Open Scope js_scope.

(** Reading and updating the state. *)
Definition gets {Σ A} (f : Σ → A) : js Σ A := λ σ, Ok (f σ) σ.
Definition modify {Σ} (f : Σ → Σ) : js Σ unit := λ σ, Ok () (f σ).

(** A statement that only touches the host, run by the script. *)
Definition on_host {A} (m : js Host A) : js World A :=
  λ w, match m (host w) with
       | Ok a h => Ok a {| data := data w; editMode := editMode w; host := h |}
       | Throw e h =>
           Throw e {| data := data w; editMode := editMode w; host := h |}
       end.

Definition set_data (d : AppState) : js World unit :=
  modify (λ w, {| data := d; editMode := editMode w; host := host w |}).

Definition set_editMode (b : bool) : js World unit :=
  modify (λ w, {| data := data w; editMode := b; host := host w |}).

Definition set_document (d : Document) (h : Host) : Host :=
  {| localStorage := localStorage h; console := console h; document := d |}.

Definition update_document (f : Document → Document) : js World unit :=
  on_host (modify (λ h, set_document (f (document h)) h)).

(** *** localStorage, console, JSON as statements *)

Definition localStorage_getItem (k : jsstring) : js Host (option jsstring) :=
  gets (λ h, entries (localStorage h) !! k).

Definition localStorage_setItem (k v : jsstring) : js Host unit :=
  λ h,
    let st := localStorage h in
    if fits st k v then
      Ok () {| localStorage := {| entries := <[k := v]> (entries st);
                                  quota := quota st |};
               console := console h; document := document h |}
    else Throw QuotaExceededError h.

Definition console_error (msg : jsstring) (err : error) : js Host unit :=
  modify (λ h, {| localStorage := localStorage h;
                  console := console h ++ [(msg, err)];
                  document := document h |}).

Definition JSON_parse_js {Σ} (s : jsstring) : js Σ value :=
  match JSON_parse s with
  | Some v => ret v
  | None => throw SyntaxError
  end.

(** *** Elements *)

Fixpoint assoc_set {V} (k : string) (v : V) (l : list (string * V))
  : list (string * V) :=
  match l with
  | [] => [(k, v)]
  | (k', v') :: r =>
      if String.eqb k' k then (k', v) :: r else (k', v') :: assoc_set k v r
  end.

Definition createElement (tag : string) : element :=
  {| tagName := tag; classList := []; props := []; style := [];
     listener := None; childNodes := [] |}.

Definition set_className (c : string) (e : element) : element :=
  {| tagName := tagName e; classList := [c]; props := props e;
     style := style e; listener := listener e; childNodes := childNodes e |}.

Definition classList_add (c : string) (e : element) : element :=
  {| tagName := tagName e; classList := classList e ++ [c]; props := props e;
     style := style e; listener := listener e; childNodes := childNodes e |}.

Definition set_prop (k : string) (v : pval) (e : element) : element :=
  {| tagName := tagName e; classList := classList e;
     props := assoc_set k v (props e);
     style := style e; listener := listener e; childNodes := childNodes e |}.

Definition set_style (k : string) (v : jsstring) (e : element) : element :=
  {| tagName := tagName e; classList := classList e; props := props e;
     style := assoc_set k v (style e);
     listener := listener e; childNodes := childNodes e |}.

Definition set_listener (ev : string) (h : handler) (e : element) : element :=
  {| tagName := tagName e; classList := classList e; props := props e;
     style := style e; listener := Some (ev, h); childNodes := childNodes e |}.

Definition appendChild (c : element) (e : element) : element :=
  {| tagName := tagName e; classList := classList e; props := props e;
     style := style e; listener := listener e;
     childNodes := childNodes e ++ [c] |}.

Notation "e '|>' f" := (f e) (at level 45, left associativity, only parsing).

Definition has_class (c : string) (e : element) : bool :=
  existsb (String.eqb c) (classList e).

(** The number of elements of class [c] in a tree, and in a forest. *)
Fixpoint count_class (c : string) (e : element) : nat :=
  (if has_class c e then 1 else 0)%nat +
  (fix go (l : list element) : nat :=
     match l with
     | [] => 0%nat
     | x :: r => (count_class c x + go r)%nat
     end) (childNodes e).

Fixpoint count_forest (c : string) (l : list element) : nat :=
  match l with
  | [] => 0%nat
  | x :: r => (count_class c x + count_forest c r)%nat
  end.

(** [querySelector('.c')] followed by [remove()]: the forest without the
    first element of class [c] in document order (the element goes with
    its subtree); [None] when no element has the class. *)
Fixpoint remove_inside (c : string) (e : element) : option element :=
  match
    (fix go (l : list element) : option (list element) :=
       match l with
       | [] => None
       | x :: r =>
           if has_class c x then Some r
           else match remove_inside c x with
                | Some x' => Some (x' :: r)
                | None =>
                    match go r with
                    | Some r' => Some (x :: r')
                    | None => None
                    end
                end
       end) (childNodes e)
  with
  | Some kids =>
      Some {| tagName := tagName e; classList := classList e;
              props := props e; style := style e; listener := listener e;
              childNodes := kids |}
  | None => None
  end.

Fixpoint remove_first (c : string) (l : list element)
  : option (list element) :=
  match l with
  | [] => None
  | x :: r =>
      if has_class c x then Some r
      else match remove_inside c x with
           | Some x' => Some (x' :: r)
           | None =>
               match remove_first c r with
               | Some r' => Some (x :: r')
               | None => None
               end
           end
  end.

(** Induction on element trees, with the hypothesis on every child. *)
Definition element_ind (P : element → Prop)
    (HEl : ∀ tag cl pr st li kids,
        Forall P kids → P (El tag cl pr st li kids))
  : ∀ e, P e :=
  fix go (e : element) : P e :=
    match e with
    | El tag cl pr st li kids =>
        HEl tag cl pr st li kids
          ((fix all (l : list element) : Forall P l :=
              match l with
              | [] => @List.Forall_nil _ P
              | x :: r => @List.Forall_cons _ P x r (go x) (all r)
              end) kids)
    end.

Definition overlay_count (d : Document) : nat :=
  (count_forest "overlay" (body_before d)
   + count_forest "overlay" (app_children d)
   + count_forest "overlay" (body_after d))%nat.

(** ** The script *)

Definition storage_key : jsstring := lit "coupleQuestData".

(** Retrieve stored data or fall back to default.  The [try] block either
    returns the parsed value ([Some]) or falls through ([None]); a throw
    inside it is logged by the [catch] and falls through as well. *)
Definition getData : js Host value :=
  let* returned :=
    try_catch
      (let* saved := localStorage_getItem storage_key in
       match saved with
       | Some blob =>
           if truthy blob then
             let* v := JSON_parse_js blob in ret (Some v)
           else ret None
       | None => ret None
       end)
      (λ err,
         console_error (lit "Failed to parse stored data:") err;;;
         ret None) in
  match returned with
  | Some v => ret v
  | None => JSON_parse_js (JSON_stringify (state_value defaultData))
  end.

(** Persist the current state to localStorage. *)
Definition saveData : js World unit :=
  try_catch
    (let* d := gets data in
     on_host (localStorage_setItem storage_key (JSON_stringify (state_value d))))
    (λ err, on_host (console_error (lit "Failed to save data:") err)).

(** The darkness overlay [render] inserts. *)
Definition overlay_color (o : number) : jsstring :=
  lit "rgba(0, 0, 0, " ++ Number_toString o ++ lit ")".

Definition overlay_element (d : AppState) : element :=
  createElement "div"
  |> set_className "overlay"
  |> set_style "backgroundColor" (overlay_color (overlay d)).

(** [document.querySelector('.overlay')], and [remove()] when found.  The
    mount itself is not an overlay. *)
Definition remove_existing_overlay (doc : Document) : Document :=
  match remove_first "overlay" (body_before doc) with
  | Some l =>
      {| body_style := body_style doc; body_before := l;
         app_children := app_children doc; body_after := body_after doc |}
  | None =>
      match remove_first "overlay" (app_children doc) with
      | Some l =>
          {| body_style := body_style doc; body_before := body_before doc;
             app_children := l; body_after := body_after doc |}
      | None =>
          match remove_first "overlay" (body_after doc) with
          | Some l =>
              {| body_style := body_style doc; body_before := body_before doc;
                 app_children := app_children doc; body_after := l |}
          | None => doc
          end
      end
  end.

(** A text that is a URL token of CSS as it stands: not empty, printable
    ASCII, and none of the quotes, parentheses and backslash, which a URL
    token cannot hold unescaped.  [url(...)] around such a text is a value
    that the [backgroundImage] property accepts. *)
Definition url_char (c : N) : bool :=
  (33 <=? c)%N && (c <=? 126)%N
  && negb ((c =? 34)%N || (c =? 39)%N || (c =? 40)%N || (c =? 41)%N
           || (c =? 92)%N).

Definition plain_url (s : jsstring) : bool := truthy s && forallb url_char s.

(** [document.body.style.k = v].  [body_style] keeps, for each property,
    the text the script last assigned to it, in the order of the first
    assignments.  For a value the property accepts, this is what the
    style then holds.  A value that is not valid CSS is ignored by the
    style, which [body_style] does not tell: what is stated about the
    style the body holds is stated for values it accepts
    ([plain_url]). *)
Definition set_body_style (k : string) (v : jsstring) (doc : Document)
  : Document :=
  {| body_style := assoc_set k v (body_style doc);
     body_before := body_before doc; app_children := app_children doc;
     body_after := body_after doc |}.

(** [document.body.insertBefore(e, document.body.firstChild)] *)
Definition body_insert_first (e : element) (doc : Document) : Document :=
  {| body_style := body_style doc; body_before := e :: body_before doc;
     app_children := app_children doc; body_after := body_after doc |}.

(** [app.innerHTML = ''] *)
Definition app_clear (doc : Document) : Document :=
  {| body_style := body_style doc; body_before := body_before doc;
     app_children := []; body_after := body_after doc |}.

(** [app.appendChild(e)] *)
Definition app_appendChild (e : element) (doc : Document) : Document :=
  {| body_style := body_style doc; body_before := body_before doc;
     app_children := app_children doc ++ [e]; body_after := body_after doc |}.

Definition toggleBtn (mode : bool) : element :=
  createElement "button"
  |> set_className "toggle-btn"
  |> set_prop "textContent" (PStr (if mode then lit "Done" else lit "Edit"))
  |> set_listener "onclick" toggleBtn_click.

(** The hero container: names, tagline and, in edit mode, the background
    upload and the overlay slider. *)
Definition hero_element (d : AppState) (mode : bool) : element :=
  let hero :=
    createElement "div"
    |> set_style "textAlign" (lit "center")
    |> set_style "width" (lit "100%")
    |> set_style "maxWidth" (lit "600px") in
  let hero :=
    if mode then
      hero |> appendChild
        (createElement "input"
         |> set_prop "type" (PStr (lit "text"))
         |> set_prop "value" (PStr (names d))
         |> set_listener "onchange" namesInput_change
         |> set_prop "placeholder" (PStr (lit "Enter your names")))
    else
      hero |> appendChild
        (createElement "h1" |> set_prop "textContent" (PStr (names d))) in
  let hero :=
    if mode then
      hero |> appendChild
        (createElement "input"
         |> set_prop "type" (PStr (lit "text"))
         |> set_prop "value" (PStr (tagline d))
         |> set_listener "onchange" taglineInput_change
         |> set_prop "placeholder" (PStr (lit "Enter your tagline"))
         |> set_style "marginTop" (lit "0.5rem"))
    else
      hero |> appendChild
        (createElement "p"
         |> set_className "tagline"
         |> set_prop "textContent" (PStr (tagline d))) in
  if mode then
    let fileInput :=
      createElement "input"
      |> set_prop "type" (PStr (lit "file"))
      |> set_prop "accept" (PStr (lit "image/*"))
      |> set_listener "onchange" fileInput_change in
    let rangeLabel :=
      createElement "label"
      |> set_prop "textContent" (PStr (lit "Overlay darkness"))
      |> set_prop "htmlFor" (PStr (lit "overlay-range")) in
    let rangeInput :=
      createElement "input"
      |> set_prop "type" (PStr (lit "range"))
      |> set_prop "min" (PStr (lit "0"))
      |> set_prop "max" (PStr (lit "0.9"))
      |> set_prop "step" (PStr (lit "0.05"))
      |> set_prop "value" (PStr (Number_toString (overlay d)))
      |> set_prop "id" (PStr (lit "overlay-range"))
      |> set_listener "oninput" rangeInput_input in
    let rangeContainer :=
      createElement "div"
      |> set_className "range-container"
      |> appendChild rangeLabel
      |> appendChild rangeInput in
    let editContainer :=
      createElement "div"
      |> set_className "edit-container"
      |> appendChild fileInput
      |> appendChild rangeContainer in
    hero |> appendChild editContainer
  else hero.

(** One row of a quest list: the body of the [forEach] callback. *)
Definition quest_item (mode : bool) (idx taskIndex : nat) (task : Task)
  : element :=
  let item := createElement "div" |> set_className "quest-item" in
  let item :=
    if completed task then item |> classList_add "completed" else item in
  let checkbox :=
    createElement "input"
    |> set_prop "type" (PStr (lit "checkbox"))
    |> set_prop "checked" (PBool (completed task))
    |> set_listener "onchange" (checkbox_change idx taskIndex) in
  let span :=
    createElement "span" |> set_prop "textContent" (PStr (text task)) in
  let label :=
    createElement "label" |> appendChild checkbox |> appendChild span in
  let item := item |> appendChild label in
  if mode then
    item |> appendChild
      (createElement "button"
       |> set_className "delete-btn"
       |> set_prop "textContent" (PStr (lit "Delete"))
       |> set_listener "onclick" (delBtn_click idx taskIndex))
  else item.

(** The element of a quest category: the body of [createCategorySection]
    once [sectionData] is known. *)
Definition category_element (mode : bool) (idx : nat) (sectionData : Category)
  : element :=
  let container :=
    createElement "div"
    |> set_style "width" (lit "100%")
    |> set_style "maxWidth" (lit "600px")
    |> set_style "display" (lit "flex")
    |> set_style "flexDirection" (lit "column")
    |> set_style "alignItems" (lit "center")
    |> set_style "marginTop" (lit "1rem") in
  let titleEl := createElement "h2" |> set_className "category-title" in
  let titleEl :=
    if mode then
      titleEl |> appendChild
        (createElement "input"
         |> set_prop "type" (PStr (lit "text"))
         |> set_prop "value" (PStr (title sectionData))
         |> set_listener "onchange" (titleInput_change idx)
         |> set_prop "placeholder" (PStr (lit "Category name")))
    else titleEl |> set_prop "textContent" (PStr (title sectionData)) in
  let container := container |> appendChild titleEl in
  let list :=
    fold_left (λ l item, l |> appendChild item)
      (imap (quest_item mode idx) (tasks sectionData))
      (createElement "div" |> set_className "quest-list") in
  let container := container |> appendChild list in
  if mode then
    container |> appendChild
      (createElement "div"
       |> set_className "add-container"
       |> appendChild
            (createElement "input"
             |> set_prop "type" (PStr (lit "text"))
             |> set_prop "placeholder" (PStr (lit "Add new quest...")))
       |> appendChild
            (createElement "button"
             |> set_prop "textContent" (PStr (lit "Add"))
             |> set_listener "onclick" (addBtn_click idx)))
  else container.

(** Creates the element of a single quest category.  [data.sections[idx]]
    is [undefined] past the end of the array, and reading its [title]
    throws. *)
Definition createCategorySection (idx : nat) : js World element :=
  let* d := gets data in
  let* mode := gets editMode in
  match sections d !! idx with
  | None => throw TypeError
  | Some sectionData => ret (category_element mode idx sectionData)
  end.

(** Main render function which rebuilds the DOM tree from scratch. *)
Definition render : js World unit :=
  update_document app_clear;;;
  let* d := gets data in
  let* mode := gets editMode in
  update_document
    (set_body_style "backgroundImage" (lit "url(" ++ background d ++ lit ")"));;;
  update_document (set_body_style "backgroundSize" (lit "cover"));;;
  update_document (set_body_style "backgroundPosition" (lit "center"));;;
  update_document (set_body_style "backgroundAttachment" (lit "fixed"));;;
  update_document remove_existing_overlay;;;
  update_document (body_insert_first (overlay_element d));;;
  update_document (app_appendChild (toggleBtn mode));;;
  let main := createElement "main" in
  let page1 := createElement "section" in
  let page1 := page1 |> appendChild (hero_element d mode) in
  let* category0 := createCategorySection 0 in
  let page1 := page1 |> appendChild category0 in
  let main := main |> appendChild page1 in
  let page2 := createElement "section" in
  let* category1 := createCategorySection 1 in
  let page2 := page2 |> appendChild category1 in
  let main := main |> appendChild page2 in
  update_document (app_appendChild main).

(** *** Event handlers

    Each closure is a statement; what it captures ([idx], [taskIndex]) and
    what the event brings ([e.target.value], [checkbox.checked]) are its
    arguments. *)

Definition with_names (v : jsstring) (d : AppState) : AppState :=
  {| names := v; tagline := tagline d; background := background d;
     overlay := overlay d; sections := sections d |}.

Definition with_tagline (v : jsstring) (d : AppState) : AppState :=
  {| names := names d; tagline := v; background := background d;
     overlay := overlay d; sections := sections d |}.

Definition with_background (v : jsstring) (d : AppState) : AppState :=
  {| names := names d; tagline := tagline d; background := v;
     overlay := overlay d; sections := sections d |}.

Definition with_overlay (v : number) (d : AppState) : AppState :=
  {| names := names d; tagline := tagline d; background := background d;
     overlay := v; sections := sections d |}.

Definition with_sections (l : list Category) (d : AppState) : AppState :=
  {| names := names d; tagline := tagline d; background := background d;
     overlay := overlay d; sections := l |}.

Definition with_title (v : jsstring) (c : Category) : Category :=
  {| title := v; tasks := tasks c |}.

Definition with_tasks (l : list Task) (c : Category) : Category :=
  {| title := title c; tasks := l |}.

Definition with_completed (b : bool) (t : Task) : Task :=
  {| text := text t; completed := b |}.

(** [toggleBtn.onclick] *)
Definition toggleBtn_onclick : js World unit :=
  let* mode := gets editMode in
  set_editMode (negb mode);;;
  render.

(** [namesInput.onchange] *)
Definition namesInput_onchange (value : jsstring) : js World unit :=
  let* d := gets data in
  set_data (with_names (or_empty value) d);;;
  saveData.

(** [taglineInput.onchange] *)
Definition taglineInput_onchange (value : jsstring) : js World unit :=
  let* d := gets data in
  set_data (with_tagline (or_empty value) d);;;
  saveData.

(** [reader.onload], the completion of the file read that
    [fileInput.onchange] starts; [result] is the data URL. *)
Definition reader_onload (result : jsstring) : js World unit :=
  let* d := gets data in
  set_data (with_background result d);;;
  saveData;;;
  render.

(** [overlay.style.backgroundColor = ...] in the slider's closure:
    [overlay] is the element the enclosing [render] call created and put
    first in the body, and the slider lives until the next [render]. *)
Definition restyle_overlay (color : jsstring) (doc : Document) : Document :=
  match body_before doc with
  | o :: r =>
      if has_class "overlay" o then
        {| body_style := body_style doc;
           body_before := set_style "backgroundColor" color o :: r;
           app_children := app_children doc; body_after := body_after doc |}
      else doc
  | [] => doc
  end.

(** [rangeInput.oninput] *)
Definition rangeInput_oninput (value : jsstring) : js World unit :=
  let* d := gets data in
  set_data (with_overlay (parseFloat value) d);;;
  let* d := gets data in
  update_document (restyle_overlay (overlay_color (overlay d)));;;
  saveData.

(** [titleInput.onchange] *)
Definition titleInput_onchange (idx : nat) (value : jsstring) : js World unit :=
  let* d := gets data in
  match sections d !! idx with
  | None => throw TypeError
  | Some section =>
      set_data
        (with_sections (<[idx := with_title (or_empty value) section]> (sections d)) d);;;
      saveData
  end.

(** [checkbox.onchange].  The closure holds the task object itself, which
    is [data.sections[idx].tasks[taskIndex]]: every handler that moves
    tasks ends in [render], which replaces all closures. *)
Definition checkbox_onchange (idx taskIndex : nat) (checked : bool)
  : js World unit :=
  let* d := gets data in
  set_data
    (with_sections
       (alter (λ section,
                 with_tasks (alter (with_completed checked) taskIndex
                               (tasks section)) section)
              idx (sections d)) d);;;
  saveData;;;
  render.

(** [delBtn.onclick]: [splice(taskIndex, 1)] removes the element at
    [taskIndex], and nothing when the index is past the end. *)
Definition delBtn_onclick (idx taskIndex : nat) : js World unit :=
  let* d := gets data in
  match sections d !! idx with
  | None => throw TypeError
  | Some section =>
      set_data
        (with_sections
           (<[idx := with_tasks (delete taskIndex (tasks section)) section]>
              (sections d)) d);;;
      saveData;;;
      render
  end.

(** [addBtn.onclick]; [value] is [input.value].  The input cleared by
    [input.value = ''] is replaced by the [render] that follows. *)
Definition addBtn_onclick (idx : nat) (value : jsstring) : js World unit :=
  let text := trim value in
  if truthy text then
    let* d := gets data in
    match sections d !! idx with
    | None => throw TypeError
    | Some section =>
        set_data
          (with_sections
             (<[idx := with_tasks (tasks section ++ [new_task text]) section]>
                (sections d)) d);;;
        saveData;;;
        render
    end
  else ret ().

(** *** The event loop *)

(** What the browser delivers.  [FileLoaded] is the completion of the read
    that [fileInput.onchange] starts; the handler itself changes nothing. *)
Inductive event :=
  | DOMContentLoaded
  | ToggleClick
  | NamesChange (value : jsstring)
  | TaglineChange (value : jsstring)
  | FileLoaded (result : jsstring)
  | RangeInput (value : jsstring)
  | TitleChange (idx : nat) (value : jsstring)
  | CheckboxChange (idx taskIndex : nat) (checked : bool)
  | DeleteClick (idx taskIndex : nat)
  | AddClick (idx : nat) (value : jsstring).

Definition handle (e : event) : js World unit :=
  match e with
  | DOMContentLoaded => render
  | ToggleClick => toggleBtn_onclick
  | NamesChange v => namesInput_onchange v
  | TaglineChange v => taglineInput_onchange v
  | FileLoaded r => reader_onload r
  | RangeInput v => rangeInput_oninput v
  | TitleChange idx v => titleInput_onchange idx v
  | CheckboxChange idx i b => checkbox_onchange idx i b
  | DeleteClick idx i => delBtn_onclick idx i
  | AddClick idx v => addBtn_onclick idx v
  end.

(** The world a statement leaves behind, whether it returned or threw (an
    exception that reaches the event loop is reported and dropped). *)
Definition settle {A} (o : outcome World A) : World :=
  match o with
  | Ok _ w' => w'
  | Throw _ w' => w'
  end.

Definition after {A} (m : js World A) (w : World) : World := settle (m w).

Definition step (w : World) (e : event) : World := after (handle e) w.

Definition run (es : list event) (w : World) : World := fold_left step es w.

(** [let data = getData(); let editMode = false;] on a host.  [None] when
    the stored value is JSON of another shape than an AppState. *)
Definition boot (h : Host) : option World :=
  match getData h with
  | Ok v h' =>
      match as_state v with
      | Some d => Some {| data := d; editMode := false; host := h' |}
      | None => None
      end
  | Throw _ _ => None
  end.

(** The contents of storage under the key of the script. *)
Definition stored (w : World) : option jsstring :=
  entries (localStorage (host w)) !! storage_key.

(** What [saveData] leaves in storage for state [d]: the serialization if
    it fits the quota, the old contents otherwise; and what it logs. *)
Definition saved_storage (d : AppState) (st : Storage) : Storage :=
  let blob := JSON_stringify (state_value d) in
  if fits st storage_key blob then
    {| entries := <[storage_key := blob]> (entries st); quota := quota st |}
  else st.

Definition save_log (d : AppState) (st : Storage) : list (jsstring * error) :=
  if fits st storage_key (JSON_stringify (state_value d)) then []
  else [(lit "Failed to save data:", QuotaExceededError)].

Definition with_data (d : AppState) (w : World) : World :=
  {| data := d; editMode := editMode w; host := host w |}.

Definition with_document (doc : Document) (w : World) : World :=
  {| data := data w; editMode := editMode w;
     host := set_document doc (host w) |}.

(** The world after [saveData]. *)
Definition saved_world (w : World) : World :=
  {| data := data w; editMode := editMode w;
     host := {| localStorage :=
                  saved_storage (data w) (localStorage (host w));
                console := console (host w) ++
                           save_log (data w) (localStorage (host w));
                document := document (host w) |} |}.

(** The page after [render]: the body styled, the overlay replaced, and
    the mount holding the edit button and, unless building a category
    threw, the two pages. *)
Definition render_chrome (d : AppState) (doc : Document) : Document :=
  app_clear doc
  |> set_body_style "backgroundImage" (lit "url(" ++ background d ++ lit ")")
  |> set_body_style "backgroundSize" (lit "cover")
  |> set_body_style "backgroundPosition" (lit "center")
  |> set_body_style "backgroundAttachment" (lit "fixed")
  |> remove_existing_overlay
  |> body_insert_first (overlay_element d).

Definition main_element (d : AppState) (mode : bool) (s0 s1 : Category)
  : element :=
  createElement "main"
  |> appendChild
       (createElement "section"
        |> appendChild (hero_element d mode)
        |> appendChild (category_element mode 0 s0))
  |> appendChild
       (createElement "section"
        |> appendChild (category_element mode 1 s1)).

Definition rendered_page (d : AppState) (mode : bool) (doc : Document)
  : Document :=
  let page := render_chrome d doc |> app_appendChild (toggleBtn mode) in
  match sections d !! 0%nat, sections d !! 1%nat with
  | Some s0, Some s1 => page |> app_appendChild (main_element d mode s0 s1)
  | _, _ => page
  end.

(** The same page, field by field: what [render] leaves in the mount, and
    the style of the body. *)
Definition mount_after_render (d : AppState) (mode : bool) : list element :=
  match sections d !! 0, sections d !! 1 with
  | Some s0, Some s1 => [toggleBtn mode; main_element d mode s0 s1]
  | _, _ => [toggleBtn mode]
  end.

Definition body_style_after_render (d : AppState)
    (l : list (string * jsstring)) : list (string * jsstring) :=
  l
  |> assoc_set "backgroundImage" (lit "url(" ++ background d ++ lit ")")
  |> assoc_set "backgroundSize" (lit "cover")
  |> assoc_set "backgroundPosition" (lit "center")
  |> assoc_set "backgroundAttachment" (lit "fixed").

(** The handler that led from [w] to [w'] persisted the state it left in
    memory: storage is what [saveData] makes of it, that is, the
    serialization of the state under the key of the script whenever the
    store accepts the write. *)
Definition persists (w w' : World) : Prop :=
  localStorage (host w') = saved_storage (data w') (localStorage (host w))
  ∧ (fits (localStorage (host w)) storage_key
       (JSON_stringify (state_value (data w'))) = true →
     stored w' = Some (JSON_stringify (state_value (data w')))).

(** A value is falsy when it is [null] (no item) or the empty string. *)
Definition falsy (saved : option jsstring) : bool :=
  match saved with
  | None => true
  | Some blob => negb (truthy blob)
  end.

(** *** The user at the checkbox

    [checkbox.onchange] stores [checkbox.checked], the state of the box
    after the click.  The box is looked up on the page by its listener. *)

Definition handler_eqb (a b : handler) : bool :=
  match a, b with
  | toggleBtn_click, toggleBtn_click => true
  | namesInput_change, namesInput_change => true
  | taglineInput_change, taglineInput_change => true
  | fileInput_change, fileInput_change => true
  | rangeInput_input, rangeInput_input => true
  | titleInput_change i, titleInput_change i' => Nat.eqb i i'
  | checkbox_change i j, checkbox_change i' j' => Nat.eqb i i' && Nat.eqb j j'
  | delBtn_click i j, delBtn_click i' j' => Nat.eqb i i' && Nat.eqb j j'
  | addBtn_click i, addBtn_click i' => Nat.eqb i i'
  | _, _ => false
  end.

Definition listens (h : handler) (e : element) : bool :=
  match listener e with
  | Some (_, h') => handler_eqb h h'
  | None => false
  end.

(** The first element, in document order, whose listener is [h]. *)
Fixpoint find_listener (h : handler) (e : element) : option element :=
  if listens h e then Some e
  else
    (fix go (l : list element) : option element :=
       match l with
       | [] => None
       | x :: r =>
           match find_listener h x with
           | Some y => Some y
           | None => go r
           end
       end) (childNodes e).

Fixpoint find_in_forest (h : handler) (l : list element) : option element :=
  match l with
  | [] => None
  | x :: r =>
      match find_listener h x with
      | Some y => Some y
      | None => find_in_forest h r
      end
  end.

Fixpoint assoc_get {V} (k : string) (l : list (string * V)) : option V :=
  match l with
  | [] => None
  | (k', v) :: r => if String.eqb k' k then Some v else assoc_get k r
  end.

(** What the checkbox of task [taskIndex] of category [idx] shows. *)
Definition shown_checked (doc : Document) (idx taskIndex : nat) : option bool :=
  match find_in_forest (checkbox_change idx taskIndex) (app_children doc) with
  | Some box =>
      match assoc_get "checked" (props box) with
      | Some (PBool b) => Some b
      | _ => None
      end
  | None => None
  end.

(** The checkbox [quest_item] draws for a task. *)
Definition checkbox_of (idx taskIndex : nat) (task : Task) : element :=
  createElement "input"
  |> set_prop "type" (PStr (lit "checkbox"))
  |> set_prop "checked" (PBool (completed task))
  |> set_listener "onchange" (checkbox_change idx taskIndex).

(** The first child of the body is the overlay of the last render. *)
Definition live_overlay (w : World) : Prop :=
  ∃ d rest, body_before (document (host w)) = overlay_element d :: rest.

(** Every checkbox of the two categories on the page shows the
    [completed] of its task. *)
Definition boxes_in_sync (w : World) : Prop :=
  ∀ idx i section task,
    idx < 2 →
    sections (data w) !! idx = Some section →
    tasks section !! i = Some task →
    shown_checked (document (host w)) idx i = Some (completed task).

(** A click on that checkbox: the box flips, then its listener runs. *)
Definition click_checkbox (idx taskIndex : nat) : js World unit :=
  let* doc := gets (λ w, document (host w)) in
  match shown_checked doc idx taskIndex with
  | Some b => checkbox_onchange idx taskIndex (negb b)
  | None => ret ()
  end.

(** ** Objects by reference

    The trees above are values; a JavaScript object is a reference, and two
    variables can hold the same one.  For the relation between
    [defaultData] and what [getData] returns, objects live in a heap: the
    sequence of objects allocated so far, an object's address being its
    position. *)

Inductive rvalue :=
  | RNull
  | RBool (b : bool)
  | RNum (n : number)
  | RStr (s : jsstring)
  | RRef (l : nat).

Inductive object :=
  | ObjectOf (members : list (jsstring * rvalue))
  | ArrayOf (elems : list rvalue).

Abbreviation heap := (list object).

(** Evaluating an object literal, and building the result of [JSON.parse]:
    every object and array of the tree is a new object. *)
Fixpoint alloc (v : value) (h : heap) : rvalue * heap :=
  match v with
  | Null => (RNull, h)
  | Bool b => (RBool b, h)
  | Num n => (RNum n, h)
  | Str s => (RStr s, h)
  | Arr elems =>
      let '(rs, h') :=
        (fix go (l : list value) (h : heap) : list rvalue * heap :=
           match l with
           | [] => ([], h)
           | x :: r =>
               let '(rx, h1) := alloc x h in
               let '(rr, h2) := go r h1 in
               (rx :: rr, h2)
           end) elems h in
      (RRef (length h'), h' ++ [ArrayOf rs])
  | Obj members =>
      let '(rs, h') :=
        (fix go (l : list (jsstring * value)) (h : heap)
           : list (jsstring * rvalue) * heap :=
           match l with
           | [] => ([], h)
           | (k, x) :: r =>
               let '(rx, h1) := alloc x h in
               let '(rr, h2) := go r h1 in
               ((k, rx) :: rr, h2)
           end) members h in
      (RRef (length h'), h' ++ [ObjectOf rs])
  end.

(** The tree below a reference, as [JSON.stringify] walks it; [fuel]
    bounds the depth, and [None] is a dangling or cyclic structure. *)
Fixpoint read (fuel : nat) (h : heap) (r : rvalue) : option value :=
  match r with
  | RNull => Some Null
  | RBool b => Some (Bool b)
  | RNum n => Some (Num n)
  | RStr s => Some (Str s)
  | RRef l =>
      match fuel with
      | O => None
      | S f =>
          match h !! l with
          | Some (ArrayOf rs) =>
              match mapM (read f h) rs with
              | Some vs => Some (Arr vs)
              | None => None
              end
          | Some (ObjectOf ms) =>
              match mapM (λ kr, match read f h (snd kr) with
                                | Some v => Some (fst kr, v)
                                | None => None
                                end) ms with
              | Some kvs => Some (Obj kvs)
              | None => None
              end
          | None => None
          end
      end
  end.

Definition read_tree (h : heap) (r : rvalue) : option value :=
  read (length h) h r.

(** The addresses of the objects below a reference. *)
Fixpoint addresses (fuel : nat) (h : heap) (r : rvalue) : list nat :=
  match r, fuel with
  | RRef l, S f =>
      l ::
      match h !! l with
      | Some (ArrayOf rs) => concat (map (addresses f h) rs)
      | Some (ObjectOf ms) => concat (map (λ kr, addresses f h (snd kr)) ms)
      | None => []
      end
  | _, _ => []
  end.

(** [const defaultData = { ... }] at the start of the script. *)
Definition defaultData_ref : rvalue := fst (alloc (state_value defaultData) []).
Definition defaultData_heap : heap := snd (alloc (state_value defaultData) []).

(** The elements of an array and the members of an object, allocated in
    order: the inner loops of [alloc]. *)
Fixpoint alloc_elems (l : list value) (h : heap) : list rvalue * heap :=
  match l with
  | [] => ([], h)
  | x :: r =>
      let '(rx, h1) := alloc x h in
      let '(rr, h2) := alloc_elems r h1 in
      (rx :: rr, h2)
  end.

Fixpoint alloc_members (l : list (jsstring * value)) (h : heap)
  : list (jsstring * rvalue) * heap :=
  match l with
  | [] => ([], h)
  | (k, x) :: r =>
      let '(rx, h1) := alloc x h in
      let '(rr, h2) := alloc_members r h1 in
      ((k, rx) :: rr, h2)
  end.

(** [r] stands for the tree [v] in every heap that extends [h ++ fresh],
    and all its objects are among [fresh]. *)
Definition allocated (v : value) (r : rvalue) (h fresh : heap) : Prop :=
  ∀ ext fuel, length fresh ≤ fuel →
    read fuel (h ++ fresh ++ ext) r = Some v
    ∧ ∀ l, l ∈ addresses fuel (h ++ fresh ++ ext) r →
           length h ≤ l ∧ l < length h + length fresh.

(** *** [getData] on references

    The script again, with objects as references.  It runs on the host
    and a heap.  [JSON.parse] builds its result out of new objects;
    [JSON.stringify] walks the tree below a reference (and throws on a
    cyclic structure); [defaultData] is the reference the literal
    evaluated to. *)

Definition on_page_host {A} (m : js Host A) : js (Host * heap) A :=
  λ σ, match m (fst σ) with
       | Ok a h => Ok a (h, snd σ)
       | Throw e h => Throw e (h, snd σ)
       end.

Definition JSON_parse_ref (s : jsstring) : js (Host * heap) rvalue :=
  λ σ, match JSON_parse s with
       | Some v => Ok (fst (alloc v (snd σ))) (fst σ, snd (alloc v (snd σ)))
       | None => Throw SyntaxError σ
       end.

Definition JSON_stringify_ref (r : rvalue) : js (Host * heap) jsstring :=
  λ σ, match read_tree (snd σ) r with
       | Some v => Ok (JSON_stringify v) σ
       | None => Throw TypeError σ
       end.

(** Retrieve stored data or fall back to default. *)
Definition getData_ref : js (Host * heap) rvalue :=
  let* returned :=
    try_catch
      (let* saved := on_page_host (localStorage_getItem storage_key) in
       match saved with
       | Some blob =>
           if truthy blob then
             let* r := JSON_parse_ref blob in ret (Some r)
           else ret None
       | None => ret None
       end)
      (λ err,
         on_page_host
           (console_error (lit "Failed to parse stored data:") err);;;
         ret None) in
  match returned with
  | Some r => ret r
  | None =>
      let* text := JSON_stringify_ref defaultData_ref in
      JSON_parse_ref text
  end.

(** ** Views of the page and of a history, used in the statements *)

(** The closures installed on a tree, in document order. *)
Fixpoint listeners (e : element) : list handler :=
  match listener e with
  | Some (_, h) => [h]
  | None => []
  end ++
  (fix go (l : list element) : list handler :=
     match l with
     | [] => []
     | x :: r => listeners x ++ go r
     end) (childNodes e).

Fixpoint forest_listeners (l : list element) : list handler :=
  match l with
  | [] => []
  | x :: r => listeners x ++ forest_listeners r
  end.

(** The controls of the hero block, of the row of task [taskIndex] and of
    a category of [n] tasks. *)
Definition hero_controls (mode : bool) : list handler :=
  if mode
  then [namesInput_change; taglineInput_change; fileInput_change;
        rangeInput_input]
  else [].

Definition row_controls (mode : bool) (idx taskIndex : nat) : list handler :=
  checkbox_change idx taskIndex
  :: (if mode then [delBtn_click idx taskIndex] else []).

Definition category_controls (mode : bool) (idx n : nat) : list handler :=
  (if mode then [titleInput_change idx] else [])
  ++ concat (map (row_controls mode idx) (seq 0%nat n))
  ++ (if mode then [addBtn_click idx] else []).

(** A text with something in it and no white space at either end. *)
Definition starts_clean (s : jsstring) : bool :=
  match s with
  | [] => false
  | c :: _ => negb (is_space c)
  end.

Definition trimmed (s : jsstring) : bool :=
  starts_clean s && starts_clean (rev s).

Definition tasks_trimmed (d : AppState) : Prop :=
  Forall (λ c, Forall (λ t, trimmed (text t) = true) (tasks c)) (sections d).

(** The number of clicks on the edit button in a history. *)
Fixpoint toggles (es : list event) : nat :=
  match es with
  | [] => 0%nat
  | ToggleClick :: r => S (toggles r)
  | _ :: r => toggles r
  end.

(** Storage holds the serialization of the state in memory. *)
Definition storage_current (w : World) : Prop :=
  stored w = Some (JSON_stringify (state_value (data w))).

(** What [getData] returns and logs on a host, read off the stored item. *)
Definition loaded_value (saved : option jsstring) : value :=
  match saved with
  | Some blob =>
      match JSON_parse blob with
      | Some v => v
      | None => state_value defaultData
      end
  | None => state_value defaultData
  end.

Definition load_log (saved : option jsstring) : list (jsstring * error) :=
  match saved with
  | Some blob =>
      match JSON_parse blob with
      | Some _ => []
      | None =>
          if truthy blob
          then [(lit "Failed to parse stored data:", SyntaxError)]
          else []
      end
  | None => []
  end.

(** The numbers on the scale of the slider of [render] ([min] 0, [max]
    0.9, [step] 0.05): the values the slider leaves as they are. *)
Definition slider_stops : list number :=
  [ Finite false [] 0;        Finite false [d5] (-1);
    Finite false [d1] 0;      Finite false [d1; d5] 0;
    Finite false [d2] 0;      Finite false [d2; d5] 0;
    Finite false [d3] 0;      Finite false [d3; d5] 0;
    Finite false [d4] 0;      Finite false [d4; d5] 0;
    Finite false [d5] 0;      Finite false [d5; d5] 0;
    Finite false [d6] 0;      Finite false [d6; d5] 0;
    Finite false [d7] 0;      Finite false [d7; d5] 0;
    Finite false [d8] 0;      Finite false [d8; d5] 0;
    Finite false [d9] 0 ].

(** The value sanitization of a text input: line breaks (U+000A, U+000D)
    are stripped, and nothing else. *)
Definition strip_newlines (s : jsstring) : jsstring :=
  List.filter (λ c, negb ((c =? 10)%N || (c =? 13)%N)) s.

Definition prop_text (k : string) (e : element) : option jsstring :=
  match assoc_get k (props e) with
  | Some (PStr v) => Some v
  | _ => None
  end.

(** What an input shows for the text the script assigned to its [value]:
    a text input, the text without its line breaks; the slider of
    [render] (from 0 to 0.9 in steps of 0.05), the text of a number on
    its scale.  Any other text the slider clamps or snaps to the scale;
    this, and inputs of other types, are not modelled: [None]. *)
Definition shown_value (e : element) : option jsstring :=
  match prop_text "type" e, prop_text "value" e with
  | Some type, Some v =>
      if bool_decide (type = lit "text") then Some (strip_newlines v)
      else if bool_decide (type = lit "range")
              && bool_decide (prop_text "min" e = Some (lit "0"))
              && bool_decide (prop_text "max" e = Some (lit "0.9"))
              && bool_decide (prop_text "step" e = Some (lit "0.05"))
              && bool_decide (v ∈ Number_toString <$> slider_stops)
           then Some v
           else None
  | _, _ => None
  end.

(** What the control whose listener is [h] shows. *)
Definition field_value (h : handler) (l : list element) : option jsstring :=
  match find_in_forest h l with
  | Some e => shown_value e
  | None => None
  end.

(** ** Sample hosts and worlds, used in the examples *)

Definition blank_page : Document :=
  {| body_style := []; body_before := []; app_children := [];
     body_after := [] |}.

(** A host whose storage is empty, with quota [q]. *)
Definition fresh_host (q : nat) : Host :=
  {| localStorage := {| entries := ∅; quota := q |};
     console := []; document := blank_page |}.

(** A host whose storage holds [blob] under the key of the script. *)
Definition host_with (blob : jsstring) (q : nat) : Host :=
  {| localStorage := {| entries := {[ storage_key := blob ]}; quota := q |};
     console := []; document := blank_page |}.

Definition world_of (d : AppState) (h : Host) : World :=
  {| data := d; editMode := false; host := h |}.

(** * Theorems *)

(** ** Numerals print and read back *)

Lemma char_digit_digit_char (d : digit) : char_digit (digit_char d) = Some d.
Proof. now destruct d. Qed.

Lemma ends_numeral_head (rest : jsstring) :
  ends_numeral rest →
  match rest with
  | [] => True
  | c :: _ => char_digit c = None ∧ (c =? 46)%N = false ∧ is_e c = false
  end.
Proof.
  destruct rest as [|c r]; [done|].
  intros [-> | [-> | ->]]; repeat split; reflexivity.
Qed.

Lemma scan_digits_chars (ds : list digit) (rest : jsstring) :
  match rest with [] => True | c :: _ => char_digit c = None end →
  scan_digits (chars ds ++ rest) = (ds, rest).
Proof.
  intros Hrest. induction ds as [|d ds IH]; cbn [chars map app scan_digits].
  - destruct rest as [|c r]; [reflexivity|]. cbn [scan_digits]. now rewrite Hrest.
  - rewrite char_digit_digit_char. fold (chars ds). now rewrite IH.
Qed.

Lemma digits_uint_digits (u : Decimal.uint) : digits_uint (uint_digits u) = u.
Proof. induction u; cbn; congruence. Qed.

Lemma digits_N_digits (n : N) : digits_N (N_digits n) = n.
Proof.
  unfold digits_N, N_digits. rewrite digits_uint_digits.
  apply DecimalN.Unsigned.of_to.
Qed.

Lemma N_digits_nonempty (n : N) : N_digits n ≠ [].
Proof.
  unfold N_digits. destruct n as [|p]; [discriminate|].
  cbn [N.to_uint]. pose proof (DecimalPos.Unsigned.to_uint_nonnil p) as Hp.
  destruct (Pos.to_uint p); [done| discriminate..].
Qed.

Lemma scan_exponent_text (e : Z) (rest : jsstring) :
  match rest with [] => True | c :: _ => char_digit c = None end →
  scan_exponent (exponent_text (Some e) ++ rest) = Some (e, rest).
Proof.
  intros Hrest. unfold exponent_text.
  change (lit "e") with [101%N]. change (lit "+") with [43%N].
  change (lit "-") with [45%N].
  pose proof (N_digits_nonempty (Z.abs_N e)) as Hne.
  destruct (Z.leb_spec 0 e) as [Hpos|Hneg];
    cbn [app scan_exponent].
  - change (is_e 101) with true. change (43 =? 45)%N with false.
    change (43 =? 43)%N with true. cbv iota beta.
    rewrite scan_digits_chars by exact Hrest.
    destruct (N_digits (Z.abs_N e)) as [|d ds] eqn:Hd; [done|].
    rewrite <- Hd, digits_N_digits. do 2 f_equal. lia.
  - change (is_e 101) with true. change (45 =? 45)%N with true.
    cbv iota beta.
    rewrite scan_digits_chars by exact Hrest.
    destruct (N_digits (Z.abs_N e)) as [|d ds] eqn:Hd; [done|].
    rewrite <- Hd, digits_N_digits. do 2 f_equal. lia.
Qed.

Lemma scan_decimal_text (ip fp : list digit) (tail : jsstring) :
  stops_digits tail →
  scan_decimal (chars ip ++ (if is_nil fp then [] else lit "." ++ chars fp)
                ++ tail)
  = (ip, negb (is_nil fp), fp, tail).
Proof.
  intros Htail. unfold scan_decimal. change (lit ".") with [46%N].
  destruct fp as [|f fs]; cbn [is_nil negb app].
  - rewrite scan_digits_chars.
    + destruct tail as [|c r]; [reflexivity|].
      destruct Htail as [_ ->]. reflexivity.
    + destruct tail as [|c r]; [done|]. apply Htail.
  - rewrite scan_digits_chars by reflexivity.
    change (46 =? 46)%N with true. cbv iota.
    rewrite scan_digits_chars; [reflexivity|].
    destruct tail as [|c r]; [done|]. apply Htail.
Qed.

Lemma drop_zeros_repeat (a : nat) (l : list digit) :
  drop_zeros (repeat d0 a ++ l) = drop_zeros l.
Proof. induction a as [|a IH]; [reflexivity|exact IH]. Qed.

Lemma rev_repeat_d0 (b : nat) : rev (repeat d0 b) = repeat d0 b.
Proof.
  induction b as [|b IH]; [reflexivity|].
  cbn [repeat rev]. rewrite IH. clear IH.
  induction b as [|b IH]; [reflexivity|]. cbn [repeat app]. now rewrite IH.
Qed.

(** A numeral whose digits are [ds] between [a] leading and [b] trailing
    zeros. *)
Lemma make_number_padded (neg : bool) (ip fp : list digit) (ex : Z)
    (d l : digit) (ds' r : list digit) (a b : nat) :
  ip ++ fp = repeat d0 a ++ (d :: ds') ++ repeat d0 b →
  is_d0 d = false →
  rev (d :: ds') = l :: r →
  is_d0 l = false →
  make_number neg ip fp ex
  = Finite neg (d :: ds') (Z.of_nat (length ip) + ex - Z.of_nat a).
Proof.
  intros Hall Hd Hrev Hl. unfold make_number. rewrite Hall.
  rewrite drop_zeros_repeat.
  assert (Hsig : drop_zeros ((d :: ds') ++ repeat d0 b)
                 = (d :: ds') ++ repeat d0 b).
  { cbn [app drop_zeros]. now rewrite Hd. }
  rewrite Hsig, rev_app_distr, rev_repeat_d0, Hrev, drop_zeros_repeat.
  cbn [drop_zeros]. rewrite Hl, <- Hrev, rev_involutive.
  rewrite !length_app, repeat_length. do 2 f_equal. lia.
Qed.

Lemma layout_ok (neg : bool) (d l : digit) (ds' r : list digit) (n : Z) :
  is_d0 d = false →
  rev (d :: ds') = l :: r →
  is_d0 l = false →
  ∃ i ip' fp ex,
    layout (d :: ds') n = (i :: ip', fp, ex)
    ∧ leading_zero (i :: ip') = false
    ∧ make_number neg (i :: ip') fp (default_exponent ex)
      = Finite neg (d :: ds') n.
Proof.
  intros Hd Hrev Hl. unfold layout.
  set (k := Z.of_nat (length (d :: ds'))).
  assert (Hk : k = Z.of_nat (S (length ds'))) by reflexivity.
  destruct ((k <=? n)%Z && (n <=? 21)%Z) eqn:H1.
  { apply andb_true_iff in H1 as [H1 _]. apply Z.leb_le in H1.
    exists d, (ds' ++ repeat d0 (Z.to_nat (n - k))), [], None.
    split; [reflexivity|]. split.
    { cbn [leading_zero app]. now destruct (ds' ++ _). }
    rewrite (make_number_padded neg _ _ _ d l ds' r 0 (Z.to_nat (n - k)));
      try assumption.
    - f_equal. cbn [default_exponent length]. rewrite length_app, repeat_length.
      lia.
    - now rewrite app_nil_r. }
  destruct ((0 <? n)%Z && (n <=? 21)%Z) eqn:H2.
  { apply andb_true_iff in H2 as [H2 H2']. apply Z.ltb_lt in H2.
    apply Z.leb_le in H2'.
    assert (Hlt : (n < k)%Z).
    { apply andb_false_iff in H1 as [H1|H1];
        [apply Z.leb_gt in H1; lia | apply Z.leb_gt in H1; lia]. }
    destruct (Z.to_nat n) as [|m] eqn:Hm; [lia|].
    exists d, (take m ds'), (drop (S m) (d :: ds')), None.
    split; [reflexivity|]. split.
    { cbn [leading_zero]. now destruct (take m ds'). }
    rewrite (make_number_padded neg _ _ _ d l ds' r 0 0); try assumption.
    - f_equal. cbn [default_exponent length].
      rewrite length_take. lia.
    - change (d :: take m ds') with (take (S m) (d :: ds')).
      rewrite take_drop. cbn [repeat app]. now rewrite app_nil_r. }
  destruct ((-6 <? n)%Z && (n <=? 0)%Z) eqn:H3.
  { apply andb_true_iff in H3 as [H3 H3']. apply Z.ltb_lt in H3.
    apply Z.leb_le in H3'.
    exists d0, [], (repeat d0 (Z.to_nat (- n)) ++ d :: ds'), None.
    split; [reflexivity|]. split; [reflexivity|].
    rewrite (make_number_padded neg _ _ _ d l ds' r (S (Z.to_nat (- n))) 0);
      try assumption.
    - f_equal. cbn [default_exponent length]. lia.
    - cbn [repeat app]. now rewrite app_nil_r. }
  exists d, [], ds', (Some (n - 1)%Z).
  split; [reflexivity|]. split; [reflexivity|].
  rewrite (make_number_padded neg _ _ _ d l ds' r 0 0); try assumption.
  - f_equal. cbn [default_exponent length]. lia.
  - cbn [repeat app]. now rewrite app_nil_r.
Qed.

Lemma normal_digits (neg : bool) (d : digit) (ds' : list digit) (n : Z) :
  normal (Finite neg (d :: ds') n) = true →
  is_d0 d = false ∧ ∃ l r, rev (d :: ds') = l :: r ∧ is_d0 l = false.
Proof.
  unfold normal. destruct (rev (d :: ds')) as [|l r]; [discriminate|].
  intros H. apply andb_true_iff in H as [H1 H2].
  apply negb_true_iff in H1, H2. eauto.
Qed.

Lemma digit_char_not_sign (d : digit) :
  (digit_char d =? 45)%N = false ∧ (digit_char d =? 43)%N = false
  ∧ is_space (digit_char d) = false ∧ (73 =? digit_char d)%N = false.
Proof. now destruct d. Qed.

Lemma stops_digits_tail (ex : option Z) (rest : jsstring) :
  ends_numeral rest → stops_digits (exponent_text ex ++ rest).
Proof.
  intros Hrest. destruct ex as [e|].
  - unfold exponent_text. change (lit "e") with [101%N]. cbn [app].
    split; reflexivity.
  - cbn [exponent_text app]. apply ends_numeral_head in Hrest.
    destruct rest as [|c r]; [done|]. split; apply Hrest.
Qed.

(** After the digits: the exponent, if the numeral has one. *)
Lemma exponent_tail (ex : option Z) (rest : jsstring) :
  ends_numeral rest →
  match exponent_text ex ++ rest with
  | [] => ex = None
  | c :: _ =>
      if is_e c
      then scan_exponent (exponent_text ex ++ rest)
           = Some (default_exponent ex, rest)
      else ex = None ∧ scan_exponent (exponent_text ex ++ rest) = None
  end.
Proof.
  intros Hrest. apply ends_numeral_head in Hrest. destruct ex as [e|].
  - pose proof (scan_exponent_text e rest) as Hscan.
    unfold exponent_text in *. change (lit "e") with [101%N] in *.
    cbn [app] in *. change (is_e 101) with true. cbv iota.
    apply Hscan. destruct rest as [|c r]; [done|]. apply Hrest.
  - cbn [exponent_text app]. destruct rest as [|c r]; [reflexivity|].
    destruct Hrest as (_ & _ & He). rewrite He. split; [reflexivity|].
    cbn [scan_exponent]. now rewrite He.
Qed.

Lemma strip_sign_text (neg : bool) (i : digit) (t : jsstring) :
  strip_minus ((if neg then lit "-" else []) ++ digit_char i :: t)
  = (neg, digit_char i :: t)
  ∧ strip_sign ((if neg then lit "-" else []) ++ digit_char i :: t)
    = (neg, digit_char i :: t).
Proof.
  destruct neg; [split; reflexivity|].
  cbn [app strip_minus strip_sign].
  now destruct (digit_char_not_sign i) as (-> & -> & _).
Qed.

Lemma json_number_toString (x : number) (rest : jsstring) :
  normal x = true →
  ends_numeral rest →
  json_number (Number_toString x ++ rest) = Some (x, rest).
Proof.
  intros Hx Hrest. destruct x as [| |neg ds n]; try discriminate.
  destruct ds as [|d ds'].
  - cbn in Hx. apply andb_true_iff in Hx as [Hneg Hn].
    apply negb_true_iff in Hneg. apply Z.eqb_eq in Hn. subst.
    cbn [Number_toString]. change (lit "0") with (chars [d0]).
    unfold json_number.
    change (strip_minus (chars [d0] ++ rest)) with (false, chars [d0] ++ rest).
    cbv beta iota zeta.
    pose proof (scan_decimal_text [d0] [] rest) as Hscan.
    cbn [is_nil app negb] in Hscan. rewrite Hscan.
    + cbn [is_nil leading_zero orb andb].
      apply ends_numeral_head in Hrest.
      destruct rest as [|c r]; [reflexivity|].
      destruct Hrest as (_ & _ & ->). reflexivity.
    + apply ends_numeral_head in Hrest.
      destruct rest as [|c r]; [done|]. split; apply Hrest.
  - destruct (normal_digits _ _ _ _ Hx) as (Hd & l & r & Hrev & Hl).
    destruct (layout_ok neg d l ds' r n Hd Hrev Hl)
      as (i & ip' & fp & ex & Hlay & Hlead & Hmake).
    cbn [Number_toString]. rewrite Hlay. unfold numeral_text, json_number.
    rewrite <- !app_assoc. cbn [chars map app]. fold (chars ip').
    destruct (strip_sign_text neg i
                (chars ip' ++ (if is_nil fp then [] else lit "." ++ chars fp)
                 ++ exponent_text ex ++ rest)) as [-> _].
    change (digit_char i :: chars ip' ++ ?t) with (chars (i :: ip') ++ t).
    rewrite scan_decimal_text by now apply stops_digits_tail.
    rewrite Hlead. cbn [is_nil orb]. rewrite andb_negb_l.
    pose proof (exponent_tail ex rest Hrest) as Htail.
    destruct (exponent_text ex ++ rest) as [|c t] eqn:Hs3.
    + subst ex. cbn in Hs3. subst rest. now rewrite <- Hmake.
    + destruct (is_e c).
      * rewrite Htail. now rewrite Hmake.
      * destruct Htail as [-> _]. cbn in Hs3. subst rest.
        now rewrite <- Hmake.
Qed.

Lemma parseFloat_toString (x : number) :
  normal x = true → parseFloat (Number_toString x) = x.
Proof.
  intros Hx. destruct x as [| |neg ds n]; try discriminate.
  destruct ds as [|d ds'].
  - cbn in Hx. apply andb_true_iff in Hx as [Hneg Hn].
    apply negb_true_iff in Hneg. apply Z.eqb_eq in Hn. now subst.
  - destruct (normal_digits _ _ _ _ Hx) as (Hd & l & r & Hrev & Hl).
    destruct (layout_ok neg d l ds' r n Hd Hrev Hl)
      as (i & ip' & fp & ex & Hlay & Hlead & Hmake).
    cbn [Number_toString]. rewrite Hlay. unfold numeral_text, parseFloat.
    cbn [chars map app]. fold (chars ip').
    set (t := chars ip' ++ (if is_nil fp then [] else lit "." ++ chars fp)
              ++ exponent_text ex).
    assert (Htrim : trim_start ((if neg then lit "-" else []) ++ digit_char i :: t)
                    = (if neg then lit "-" else []) ++ digit_char i :: t).
    { destruct neg; [reflexivity|]. cbn [app trim_start].
      now destruct (digit_char_not_sign i) as (_ & _ & -> & _). }
    rewrite Htrim. destruct (strip_sign_text neg i t) as [_ ->].
    assert (Hinf : starts_with (lit "Infinity") (digit_char i :: t) = None).
    { change (lit "Infinity") with (73%N :: lit "nfinity").
      cbn [starts_with].
      now destruct (digit_char_not_sign i) as (_ & _ & _ & ->). }
    rewrite Hinf. subst t.
    change (digit_char i :: chars ip' ++ ?t) with (chars (i :: ip') ++ t).
    rewrite <- (app_nil_r (exponent_text ex)).
    rewrite scan_decimal_text by now apply stops_digits_tail.
    cbn [is_nil andb].
    pose proof (exponent_tail ex [] I) as Htail.
    destruct (exponent_text ex ++ []) as [|c t] eqn:Hs3.
    + subst ex. exact Hmake.
    + destruct (is_e c).
      * now rewrite Htail.
      * destruct Htail as [-> ->]. exact Hmake.
Qed.

(** ** String literals quote and read back *)

Section StringLiterals.
Local Open Scope N_scope.

Lemma hex_value_hex_char (n : N) : n < 16 → hex_value (hex_char n) = Some n.
Proof.
  intros Hn.
  assert (H : n = 0 ∨ n = 1 ∨ n = 2 ∨ n = 3 ∨ n = 4 ∨ n = 5 ∨ n = 6 ∨ n = 7
              ∨ n = 8 ∨ n = 9 ∨ n = 10 ∨ n = 11 ∨ n = 12 ∨ n = 13 ∨ n = 14
              ∨ n = 15) by lia.
  repeat (destruct H as [-> | H]; [reflexivity|]). now subst.
Qed.

Lemma hex4_unicode_escape (c : N) :
  c < 65536 →
  hex4 (hex_char ((c / 4096) mod 16)) (hex_char ((c / 256) mod 16))
       (hex_char ((c / 16) mod 16)) (hex_char (c mod 16)) = Some c.
Proof.
  intros Hc. unfold hex4.
  rewrite !hex_value_hex_char by (apply N.mod_upper_bound; discriminate).
  f_equal. zify. Z.to_euclidean_division_equations. lia.
Qed.

Lemma short_escape_some (c e : N) :
  short_escape c = Some e → (e =? 117) = false ∧ unescape e = Some c.
Proof.
  unfold short_escape.
  repeat match goal with
         | |- context [c =? ?k] =>
             destruct (N.eqb_spec c k) as [->|_];
             [intros [= <-]; split; reflexivity|]
         end.
  discriminate.
Qed.

Lemma short_escape_none (c : N) :
  short_escape c = None → (c =? 34) = false ∧ (c =? 92) = false.
Proof.
  unfold short_escape.
  repeat match goal with
         | |- context [if c =? ?k then _ else _] =>
             destruct (N.eqb_spec c k) as [->|?]; [discriminate|]
         end.
  intros _. split; reflexivity.
Qed.

Lemma parse_unicode_escape (c : N) (t : jsstring) :
  c < 65536 →
  parse_chars (unicode_escape c ++ t)
  = match parse_chars t with
    | Some (s, rest) => Some (c :: s, rest)
    | None => None
    end.
Proof.
  intros Hc. unfold unicode_escape. cbn [app parse_chars].
  change (92 =? 34) with false. change (92 =? 92) with true.
  change (117 =? 117) with true. cbv iota.
  now rewrite hex4_unicode_escape.
Qed.

Lemma parse_plain_char (c : N) (t : jsstring) :
  (c =? 34) = false → (c =? 92) = false → (c <? 32) = false →
  parse_chars (c :: t)
  = match parse_chars t with
    | Some (s, rest) => Some (c :: s, rest)
    | None => None
    end.
Proof. intros H1 H2 H3. cbn [parse_chars]. now rewrite H1, H2, H3. Qed.

Lemma surrogate_plain (c : N) :
  is_high_surrogate c = true ∨ is_low_surrogate c = true →
  (c =? 34) = false ∧ (c =? 92) = false ∧ (c <? 32) = false ∧ c < 65536.
Proof.
  unfold is_high_surrogate, is_low_surrogate.
  intros [H|H]; apply andb_true_iff in H as [H1 H2];
    apply N.leb_le in H1, H2;
    (repeat split; [apply N.eqb_neq; lia | apply N.eqb_neq; lia
                   | apply N.ltb_ge; lia | lia]).
Qed.

Lemma parse_quote_chars_bounded (n : nat) (s rest : jsstring) :
  (length s ≤ n)%nat →
  parse_chars (quote_chars s ++ 34 :: rest) = Some (s, rest).
Proof.
  revert s. induction n as [|n IH]; intros s Hlen.
  { destruct s; [reflexivity | cbn in Hlen; lia]. }
  destruct s as [|c r]; [reflexivity|].
  cbn [length] in Hlen. assert (Hr : (length r ≤ n)%nat) by lia.
  cbn [quote_chars].
  destruct (short_escape c) as [e|] eqn:Hse.
  { apply short_escape_some in Hse as [He Hun].
    cbn [app parse_chars]. change (92 =? 34) with false.
    change (92 =? 92) with true. cbv iota.
    now rewrite He, Hun, IH. }
  apply short_escape_none in Hse as [Hq Hb].
  destruct (c <? 32) eqn:Hctl.
  { rewrite <- app_assoc, parse_unicode_escape, IH by
      (try apply N.ltb_lt in Hctl; try lia). reflexivity. }
  destruct (is_high_surrogate c) eqn:Hhigh.
  { destruct (surrogate_plain c (or_introl Hhigh)) as (_ & _ & _ & Hc).
    destruct r as [|c2 r2].
    - rewrite parse_unicode_escape by exact Hc. reflexivity.
    - destruct (is_low_surrogate c2) eqn:Hlow.
      + destruct (surrogate_plain c2 (or_intror Hlow)) as (H1 & H2 & H3 & _).
        cbn [app]. rewrite parse_plain_char by assumption.
        rewrite parse_plain_char by assumption.
        rewrite IH by (cbn [length] in Hr; lia). reflexivity.
      + rewrite <- app_assoc, parse_unicode_escape, IH by (try exact Hc; lia).
        reflexivity. }
  destruct (is_low_surrogate c) eqn:Hlow.
  { destruct (surrogate_plain c (or_intror Hlow)) as (_ & _ & _ & Hc).
    rewrite <- app_assoc, parse_unicode_escape, IH by (try exact Hc; lia).
    reflexivity. }
  cbn [app]. rewrite parse_plain_char by assumption.
  now rewrite IH.
Qed.

Lemma parse_quote_chars (s rest : jsstring) :
  parse_chars (quote_chars s ++ 34 :: rest) = Some (s, rest).
Proof. now apply (parse_quote_chars_bounded (length s)). Qed.

End StringLiterals.

(** ** JSON.parse inverts JSON.stringify *)

Lemma Number_toString_head (x : number) :
  normal x = true →
  ∃ c t, Number_toString x = c :: t ∧ (c = 45%N ∨ ∃ d, c = digit_char d).
Proof.
  intros Hx. destruct x as [| |neg ds n]; try discriminate.
  destruct ds as [|d ds'].
  - exists 48%N, []. split; [reflexivity|]. right. now exists d0.
  - destruct (normal_digits _ _ _ _ Hx) as (Hd & l & r & Hrev & Hl).
    destruct (layout_ok neg d l ds' r n Hd Hrev Hl)
      as (i & ip' & fp & ex & Hlay & _ & _).
    cbn [Number_toString]. rewrite Hlay. unfold numeral_text.
    cbn [chars map app]. destruct neg.
    + eexists _, _. split; [reflexivity|]. now left.
    + eexists _, _. split; [reflexivity|]. right. now exists i.
Qed.

Lemma number_head_facts (c : N) :
  c = 45%N ∨ (∃ d, c = digit_char d) →
  is_json_ws c = false ∧ (c =? 123)%N = false ∧ (c =? 91)%N = false
  ∧ (c =? 34)%N = false ∧ (c =? 93)%N = false
  ∧ (116 =? c)%N = false ∧ (102 =? c)%N = false ∧ (110 =? c)%N = false.
Proof. intros [-> | [d ->]]; [|destruct d]; repeat split; reflexivity. Qed.

Lemma parses_back_num (n : number) : normal n = true → parses_back (Num n).
Proof.
  intros Hn fuel rest Hfuel Hrest.
  destruct fuel as [|f]; [lia|].
  assert (Hs : JSON_stringify (Num n) = Number_toString n)
    by (destruct n; try discriminate; reflexivity).
  rewrite Hs.
  destruct (Number_toString_head n Hn) as (c & t & Htext & Hc).
  pose proof (json_number_toString n rest Hn Hrest) as Hnum.
  rewrite Htext in *.
  destruct (number_head_facts c Hc) as (H1 & H2 & H3 & H4 & _ & H5 & H6 & H7).
  cbn [parse_value app skip_ws]. rewrite H1, H2, H3, H4.
  unfold parse_literal.
  change (lit "true") with (116%N :: lit "rue").
  change (lit "false") with (102%N :: lit "alse").
  change (lit "null") with (110%N :: lit "ull").
  cbn [starts_with]. rewrite H5, H6, H7.
  cbn [app] in Hnum. now rewrite Hnum.
Qed.

Lemma parses_back_str (s : jsstring) : parses_back (Str s).
Proof.
  intros fuel rest Hfuel _. destruct fuel as [|f]; [lia|].
  cbn [JSON_stringify QuoteJSONString app parse_value skip_ws].
  change (is_json_ws 34) with false. change (34 =? 123)%N with false.
  change (34 =? 91)%N with false. change (34 =? 34)%N with true. cbv iota.
  rewrite <- app_assoc. cbn [app]. now rewrite parse_quote_chars.
Qed.

Lemma stringify_head (v : value) :
  json_safe v = true →
  ∃ c t, JSON_stringify v = c :: t
         ∧ is_json_ws c = false ∧ (c =? 93)%N = false.
Proof.
  destruct v as [|b|n|s|l|ms]; intros Hv.
  - now eexists _, _.
  - destruct b; now eexists _, _.
  - assert (Hs : JSON_stringify (Num n) = Number_toString n)
      by (destruct n; try discriminate; reflexivity).
    rewrite Hs. destruct (Number_toString_head n Hv) as (c & t & -> & Hc).
    exists c, t. split; [reflexivity|].
    destruct (number_head_facts c Hc) as (H1 & _ & _ & _ & H2 & _). now split.
  - now eexists _, _.
  - now eexists _, _.
  - now eexists _, _.
Qed.

Lemma obj_set_fresh (k : jsstring) (v : value) (acc : list (jsstring * value)) :
  k ∉ map fst acc → obj_set k v acc = acc ++ [(k, v)].
Proof.
  induction acc as [|[k' v'] acc IH]; intros Hk; [reflexivity|].
  cbn [map fst] in Hk. apply not_elem_of_cons in Hk as [Hne Hk].
  cbn [obj_set app]. destruct (decide (k' = k)); [congruence|].
  now rewrite IH.
Qed.

Lemma fold_obj_set (ms acc : list (jsstring * value)) :
  NoDup (map fst acc ++ map fst ms) →
  fold_left (λ acc kv, obj_set (fst kv) (snd kv) acc) ms acc = acc ++ ms.
Proof.
  revert acc. induction ms as [|[k v] ms IH]; intros acc Hnd.
  - now rewrite app_nil_r.
  - cbn [fold_left fst snd]. cbn [map fst] in Hnd.
    rewrite obj_set_fresh.
    + rewrite IH; [now rewrite <- app_assoc|].
      rewrite map_app. cbn [map fst]. now rewrite <- app_assoc.
    + apply NoDup_app in Hnd as (_ & Hdis & _).
      intros Hin. apply (Hdis k Hin). left.
Qed.

Lemma obj_of_members_nodup (ms : list (jsstring * value)) :
  NoDup (map fst ms) → obj_of_members ms = Obj ms.
Proof. intros Hnd. unfold obj_of_members. now rewrite fold_obj_set. Qed.

Lemma parse_elements_join (l : list value) (x : value) :
  Forall (λ v, json_safe v = true ∧ parses_back v) (x :: l) →
  ∀ fuel rest,
    (length (join_commas (map JSON_stringify (x :: l))) + 1 < fuel)%nat →
    parse_elements fuel
      (join_commas (map JSON_stringify (x :: l)) ++ 93%N :: rest)
    = Some (x :: l, rest).
Proof.
  revert x. induction l as [|y l IH]; intros x Hall fuel rest Hfuel;
    apply Forall_cons in Hall as [[_ Hx] Hall];
    cbn [map join_commas] in *;
    (destruct fuel as [|f]; [lia|]); cbn [parse_elements].
  - rewrite app_nil_r in *.
    rewrite (Hx f (93%N :: rest)); [reflexivity|lia|]. right; now left.
  - rewrite length_app in Hfuel. cbn [length] in Hfuel.
    rewrite <- app_assoc. cbn [app].
    rewrite (Hx f); [|lia|now left].
    change (scan_separator 93 (44%N :: ?t)) with (Some (Comma, t)).
    cbv iota. rewrite (IH y Hall f rest); [reflexivity|].
    cbn [map join_commas]. lia.
Qed.

Lemma join_commas_cons (a b : jsstring) (l : list jsstring) (t : jsstring) :
  join_commas (a :: b :: l) ++ t = a ++ 44%N :: (join_commas (b :: l) ++ t).
Proof. cbn [join_commas]. now rewrite <- app_assoc. Qed.

Lemma parse_member (k : jsstring) (x : value) (f : nat) (tail : jsstring) :
  parses_back x →
  (length (JSON_stringify x) < f)%nat →
  ends_numeral tail →
  parse_members (S f) (member_text (k, x) ++ tail)
  = match scan_separator 125 tail with
    | Some (Comma, r4) =>
        match parse_members f r4 with
        | Some (ms, r5) => Some ((k, x) :: ms, r5)
        | None => None
        end
    | Some (Close, r4) => Some ([(k, x)], r4)
    | None => None
    end.
Proof.
  intros Hx Hf Htail. unfold member_text, member_with, QuoteJSONString.
  cbn [parse_members].
  cbn [app skip_ws]. change (is_json_ws 34) with false. cbv iota.
  change (starts_with [34%N] (34%N :: ?t)) with (Some t). cbv iota.
  rewrite <- !app_assoc. cbn [app]. rewrite parse_quote_chars.
  cbn [skip_ws]. change (is_json_ws 58) with false. cbv iota.
  change (starts_with [58%N] (58%N :: ?t)) with (Some t). cbv iota.
  now rewrite (Hx f tail Hf Htail).
Qed.

Lemma parse_members_join (ms : list (jsstring * value)) (kx : jsstring * value) :
  Forall (λ kv, json_safe (snd kv) = true ∧ parses_back (snd kv)) (kx :: ms) →
  ∀ fuel rest,
    (length (join_commas (map member_text (kx :: ms))) + 1 < fuel)%nat →
    parse_members fuel
      (join_commas (map member_text (kx :: ms)) ++ 125%N :: rest)
    = Some (kx :: ms, rest).
Proof.
  revert kx. induction ms as [|ky ms IH]; intros [k x] Hall fuel rest Hfuel;
    apply Forall_cons in Hall as [[_ Hx] Hall]; cbn [snd] in Hx;
    (destruct fuel as [|f]; [lia|]); cbn [map] in *.
  - cbn [join_commas] in *. rewrite app_nil_r in *.
    unfold member_text, member_with in Hfuel. rewrite length_app in Hfuel.
    cbn [length] in Hfuel.
    rewrite parse_member; [reflexivity|exact Hx|lia|]. right; now right.
  - rewrite join_commas_cons.
    assert (Hlen : (length (join_commas (member_text (k, x) :: member_text ky
                                           :: map member_text ms))
                    = length (member_text (k, x)) + 1
                      + length (join_commas (member_text ky
                                               :: map member_text ms)))%nat).
    { cbn [join_commas]. rewrite length_app. cbn [length]. lia. }
    rewrite Hlen in Hfuel. unfold member_text at 1, member_with in Hfuel.
    rewrite length_app in Hfuel. cbn [length] in Hfuel.
    rewrite parse_member; [|exact Hx|lia|now left].
    change (scan_separator 125 (44%N :: ?t)) with (Some (Comma, t)).
    cbv iota. rewrite (IH ky Hall f rest); [reflexivity|].
    cbn [map]. lia.
Qed.

Theorem parse_stringify (v : value) : json_safe v = true → parses_back v.
Proof.
  induction v as [|b|n|s|l IH|ms IH] using value_ind; intros Hv.
  - intros [|f] rest Hf _; [cbn in Hf; lia | reflexivity].
  - intros [|f] rest Hf _; [cbn in Hf; lia | now destruct b].
  - now apply parses_back_num.
  - apply parses_back_str.
  - intros fuel rest Hfuel _. destruct fuel as [|f]; [lia|].
    cbn [json_safe] in Hv. cbn [JSON_stringify] in *.
    cbn [length] in Hfuel. rewrite length_app in Hfuel. cbn [length] in Hfuel.
    assert (Hall : Forall (λ v, json_safe v = true ∧ parses_back v) l).
    { rewrite forallb_forall in Hv. rewrite Forall_forall in *.
      intros x Hin. pose proof (Hv x (proj1 (list_elem_of_In _ _) Hin)).
      split; [assumption|]. now apply IH. }
    cbn [app parse_value skip_ws]. change (is_json_ws 91) with false.
    change (91 =? 123)%N with false. change (91 =? 91)%N with true.
    cbv iota. rewrite <- app_assoc. cbn [app].
    destruct l as [|x l]; [reflexivity|].
    pose proof Hall as Hx. apply Forall_cons in Hx as [[Hx _] _].
    destruct (stringify_head x Hx) as (c & t & Hhead & Hws & Hclose).
    rewrite parse_elements_join by (try exact Hall; lia).
    cbn [map join_commas]. rewrite Hhead. cbn [app skip_ws starts_with].
    now rewrite Hws, (N.eqb_sym 93 c), Hclose.
  - intros fuel rest Hfuel _. destruct fuel as [|f]; [lia|].
    cbn [json_safe] in Hv. apply andb_true_iff in Hv as [Hnd Hv].
    apply bool_decide_eq_true in Hnd.
    cbn [JSON_stringify] in *. fold member_text in *.
    cbn [length] in Hfuel. rewrite length_app in Hfuel. cbn [length] in Hfuel.
    assert (Hall : Forall (λ kv, json_safe (snd kv) = true
                                 ∧ parses_back (snd kv)) ms).
    { rewrite forallb_forall in Hv. rewrite Forall_forall in *.
      intros x Hin. pose proof (Hv x (proj1 (list_elem_of_In _ _) Hin)).
      split; [assumption|]. now apply IH. }
    cbn [app parse_value skip_ws]. change (is_json_ws 123) with false.
    change (123 =? 123)%N with true.
    cbv iota. rewrite <- app_assoc. cbn [app].
    destruct ms as [|[k x] ms]; [reflexivity|].
    rewrite parse_members_join by (try exact Hall; lia).
    rewrite obj_of_members_nodup by exact Hnd.
    reflexivity.
Qed.

Theorem JSON_roundtrip (v : value) :
  json_safe v = true → JSON_parse (JSON_stringify v) = Some v.
Proof.
  intros Hv. unfold JSON_parse.
  pose proof (parse_stringify v Hv (S (length (JSON_stringify v))) []) as H.
  rewrite app_nil_r in H. rewrite H; [reflexivity|lia|exact I].
Qed.

(** ** The fuel of the parser is enough *)

Lemma skip_ws_length (s : jsstring) : length (skip_ws s) ≤ length s.
Proof.
  induction s as [|c s IH]; [reflexivity|]. cbn [skip_ws].
  destruct (is_json_ws c); cbn [length]; lia.
Qed.

Lemma starts_with_length (p s r : jsstring) :
  starts_with p s = Some r → length s = length p + length r.
Proof.
  revert s. induction p as [|a p IH]; intros s H.
  - cbn in H. now injection H as ->.
  - destruct s as [|b s]; [discriminate|]. cbn [starts_with] in H.
    destruct (N.eqb a b); [|discriminate]. cbn [length].
    now rewrite (IH s H).
Qed.

Lemma parse_chars_length (n : nat) (s t r : jsstring) :
  length s ≤ n → parse_chars s = Some (t, r) → length r < length s.
Proof.
  revert s t r. induction n as [|n IH]; intros s t r Hn H.
  { destruct s; [discriminate|cbn in Hn; lia]. }
  destruct s as [|c s]; [discriminate|]. cbn [length] in *.
  cbn [parse_chars] in H.
  destruct (N.eqb c 34); [injection H as _ ->; lia|].
  destruct (N.eqb c 92).
  - destruct s as [|e s1]; [discriminate|]. cbn [length] in *.
    destruct (N.eqb e 117).
    + destruct s1 as [|h1 [|h2 [|h3 [|h4 s2]]]]; try discriminate.
      cbn [length] in *.
      destruct (hex4 h1 h2 h3 h4); [|discriminate].
      destruct (parse_chars s2) as [[t' r']|] eqn:E; [|discriminate].
      injection H as _ ->. apply IH in E; lia.
    + destruct (unescape e); [|discriminate].
      destruct (parse_chars s1) as [[t' r']|] eqn:E; [|discriminate].
      injection H as _ ->. apply IH in E; lia.
  - destruct (N.ltb c 32); [discriminate|].
    destruct (parse_chars s) as [[t' r']|] eqn:E; [|discriminate].
    injection H as _ ->. apply IH in E; lia.
Qed.

Lemma scan_digits_length (s : jsstring) :
  length s = length (fst (scan_digits s)) + length (snd (scan_digits s)).
Proof.
  induction s as [|c s IH]; [reflexivity|]. cbn [scan_digits].
  destruct (char_digit c); [|reflexivity].
  destruct (scan_digits s) as [ds r]. cbn [fst snd length] in *. lia.
Qed.

Lemma scan_exponent_length (s r : jsstring) (e : Z) :
  scan_exponent s = Some (e, r) → length r < length s.
Proof.
  destruct s as [|c s]; [discriminate|]. cbn [scan_exponent length].
  destruct (is_e c); [|discriminate].
  assert (Hsign : ∀ s1,
    (let '(sgn, r1) :=
       match s with
       | c1 :: r' =>
           if N.eqb c1 45 then (true, r')
           else if N.eqb c1 43 then (false, r') else (false, s)
       | [] => (false, s)
       end in (sgn, r1)) = s1 → length (snd s1) ≤ length s).
  { intros s1 <-. destruct s as [|c1 r']; [reflexivity|].
    destruct (N.eqb c1 45); [cbn; lia|].
    destruct (N.eqb c1 43); cbn; lia. }
  destruct (match s with
            | c1 :: r' =>
                if N.eqb c1 45 then (true, r')
                else if N.eqb c1 43 then (false, r') else (false, s)
            | [] => (false, s)
            end) as [sgn r1] eqn:E.
  specialize (Hsign (sgn, r1) eq_refl). cbn [snd] in Hsign.
  pose proof (scan_digits_length r1) as Hd.
  destruct (scan_digits r1) as [[|d ed] r2]; [discriminate|].
  intros [= _ ->]. cbn [fst snd length] in Hd. lia.
Qed.

Lemma scan_decimal_length (s : jsstring) :
  let '(ip, pt, fp, r) := scan_decimal s in
  length s ≥ length ip + length r.
Proof.
  unfold scan_decimal. pose proof (scan_digits_length s) as H1.
  destruct (scan_digits s) as [ip s2]. cbn [fst snd] in H1.
  destruct s2 as [|c r]; [lia|].
  destruct (N.eqb c 46); [|lia].
  pose proof (scan_digits_length r) as H2.
  destruct (scan_digits r) as [fp s3]. cbn [fst snd length] in *. lia.
Qed.

Lemma json_number_length (s r : jsstring) (n : number) :
  json_number s = Some (n, r) → length r < length s.
Proof.
  unfold json_number.
  assert (Hs1 : length (snd (strip_minus s)) ≤ length s).
  { destruct s as [|c s]; [reflexivity|]. cbn [strip_minus].
    destruct (N.eqb c 45); cbn; lia. }
  destruct (strip_minus s) as [neg s1]. cbn [snd] in Hs1.
  pose proof (scan_decimal_length s1) as Hd.
  destruct (scan_decimal s1) as [[[ip pt] fp] s3].
  destruct ip as [|d ip]; [discriminate|]. cbn [is_nil orb length] in *.
  destruct (leading_zero (d :: ip) || pt && is_nil fp); [discriminate|].
  destruct s3 as [|c s3']; [intros [= _ <-]; cbn [length]; lia|].
  destruct (is_e c).
  - destruct (scan_exponent (c :: s3')) as [[ex s4]|] eqn:E; [|discriminate].
    intros [= _ <-]. apply scan_exponent_length in E. lia.
  - intros [= _ <-]. lia.
Qed.

Lemma parse_literal_length (s r : jsstring) (v : value) :
  parse_literal s = Some (v, r) → length r < length s.
Proof.
  unfold parse_literal.
  destruct (starts_with (lit "true") s) eqn:E1;
    [intros [= _ <-]; apply starts_with_length in E1; cbn in E1; lia|].
  destruct (starts_with (lit "false") s) eqn:E2;
    [intros [= _ <-]; apply starts_with_length in E2; cbn in E2; lia|].
  destruct (starts_with (lit "null") s) eqn:E3; [|discriminate].
  intros [= _ <-]. apply starts_with_length in E3. cbn in E3. lia.
Qed.

Lemma scan_separator_length (close : N) (s r : jsstring) (sep : separator) :
  scan_separator close s = Some (sep, r) → length r < length s.
Proof.
  unfold scan_separator. pose proof (skip_ws_length s) as Hws.
  destruct (skip_ws s) as [|c t]; [discriminate|]. cbn [length] in Hws.
  destruct (N.eqb c 44); [intros [= _ <-]; lia|].
  destruct (N.eqb c close); [intros [= _ <-]; lia|discriminate].
Qed.

Lemma parser_fuel (fuel : nat) :
  enough_for parse_value fuel
  ∧ enough_for parse_elements fuel
  ∧ enough_for parse_members fuel.
Proof.
  induction fuel as [|f (IHv & IHe & IHm)];
    [split; [|split]; intros s res r H; discriminate|].
  split; [|split]; intros s res r H.
  - (* a value *)
    cbn [parse_value] in H. pose proof (skip_ws_length s) as Hws.
    destruct (skip_ws s) as [|c r0] eqn:Ews; [discriminate|].
    cbn [length] in Hws.
    destruct (N.eqb c 123) eqn:Eobj.
    { pose proof (skip_ws_length r0) as Hws0.
      destruct (starts_with [125%N] (skip_ws r0)) as [r'|] eqn:Eempty.
      - injection H as <- <-. apply starts_with_length in Eempty as Hlen.
        cbn [length] in Hlen. split; [lia|].
        intros [|f'] Hf; [lia|]. cbn [parse_value].
        now rewrite Ews, Eobj, Eempty.
      - destruct (parse_members f r0) as [[ms r']|] eqn:Ems; [|discriminate].
        injection H as <- <-. destruct (IHm _ _ _ Ems) as [Hlen Hmore].
        split; [lia|]. intros [|f'] Hf; [lia|]. cbn [parse_value].
        rewrite Ews, Eobj, Eempty, Hmore by lia. reflexivity. }
    destruct (N.eqb c 91) eqn:Earr.
    { pose proof (skip_ws_length r0) as Hws0.
      destruct (starts_with [93%N] (skip_ws r0)) as [r'|] eqn:Eempty.
      - injection H as <- <-. apply starts_with_length in Eempty as Hlen.
        cbn [length] in Hlen. split; [lia|].
        intros [|f'] Hf; [lia|]. cbn [parse_value].
        now rewrite Ews, Eobj, Earr, Eempty.
      - destruct (parse_elements f r0) as [[vs r']|] eqn:Evs; [|discriminate].
        injection H as <- <-. destruct (IHe _ _ _ Evs) as [Hlen Hmore].
        split; [lia|]. intros [|f'] Hf; [lia|]. cbn [parse_value].
        rewrite Ews, Eobj, Earr, Eempty, Hmore by lia. reflexivity. }
    destruct (N.eqb c 34) eqn:Estr.
    { destruct (parse_chars r0) as [[t r']|] eqn:Et; [|discriminate].
      injection H as <- <-.
      pose proof (parse_chars_length _ _ _ _ (le_n _) Et) as Hlen.
      split; [lia|]. intros [|f'] Hf; [lia|]. cbn [parse_value].
      now rewrite Ews, Eobj, Earr, Estr, Et. }
    destruct (parse_literal (c :: r0)) as [[v r']|] eqn:Elit.
    { injection H as <- <-. apply parse_literal_length in Elit as Hlen.
      cbn [length] in Hlen. split; [lia|].
      intros [|f'] Hf; [lia|]. cbn [parse_value].
      now rewrite Ews, Eobj, Earr, Estr, Elit. }
    destruct (json_number (c :: r0)) as [[n r']|] eqn:Enum; [|discriminate].
    injection H as <- <-. apply json_number_length in Enum as Hlen.
    cbn [length] in Hlen. split; [lia|].
    intros [|f'] Hf; [lia|]. cbn [parse_value].
    now rewrite Ews, Eobj, Earr, Estr, Elit, Enum.
  - (* the elements of an array *)
    cbn [parse_elements] in H.
    destruct (parse_value f s) as [[v r1]|] eqn:Ev; [|discriminate].
    destruct (IHv _ _ _ Ev) as [Hlen1 Hmore1].
    destruct (scan_separator 93 r1) as [[[|] r2]|] eqn:Esep; [| |discriminate].
    + destruct (parse_elements f r2) as [[vs r3]|] eqn:Evs; [|discriminate].
      injection H as <- <-. destruct (IHe _ _ _ Evs) as [Hlen2 Hmore2].
      apply scan_separator_length in Esep as Hlen3.
      split; [lia|]. intros [|f'] Hf; [lia|]. cbn [parse_elements].
      rewrite Hmore1, Esep, Hmore2 by lia. reflexivity.
    + injection H as <- <-. apply scan_separator_length in Esep as Hlen3.
      split; [lia|]. intros [|f'] Hf; [lia|]. cbn [parse_elements].
      rewrite Hmore1, Esep by lia. reflexivity.
  - (* the members of an object *)
    cbn [parse_members] in H. pose proof (skip_ws_length s) as Hws.
    destruct (starts_with [34%N] (skip_ws s)) as [r0|] eqn:Eq; [|discriminate].
    apply starts_with_length in Eq as Hlen0. cbn [length] in Hlen0.
    destruct (parse_chars r0) as [[k r1]|] eqn:Ek; [|discriminate].
    pose proof (parse_chars_length _ _ _ _ (le_n _) Ek) as Hlen1.
    pose proof (skip_ws_length r1) as Hws1.
    destruct (starts_with [58%N] (skip_ws r1)) as [r2|] eqn:Ec; [|discriminate].
    apply starts_with_length in Ec as Hlen2. cbn [length] in Hlen2.
    destruct (parse_value f r2) as [[v r3]|] eqn:Ev; [|discriminate].
    destruct (IHv _ _ _ Ev) as [Hlen3 Hmore3].
    destruct (scan_separator 125 r3) as [[[|] r4]|] eqn:Esep; [| |discriminate].
    + destruct (parse_members f r4) as [[ms r5]|] eqn:Ems; [|discriminate].
      injection H as <- <-. destruct (IHm _ _ _ Ems) as [Hlen4 Hmore4].
      apply scan_separator_length in Esep as Hlen5.
      split; [lia|]. intros [|f'] Hf; [lia|]. cbn [parse_members].
      rewrite Eq, Ek, Ec, Hmore3, Esep, Hmore4 by lia. reflexivity.
    + injection H as <- <-. apply scan_separator_length in Esep as Hlen5.
      split; [lia|]. intros [|f'] Hf; [lia|]. cbn [parse_members].
      rewrite Eq, Ek, Ec, Hmore3, Esep by lia. reflexivity.
Qed.

(** Whatever the parser finds with some fuel, it finds with the fuel
    [JSON.parse] gives it: a text [JSON_parse] rejects is not JSON. *)
Theorem JSON_parse_complete (s : jsstring) (fuel : nat) (v : value)
    (r : jsstring) :
  parse_value fuel s = Some (v, r) →
  skip_ws r = [] →
  JSON_parse s = Some v.
Proof.
  intros Hparse Hend. destruct (parser_fuel fuel) as [Hv _].
  destruct (Hv s v r Hparse) as [Hlen Hmore].
  unfold JSON_parse. rewrite (Hmore (S (length s))) by lia.
  now rewrite Hend.
Qed.

(** ** Running statements *)

Ltac run_js :=
  cbv [bind ret throw try_catch gets modify on_host set_data set_editMode
       update_document localStorage_getItem localStorage_setItem
       console_error JSON_parse_js after settle].

Lemma saveData_run (w : World) : saveData w = Ok () (saved_world w).
Proof.
  unfold saveData, saved_world, saved_storage, save_log. run_js.
  destruct (fits _ _ _); cbn [host data editMode localStorage console document].
  - now rewrite app_nil_r.
  - reflexivity.
Qed.

Lemma default_roundtrip :
  JSON_parse (JSON_stringify (state_value defaultData))
  = Some (state_value defaultData).
Proof. vm_compute. reflexivity. Qed.

Lemma getData_falsy (h : Host) :
  falsy (entries (localStorage h) !! storage_key) = true →
  getData h = Ok (state_value defaultData) h.
Proof.
  intros Hf. unfold getData. run_js.
  destruct (entries (localStorage h) !! storage_key) as [blob|].
  - cbn in Hf. destruct (truthy blob); [discriminate|].
    now rewrite default_roundtrip.
  - now rewrite default_roundtrip.
Qed.

Lemma getData_corrupt (h : Host) (blob : jsstring) :
  entries (localStorage h) !! storage_key = Some blob →
  JSON_parse blob = None →
  getData h =
  Ok (state_value defaultData)
     {| localStorage := localStorage h;
        console := console h ++
                   (if truthy blob
                    then [(lit "Failed to parse stored data:", SyntaxError)]
                    else []);
        document := document h |}.
Proof.
  intros Hs Hp. unfold getData. run_js. rewrite Hs.
  destruct (truthy blob).
  - rewrite Hp. now rewrite default_roundtrip.
  - rewrite default_roundtrip, app_nil_r. now destruct h.
Qed.

Lemma getData_parsed (h : Host) (blob : jsstring) (v : value) :
  entries (localStorage h) !! storage_key = Some blob →
  JSON_parse blob = Some v →
  getData h = Ok v h.
Proof.
  intros Hs Hp. unfold getData. run_js. rewrite Hs.
  destruct blob as [|c blob]; [discriminate Hp|].
  cbn [truthy]. now rewrite Hp.
Qed.

(** ** The state as a tree *)

Lemma tasks_safe (ts : list Task) :
  forallb json_safe (map task_value ts) = true.
Proof. induction ts as [|t ts IH]; [reflexivity|]. cbn [map forallb]. rewrite IH. reflexivity. Qed.

Lemma categories_safe (cs : list Category) :
  forallb json_safe (map category_value cs) = true.
Proof.
  induction cs as [|c cs IH]; [reflexivity|]. cbn [map forallb]. rewrite IH.
  unfold category_value. cbn [json_safe map fst snd forallb].
  rewrite tasks_safe. reflexivity.
Qed.

Lemma state_value_safe (d : AppState) :
  normal (overlay d) = true → json_safe (state_value d) = true.
Proof.
  intros Hn. unfold state_value. cbn [json_safe map fst snd forallb].
  rewrite Hn, categories_safe. reflexivity.
Qed.

Lemma as_task_value (t : Task) : as_task (task_value t) = Some t.
Proof. now destruct t. Qed.

Lemma as_tasks_values (ts : list Task) : mapM as_task (map task_value ts) = Some ts.
Proof.
  induction ts as [|t ts IH]; [reflexivity|].
  cbn [map mapM]. rewrite as_task_value. cbn. rewrite IH. reflexivity.
Qed.

Lemma as_category_value (c : Category) : as_category (category_value c) = Some c.
Proof.
  destruct c as [ti ts]. unfold category_value, as_category.
  cbn [title tasks].
  change (get_member (lit "title") _) with (Some (Str ti)).
  change (get_member (lit "tasks") _) with (Some (Arr (map task_value ts))).
  cbv iota beta. now rewrite as_tasks_values.
Qed.

Lemma as_categories_values (cs : list Category) :
  mapM as_category (map category_value cs) = Some cs.
Proof.
  induction cs as [|c cs IH]; [reflexivity|].
  cbn [map mapM]. rewrite as_category_value. cbn. rewrite IH. reflexivity.
Qed.

Lemma as_state_value (d : AppState) : as_state (state_value d) = Some d.
Proof.
  destruct d as [n t b o cs]. unfold state_value, as_state.
  cbn [names tagline background overlay sections].
  change (get_member (lit "names") _) with (Some (Str n)).
  change (get_member (lit "tagline") _) with (Some (Str t)).
  change (get_member (lit "background") _) with (Some (Str b)).
  change (get_member (lit "overlay") _) with (Some (Num o)).
  change (get_member (lit "sections") _)
    with (Some (Arr (map category_value cs))).
  cbv iota beta. now rewrite as_categories_values.
Qed.

Lemma state_roundtrip (d : AppState) :
  normal (overlay d) = true →
  JSON_parse (JSON_stringify (state_value d)) = Some (state_value d).
Proof. intros Hn. apply JSON_roundtrip. now apply state_value_safe. Qed.

(** ** Loading *)

(** C2. Default and corrupt-storage fallback: when nothing is stored
    under the key, or what is stored is not valid JSON ([JSON_parse]
    rejects it, which no amount of fuel would change), [getData] returns
    normally, and what it returns is the built-in default: two categories
    titled "Travel Adventures" and "Personal Goals", four tasks each, none
    completed, overlay 0.6. *)
Theorem load_default_fallback (h : Host) :
  (entries (localStorage h) !! storage_key = None
   ∨ ∃ blob, entries (localStorage h) !! storage_key = Some blob
             ∧ JSON_parse blob = None) →
  ∃ h', getData h = Ok (state_value defaultData) h'
    ∧ as_state (state_value defaultData) = Some defaultData
    ∧ map title (sections defaultData)
      = [lit "Travel Adventures"; lit "Personal Goals"]
    ∧ Forall (λ c, length (tasks c) = 4%nat
                   ∧ Forall (λ t, completed t = false) (tasks c))
        (sections defaultData)
    ∧ overlay defaultData = Finite false [d6] 0.
Proof.
  intros Hstored.
  assert (Hshape :
    as_state (state_value defaultData) = Some defaultData
    ∧ map title (sections defaultData)
      = [lit "Travel Adventures"; lit "Personal Goals"]
    ∧ Forall (λ c, length (tasks c) = 4%nat
                   ∧ Forall (λ t, completed t = false) (tasks c))
        (sections defaultData)
    ∧ overlay defaultData = Finite false [d6] 0).
  { split; [vm_compute; reflexivity|].
    split; [reflexivity|]. split; [|reflexivity].
    repeat constructor. }
  destruct Hstored as [Habsent | (blob & Hblob & Hbad)].
  - exists h. split; [|exact Hshape].
    apply getData_falsy. now rewrite Habsent.
  - eexists. split; [|exact Hshape].
    exact (getData_corrupt h blob Hblob Hbad).
Qed.

Lemma load_default_fallback_witness :
  let h := host_with (lit "{oops") 5000 in
  (entries (localStorage h) !! storage_key = None
   ∨ ∃ blob, entries (localStorage h) !! storage_key = Some blob
             ∧ JSON_parse blob = None)
  ∧ ∃ h', getData h = Ok (state_value defaultData) h'
    ∧ as_state (state_value defaultData) = Some defaultData
    ∧ map title (sections defaultData)
      = [lit "Travel Adventures"; lit "Personal Goals"]
    ∧ Forall (λ c, length (tasks c) = 4%nat
                   ∧ Forall (λ t, completed t = false) (tasks c))
        (sections defaultData)
    ∧ overlay defaultData = Finite false [d6] 0.
Proof.
  assert (H : entries (localStorage (host_with (lit "{oops") 5000))
              !! storage_key = None
            ∨ ∃ blob, entries (localStorage (host_with (lit "{oops") 5000))
                      !! storage_key = Some blob ∧ JSON_parse blob = None).
  { right. exists (lit "{oops"). split; vm_compute; reflexivity. }
  split; [exact H|].
  exact (load_default_fallback (host_with (lit "{oops") 5000) H).
Defined.

(** ** Saving *)

(** C9. A failed write is logged and swallowed: when the store refuses the
    serialized state, [saveData] returns normally, the only change to the
    world is one entry in the console, and in particular the state in
    memory and the contents of storage are what they were (one attempt,
    nothing written). *)
Theorem save_failure_swallowed (w : World) :
  fits (localStorage (host w)) storage_key
       (JSON_stringify (state_value (data w))) = false →
  saveData w =
  Ok () {| data := data w; editMode := editMode w;
           host := {| localStorage := localStorage (host w);
                      console := console (host w) ++
                        [(lit "Failed to save data:", QuotaExceededError)];
                      document := document (host w) |} |}.
Proof.
  intros Hfull. rewrite saveData_run.
  unfold saved_world, saved_storage, save_log. now rewrite Hfull.
Qed.

Lemma save_failure_swallowed_witness :
  let w := world_of defaultData (fresh_host 10) in
  fits (localStorage (host w)) storage_key
       (JSON_stringify (state_value (data w))) = false
  ∧ saveData w =
    Ok () {| data := data w; editMode := editMode w;
             host := {| localStorage := localStorage (host w);
                        console := console (host w) ++
                          [(lit "Failed to save data:", QuotaExceededError)];
                        document := document (host w) |} |}.
Proof.
  assert (H : fits (localStorage (host (world_of defaultData (fresh_host 10))))
                storage_key
                (JSON_stringify
                   (state_value (data (world_of defaultData (fresh_host 10)))))
              = false) by (vm_compute; reflexivity).
  split; [exact H|].
  exact (save_failure_swallowed (world_of defaultData (fresh_host 10)) H).
Defined.

(** C1, as amended.  Round trip: for a valid AppState, when the store
    accepts the write, saving and then loading returns the same state:
    [getData] returns, without logging anything, the very tree that was
    serialized, and the script would start from the state that was saved. *)
Theorem save_load_roundtrip (w : World) :
  valid_state (data w) →
  fits (localStorage (host w)) storage_key
       (JSON_stringify (state_value (data w))) = true →
  ∃ w', saveData w = Ok () w'
    ∧ data w' = data w
    ∧ getData (host w') = Ok (state_value (data w)) (host w')
    ∧ as_state (state_value (data w)) = Some (data w)
    ∧ boot (host w')
      = Some {| data := data w; editMode := false; host := host w' |}.
Proof.
  intros [Hnormal _] Hfits. exists (saved_world w).
  assert (Hload : getData (host (saved_world w))
                  = Ok (state_value (data w)) (host (saved_world w))).
  { apply (getData_parsed _ (JSON_stringify (state_value (data w)))).
    - unfold saved_world, saved_storage. cbn [host localStorage].
      rewrite Hfits. cbn [entries]. apply lookup_insert_eq.
    - now apply state_roundtrip. }
  split; [apply saveData_run|]. split; [reflexivity|].
  split; [exact Hload|]. split; [apply as_state_value|].
  unfold boot. now rewrite Hload, as_state_value.
Qed.

Lemma save_load_roundtrip_witness :
  let w := world_of (with_names (lit "Ann & Bob") defaultData)
             (fresh_host 5000) in
  valid_state (data w)
  ∧ fits (localStorage (host w)) storage_key
         (JSON_stringify (state_value (data w))) = true
  ∧ ∃ w', saveData w = Ok () w'
      ∧ data w' = data w
      ∧ getData (host w') = Ok (state_value (data w)) (host w')
      ∧ as_state (state_value (data w)) = Some (data w)
      ∧ boot (host w')
        = Some {| data := data w; editMode := false; host := host w' |}.
Proof.
  set (w := world_of (with_names (lit "Ann & Bob") defaultData)
              (fresh_host 5000)).
  assert (Hvalid : valid_state (data w)) by (split; reflexivity).
  assert (Hfits : fits (localStorage (host w)) storage_key
                    (JSON_stringify (state_value (data w))) = true)
    by (vm_compute; reflexivity).
  cbv zeta. split; [exact Hvalid|]. split; [exact Hfits|].
  exact (save_load_roundtrip w Hvalid Hfits).
Defined.

(** C1 as stated fails when the store refuses the write (quota): the
    failure is swallowed, storage still holds what it held, and loading
    gives the default state, not the state that was saved. *)
Lemma save_load_loses_state_when_store_full :
  let S := with_names (lit "Ann & Bob") defaultData in
  let w := world_of S (fresh_host 10) in
  valid_state S
  ∧ ∃ w', saveData w = Ok () w'
      ∧ getData (host w') = Ok (state_value defaultData) (host w')
      ∧ state_value defaultData ≠ state_value S
      ∧ boot (host w')
        = Some {| data := defaultData; editMode := false; host := host w' |}
      ∧ defaultData ≠ S.
Proof.
  cbv zeta. split; [split; reflexivity|].
  eexists. split; [apply saveData_run|].
  split; [vm_compute; reflexivity|].
  split; [vm_compute; discriminate|].
  split; [vm_compute; reflexivity|].
  vm_compute; discriminate.
Qed.

(** ** Rendering *)

Lemma render_run (w : World) :
  after render w
  = with_document
      (rendered_page (data w) (editMode w) (document (host w))) w.
Proof.
  destruct w as [d mode [st log doc]].
  unfold render, createCategorySection, rendered_page, render_chrome,
    main_element, with_document. run_js.
  cbv [set_document host data editMode document localStorage console].
  destruct (sections d !! 0%nat), (sections d !! 1%nat); reflexivity.
Qed.

(** [render] returns when both categories are there, and throws when
    one is missing; the page is then left without the two pages. *)
Lemma render_outcome (w : World) :
  render w
  = match sections (data w) !! 0, sections (data w) !! 1 with
    | Some _, Some _ => Ok ()
    | _, _ => Throw TypeError
    end (with_document
           (rendered_page (data w) (editMode w) (document (host w))) w).
Proof.
  destruct w as [d mode [st log doc]].
  unfold render, createCategorySection, rendered_page, render_chrome,
    main_element, with_document. run_js.
  cbv [set_document host data editMode document localStorage console].
  destruct (sections d !! 0%nat), (sections d !! 1%nat); reflexivity.
Qed.

Lemma render_returns (w : World) :
  2 ≤ length (sections (data w)) → render w = Ok () (after render w).
Proof.
  intros Hlen. unfold after. rewrite render_outcome.
  destruct (sections (data w)) as [|s0 [|s1 l]]; cbn [length] in Hlen;
    [lia|lia|reflexivity].
Qed.

(** ** What each handler leaves behind *)

Lemma namesInput_onchange_run (w : World) (v : jsstring) :
  after (namesInput_onchange v) w
  = saved_world (with_data (with_names (or_empty v) (data w)) w).
Proof.
  unfold namesInput_onchange, after. run_js. now rewrite saveData_run.
Qed.

Lemma taglineInput_onchange_run (w : World) (v : jsstring) :
  after (taglineInput_onchange v) w
  = saved_world (with_data (with_tagline (or_empty v) (data w)) w).
Proof.
  unfold taglineInput_onchange, after. run_js. now rewrite saveData_run.
Qed.

Lemma titleInput_onchange_run (w : World) (idx : nat) (v : jsstring) :
  after (titleInput_onchange idx v) w
  = match sections (data w) !! idx with
    | None => w
    | Some section =>
        saved_world
          (with_data
             (with_sections
                (<[idx := with_title (or_empty v) section]> (sections (data w)))
                (data w)) w)
    end.
Proof.
  unfold titleInput_onchange, after. run_js.
  destruct (sections (data w) !! idx); [|reflexivity].
  now rewrite saveData_run.
Qed.

Lemma reader_onload_run (w : World) (r : jsstring) :
  after (reader_onload r) w
  = after render (saved_world (with_data (with_background r (data w)) w)).
Proof.
  unfold reader_onload, after. run_js. now rewrite saveData_run.
Qed.

Lemma toggleBtn_onclick_run (w : World) :
  after toggleBtn_onclick w
  = after render
      {| data := data w; editMode := negb (editMode w); host := host w |}.
Proof. reflexivity. Qed.

Lemma rangeInput_oninput_run (w : World) (v : jsstring) :
  after (rangeInput_oninput v) w
  = saved_world
      (with_document
         (restyle_overlay (overlay_color (parseFloat v)) (document (host w)))
         (with_data (with_overlay (parseFloat v) (data w)) w)).
Proof.
  unfold rangeInput_oninput, after. run_js. now rewrite saveData_run.
Qed.

Lemma checkbox_onchange_run (w : World) (idx i : nat) (b : bool) :
  after (checkbox_onchange idx i b) w
  = after render
      (saved_world
         (with_data
            (with_sections
               (alter (λ section,
                         with_tasks (alter (with_completed b) i (tasks section))
                           section) idx (sections (data w)))
               (data w)) w)).
Proof.
  unfold checkbox_onchange, after. run_js. now rewrite saveData_run.
Qed.

Lemma delBtn_onclick_run (w : World) (idx i : nat) :
  after (delBtn_onclick idx i) w
  = match sections (data w) !! idx with
    | None => w
    | Some section =>
        after render
          (saved_world
             (with_data
                (with_sections
                   (<[idx := with_tasks (delete i (tasks section)) section]>
                      (sections (data w)))
                   (data w)) w))
    end.
Proof.
  unfold delBtn_onclick, after. run_js.
  destruct (sections (data w) !! idx); [|reflexivity].
  now rewrite saveData_run.
Qed.

Lemma addBtn_onclick_run (w : World) (idx : nat) (v : jsstring) :
  after (addBtn_onclick idx v) w
  = if truthy (trim v) then
      match sections (data w) !! idx with
      | None => w
      | Some section =>
          after render
            (saved_world
               (with_data
                  (with_sections
                     (<[idx := with_tasks (tasks section ++ [new_task (trim v)])
                                 section]> (sections (data w)))
                     (data w)) w))
      end
    else w.
Proof.
  unfold addBtn_onclick, after.
  destruct (truthy (trim v)); [|reflexivity]. run_js.
  destruct (sections (data w) !! idx); [|reflexivity].
  now rewrite saveData_run.
Qed.

Lemma addBtn_onclick_outcome (w : World) (idx : nat) (v : jsstring) :
  addBtn_onclick idx v w
  = if truthy (trim v) then
      match sections (data w) !! idx with
      | None => Throw TypeError w
      | Some section =>
          render
            (saved_world
               (with_data
                  (with_sections
                     (<[idx := with_tasks (tasks section ++ [new_task (trim v)])
                                 section]> (sections (data w)))
                     (data w)) w))
      end
    else Ok () w.
Proof.
  unfold addBtn_onclick.
  destruct (truthy (trim v)); [|reflexivity]. run_js.
  destruct (sections (data w) !! idx); [|now destruct w].
  now rewrite saveData_run.
Qed.

Lemma click_checkbox_run (w : World) (idx i : nat) :
  after (click_checkbox idx i) w
  = match shown_checked (document (host w)) idx i with
    | Some b => after (checkbox_onchange idx i (negb b)) w
    | None => w
    end.
Proof.
  unfold click_checkbox, after. run_js.
  now destruct (shown_checked (document (host w)) idx i).
Qed.

(** [render] touches the page, and nothing else. *)
Lemma render_data (w : World) : data (after render w) = data w.
Proof. now rewrite render_run. Qed.

Lemma render_editMode (w : World) : editMode (after render w) = editMode w.
Proof. now rewrite render_run. Qed.

Lemma render_storage (w : World) :
  localStorage (host (after render w)) = localStorage (host w).
Proof. now rewrite render_run. Qed.

Lemma render_console (w : World) :
  console (host (after render w)) = console (host w).
Proof. now rewrite render_run. Qed.

Lemma saved_world_persists (w0 w : World) :
  localStorage (host w) = localStorage (host w0) →
  persists w0 (saved_world w).
Proof.
  intros Hst. unfold persists, stored, saved_world, saved_storage.
  cbn [host data localStorage]. rewrite Hst. split; [reflexivity|].
  intros Hfits. rewrite Hfits. cbn [entries]. apply lookup_insert_eq.
Qed.

Lemma rendered_persists (w0 w : World) :
  localStorage (host w) = localStorage (host w0) →
  persists w0 (after render (saved_world w)).
Proof.
  intros Hst. destruct (saved_world_persists w0 w Hst) as [H1 H2].
  unfold persists, stored. rewrite render_storage, render_data.
  split; [exact H1|exact H2].
Qed.

(** ** Tasks *)

(** C3. Adding a task: with an input whose trim is not empty, the task
    list of the category gains exactly one entry, the trimmed text, not
    completed, at the end; the tasks before it, the other categories and
    the other fields stay as they were, and the new state is persisted;
    with both categories on the page the handler returns normally.  With
    an input that is blank or white space only the handler returns
    normally, without an error, and nothing changes at all: neither the
    state, nor storage, nor the console, nor the page. *)
Theorem add_task (w : World) (idx : nat) (value : jsstring)
    (section : Category) :
  sections (data w) !! idx = Some section →
  let w' := after (addBtn_onclick idx value) w in
  (trim value ≠ [] →
     sections (data w') !! idx
     = Some {| title := title section;
               tasks := tasks section
                        ++ [{| text := trim value; completed := false |}] |}
     ∧ (∀ k, k ≠ idx → sections (data w') !! k = sections (data w) !! k)
     ∧ length (sections (data w')) = length (sections (data w))
     ∧ names (data w') = names (data w)
     ∧ tagline (data w') = tagline (data w)
     ∧ background (data w') = background (data w)
     ∧ overlay (data w') = overlay (data w)
     ∧ persists w w'
     ∧ (2 ≤ length (sections (data w)) →
        addBtn_onclick idx value w = Ok () w'))
  ∧ (trim value = [] → addBtn_onclick idx value w = Ok () w ∧ w' = w).
Proof.
  intros Hsec w'.
  assert (Hout := addBtn_onclick_outcome w idx value).
  subst w'. rewrite addBtn_onclick_run, Hsec. rewrite Hsec in Hout.
  split.
  - intros Hne. destruct (trim value) as [|c t] eqn:Ht; [done|].
    cbn [truthy] in Hout |- *.
    rewrite render_data. cbn [saved_world with_data data].
    cbn [with_sections sections names tagline background overlay].
    split.
    { apply list_lookup_insert_eq. eapply lookup_lt_Some, Hsec. }
    split.
    { intros k Hk. now apply list_lookup_insert_ne. }
    split; [apply length_insert|].
    repeat (split; [reflexivity|]).
    split; [now apply rendered_persists|].
    intros Hlen. rewrite Hout. apply render_returns.
    cbn [saved_world with_data data with_sections sections].
    now rewrite length_insert.
  - intros Ht. rewrite Ht in Hout |- *. cbn [truthy] in Hout |- *.
    split; [exact Hout|reflexivity].
Qed.

Lemma add_task_witness :
  let w := after render (world_of defaultData (fresh_host 5000)) in
  let value := lit "  Swim with dolphins " in
  sections (data w) !! 0 = Some {| title := lit "Travel Adventures";
                                   tasks := [
    new_task (lit "Visit Paris, France");
    new_task (lit "Road trip across Iceland");
    new_task (lit "See the Northern Lights together");
    new_task (lit "Tokyo cherry blossoms") ] |}
  ∧ trim value = lit "Swim with dolphins"
  ∧ sections (data (after (addBtn_onclick 0 value) w)) !! 0
    = Some {| title := lit "Travel Adventures";
              tasks := [
    new_task (lit "Visit Paris, France");
    new_task (lit "Road trip across Iceland");
    new_task (lit "See the Northern Lights together");
    new_task (lit "Tokyo cherry blossoms");
    new_task (lit "Swim with dolphins") ] |}
  ∧ persists w (after (addBtn_onclick 0 value) w)
  ∧ addBtn_onclick 0 value w = Ok () (after (addBtn_onclick 0 value) w)
  ∧ addBtn_onclick 0 (lit "   ") w = Ok () w
  ∧ after (addBtn_onclick 0 (lit "   ")) w = w.
Proof.
  set (w := after render (world_of defaultData (fresh_host 5000))).
  set (value := lit "  Swim with dolphins ").
  assert (Hsec : sections (data w) !! 0 = Some {|
    title := lit "Travel Adventures";
    tasks := [
      new_task (lit "Visit Paris, France");
      new_task (lit "Road trip across Iceland");
      new_task (lit "See the Northern Lights together");
      new_task (lit "Tokyo cherry blossoms") ] |}) by reflexivity.
  assert (Htrim : trim value = lit "Swim with dolphins") by reflexivity.
  assert (Hne : trim value ≠ []) by (rewrite Htrim; discriminate).
  assert (Hblank : trim (lit "   ") = []) by reflexivity.
  assert (Hlen : 2 ≤ length (sections (data w))) by (cbn; lia).
  cbv zeta.
  split; [exact Hsec|]. split; [exact Htrim|].
  destruct (add_task w 0 value _ Hsec) as [Hadd _].
  destruct (add_task w 0 (lit "   ") _ Hsec) as [_ Hnoop].
  destruct (Hadd Hne) as (H1 & _ & _ & _ & _ & _ & _ & H2 & H3).
  destruct (Hnoop Hblank) as [H4 H5].
  split; [exact H1|]. split; [exact H2|]. split; [exact (H3 Hlen)|].
  split; [exact H4|exact H5].
Defined.

(** C4. Deleting the task at a valid position [i] removes exactly that
    task: the list is the old one without its element [i], the tasks
    before [i] keep their position, the tasks after it move down by one,
    and the new list is persisted. *)
Theorem delete_task (w : World) (idx i : nat) (section : Category) :
  sections (data w) !! idx = Some section →
  i < length (tasks section) →
  let w' := after (delBtn_onclick idx i) w in
  ∃ section',
    sections (data w') !! idx = Some section'
    ∧ title section' = title section
    ∧ tasks section' = take i (tasks section) ++ drop (S i) (tasks section)
    ∧ S (length (tasks section')) = length (tasks section)
    ∧ (∀ j, j < i → tasks section' !! j = tasks section !! j)
    ∧ (∀ j, i ≤ j → tasks section' !! j = tasks section !! S j)
    ∧ (∀ k, k ≠ idx → sections (data w') !! k = sections (data w) !! k)
    ∧ persists w w'.
Proof.
  intros Hsec Hi w'. subst w'. rewrite delBtn_onclick_run, Hsec.
  exists (with_tasks (delete i (tasks section)) section).
  rewrite render_data. cbn [saved_world with_data data with_sections sections].
  split.
  { apply list_lookup_insert_eq. eapply lookup_lt_Some, Hsec. }
  split; [reflexivity|]. cbn [with_tasks tasks].
  split; [apply delete_take_drop|].
  split; [rewrite length_delete by (apply lookup_lt_is_Some; lia); lia|].
  split; [intros j Hj; now apply list_lookup_delete_lt|].
  split; [intros j Hj; now apply list_lookup_delete_ge|].
  split; [intros k Hk; now apply list_lookup_insert_ne|].
  now apply rendered_persists.
Qed.

Lemma delete_task_witness :
  let w := after toggleBtn_onclick
             (after render (world_of defaultData (fresh_host 5000))) in
  let section := {| title := lit "Personal Goals";
                    tasks := [
    new_task (lit "Learn Spanish together");
    new_task (lit "Cook 50 new recipes");
    new_task (lit "Run a 5K together");
    new_task (lit "Read 12 books together") ] |} in
  sections (data w) !! 1 = Some section
  ∧ 1 < length (tasks section)
  ∧ ∃ section',
      sections (data (after (delBtn_onclick 1 1) w)) !! 1 = Some section'
      ∧ tasks section' = [
          new_task (lit "Learn Spanish together");
          new_task (lit "Run a 5K together");
          new_task (lit "Read 12 books together") ].
Proof.
  set (w := after toggleBtn_onclick
              (after render (world_of defaultData (fresh_host 5000)))).
  set (section := {| title := lit "Personal Goals";
                     tasks := [
    new_task (lit "Learn Spanish together");
    new_task (lit "Cook 50 new recipes");
    new_task (lit "Run a 5K together");
    new_task (lit "Read 12 books together") ] |}).
  assert (Hsec : sections (data w) !! 1 = Some section) by reflexivity.
  assert (Hi : 1 < length (tasks section)) by (cbn; lia).
  cbv zeta. split; [exact Hsec|]. split; [exact Hi|].
  destruct (delete_task w 1 1 section Hsec Hi)
    as (section' & H1 & _ & H2 & _).
  exists section'. split; [exact H1|]. rewrite H2. reflexivity.
Defined.

(** ** Hero block *)

(** C6, as amended.  The names and tagline editors write back the input
    as it is: no white space is removed.  An empty input is stored as the
    empty string, whatever the previous value was; nothing else in the
    state changes, and the state is persisted. *)
Theorem hero_commit_raw (w : World) (value : jsstring) :
  (let w' := after (namesInput_onchange value) w in
   names (data w') = value
   ∧ tagline (data w') = tagline (data w)
   ∧ background (data w') = background (data w)
   ∧ overlay (data w') = overlay (data w)
   ∧ sections (data w') = sections (data w)
   ∧ persists w w')
  ∧ (let w' := after (taglineInput_onchange value) w in
     tagline (data w') = value
     ∧ names (data w') = names (data w)
     ∧ background (data w') = background (data w)
     ∧ overlay (data w') = overlay (data w)
     ∧ sections (data w') = sections (data w)
     ∧ persists w w').
Proof.
  assert (Hor : or_empty value = value) by now destruct value.
  split; cbv zeta.
  - rewrite namesInput_onchange_run.
    cbn [saved_world with_data data with_names names tagline background
         overlay sections].
    rewrite Hor. repeat (split; [reflexivity|]).
    now apply saved_world_persists.
  - rewrite taglineInput_onchange_run.
    cbn [saved_world with_data data with_tagline names tagline background
         overlay sections].
    rewrite Hor. repeat (split; [reflexivity|]).
    now apply saved_world_persists.
Qed.

(** C6 as stated fails: an input with surrounding white space is stored
    with it, by the names editor and by the tagline editor alike. *)
Lemma hero_commit_not_trimmed :
  let w := world_of defaultData (fresh_host 5000) in
  let value := lit "  Ann & Bob " in
  trim value = lit "Ann & Bob"
  ∧ names (data (after (namesInput_onchange value) w)) = value
  ∧ names (data (after (namesInput_onchange value) w)) ≠ trim value
  ∧ tagline (data (after (taglineInput_onchange value) w)) = value
  ∧ tagline (data (after (taglineInput_onchange value) w)) ≠ trim value.
Proof.
  cbv zeta. split; [vm_compute; reflexivity|].
  split; [vm_compute; reflexivity|].
  split; [vm_compute; discriminate|].
  split; [vm_compute; reflexivity|].
  vm_compute; discriminate.
Qed.

(** ** Counting and removing overlays *)

Lemma count_class_children (c : string) (e : element) :
  count_class c e
  = (if has_class c e then 1 else 0) + count_forest c (childNodes e).
Proof.
  destruct e as [tag cl pr st li kids]. cbn [count_class childNodes].
  f_equal. induction kids as [|x kids IH]; [reflexivity|].
  cbn [count_forest]. now rewrite IH.
Qed.

Lemma remove_inside_children (c : string) (e : element) :
  remove_inside c e
  = match remove_first c (childNodes e) with
    | Some kids =>
        Some {| tagName := tagName e; classList := classList e;
                props := props e; style := style e; listener := listener e;
                childNodes := kids |}
    | None => None
    end.
Proof.
  destruct e as [tag cl pr st li kids]. cbn [remove_inside childNodes].
  match goal with
  | |- match ?a with _ => _ end = match ?b with _ => _ end =>
      assert (Hab : a = b); [|now rewrite Hab]
  end.
  induction kids as [|x kids IH]; [reflexivity|].
  cbn [remove_first]. now rewrite IH.
Qed.

Lemma count_forest_app (c : string) (l1 l2 : list element) :
  count_forest c (l1 ++ l2) = count_forest c l1 + count_forest c l2.
Proof.
  induction l1 as [|x l1 IH]; [reflexivity|].
  cbn [app count_forest]. rewrite IH. lia.
Qed.

(** Removing the first element of a class takes away at least that
    element; there is nothing to remove exactly when none has the class. *)
Lemma remove_first_count (c : string) (l : list element) :
  match remove_first c l with
  | Some l' => count_forest c l' < count_forest c l
  | None => count_forest c l = 0
  end.
Proof.
  assert (Helem : ∀ e,
    match remove_first c (childNodes e) with
    | Some l' => count_forest c l' < count_forest c (childNodes e)
    | None => count_forest c (childNodes e) = 0
    end).
  { induction e as [tag cl pr st li kids IH] using element_ind.
    cbn [childNodes]. induction IH as [|x kids Hx _ IHkids];
      [reflexivity|].
    cbn [remove_first count_forest].
    rewrite (count_class_children c x), (remove_inside_children c x).
    destruct (has_class c x) eqn:Hc; [lia|].
    destruct (remove_first c (childNodes x)) as [kx|] eqn:Ex.
    - cbn [count_forest]. rewrite count_class_children.
      unfold has_class in *. cbn [classList childNodes]. rewrite Hc. lia.
    - destruct (remove_first c kids) as [kids'|] eqn:Ek.
      + cbn [count_forest]. rewrite count_class_children, Hc. lia.
      + lia. }
  exact (Helem (El "" [] [] [] None l)).
Qed.

(** Nothing [render] puts into the mount is an overlay. *)
Lemma count_fold_appendChild (c : string) (items : list element) (e : element) :
  count_class c (fold_left (λ l item, appendChild item l) items e)
  = count_class c e + count_forest c items.
Proof.
  revert e. induction items as [|x items IH]; intros e; cbn [fold_left count_forest].
  - lia.
  - rewrite IH, (count_class_children c (appendChild x e)),
      (count_class_children c e).
    unfold has_class. cbn [appendChild childNodes classList].
    rewrite count_forest_app. cbn [count_forest]. lia.
Qed.

Lemma count_quest_item (mode : bool) (idx i : nat) (t : Task) :
  count_class "overlay" (quest_item mode idx i t) = 0.
Proof. destruct mode, t as [tx []]; reflexivity. Qed.

Lemma count_imap_zero (f : nat → Task → element) (ts : list Task) :
  (∀ i t, count_class "overlay" (f i t) = 0) →
  count_forest "overlay" (imap f ts) = 0.
Proof.
  revert f. induction ts as [|t ts IH]; intros f Hf; [reflexivity|].
  cbn [imap count_forest]. rewrite Hf, IH; [reflexivity|].
  intros i t'. apply Hf.
Qed.

Lemma count_category_element (mode : bool) (idx : nat) (s : Category) :
  count_class "overlay" (category_element mode idx s) = 0.
Proof.
  assert (Hlist :
    count_class "overlay"
      (fold_left (λ l item, appendChild item l)
         (imap (quest_item mode idx) (tasks s))
         (set_className "quest-list" (createElement "div"))) = 0).
  { rewrite count_fold_appendChild, count_imap_zero; [reflexivity|].
    intros i t. apply count_quest_item. }
  unfold category_element.
  destruct mode; rewrite !count_class_children;
    cbn [appendChild childNodes set_style set_prop set_className
         set_listener createElement classList has_class existsb app];
    rewrite ?count_forest_app; cbn [count_forest];
    rewrite Hlist; reflexivity.
Qed.

Lemma count_hero_element (d : AppState) (mode : bool) :
  count_class "overlay" (hero_element d mode) = 0.
Proof. destruct mode; reflexivity. Qed.

Lemma count_main_element (d : AppState) (mode : bool) (s0 s1 : Category) :
  count_class "overlay" (main_element d mode s0 s1) = 0.
Proof.
  unfold main_element. rewrite !count_class_children.
  cbn [appendChild childNodes createElement classList has_class existsb app
       count_forest].
  rewrite !count_class_children.
  cbn [appendChild childNodes createElement classList has_class existsb app
       count_forest].
  now rewrite count_hero_element, !count_category_element.
Qed.

Lemma count_toggleBtn (mode : bool) : count_class "overlay" (toggleBtn mode) = 0.
Proof. now destruct mode. Qed.

(** ** The page after render, field by field *)

Lemma remove_existing_overlay_style (k : string) (v : jsstring)
    (doc : Document) :
  remove_existing_overlay (set_body_style k v doc)
  = set_body_style k v (remove_existing_overlay doc).
Proof.
  unfold remove_existing_overlay, set_body_style.
  cbn [body_before app_children body_after body_style].
  destruct (remove_first "overlay" (body_before doc)); [reflexivity|].
  destruct (remove_first "overlay" (app_children doc)); [reflexivity|].
  destruct (remove_first "overlay" (body_after doc)); reflexivity.
Qed.

Lemma removed_mount_empty (doc : Document) :
  app_children (remove_existing_overlay (app_clear doc)) = [].
Proof.
  unfold remove_existing_overlay, app_clear.
  cbn [body_before app_children body_after body_style remove_first].
  destruct (remove_first "overlay" (body_before doc)); [reflexivity|].
  destruct (remove_first "overlay" (body_after doc)); reflexivity.
Qed.

Lemma rendered_page_fields (d : AppState) (mode : bool) (doc : Document) :
  rendered_page d mode doc
  = {| body_style := body_style_after_render d (body_style doc);
       body_before :=
         overlay_element d
         :: body_before (remove_existing_overlay (app_clear doc));
       app_children := mount_after_render d mode;
       body_after := body_after (remove_existing_overlay (app_clear doc)) |}.
Proof.
  unfold rendered_page, render_chrome, mount_after_render,
    body_style_after_render.
  rewrite !remove_existing_overlay_style.
  pose proof (removed_mount_empty doc) as Hmount.
  destruct (remove_existing_overlay (app_clear doc)) as [st b a af] eqn:Hr.
  cbn [app_children] in Hmount. subst a.
  assert (Hst : st = body_style doc).
  { change st with (body_style {| body_style := st; body_before := b;
                                  app_children := []; body_after := af |}).
    rewrite <- Hr. unfold remove_existing_overlay, app_clear.
    cbn [body_before app_children body_after body_style remove_first].
    destruct (remove_first "overlay" (body_before doc)); [reflexivity|].
    destruct (remove_first "overlay" (body_after doc)); reflexivity. }
  subst st.
  destruct (sections d !! 0), (sections d !! 1); reflexivity.
Qed.

Lemma assoc_get_set_eq {V} (k : string) (v : V) (l : list (string * V)) :
  assoc_get k (assoc_set k v l) = Some v.
Proof.
  induction l as [|[k' v'] l IH]; cbn [assoc_set assoc_get].
  - now rewrite String.eqb_refl.
  - destruct (String.eqb k' k) eqn:E; cbn [assoc_get]; now rewrite E.
Qed.

Lemma assoc_get_set_ne {V} (k k0 : string) (v : V) (l : list (string * V)) :
  String.eqb k0 k = false →
  assoc_get k (assoc_set k0 v l) = assoc_get k l.
Proof.
  intros Hne. induction l as [|[k' v'] l IH]; cbn [assoc_set assoc_get].
  - now rewrite Hne.
  - destruct (String.eqb k' k0) eqn:E; cbn [assoc_get].
    + apply String.eqb_eq in E. subst k'. now rewrite Hne.
    + destruct (String.eqb k' k); [reflexivity|exact IH].
Qed.

Lemma assoc_set_same {V} (k : string) (v : V) (l : list (string * V)) :
  assoc_get k l = Some v → assoc_set k v l = l.
Proof.
  induction l as [|[k' v'] l IH]; cbn [assoc_set assoc_get]; [discriminate|].
  destruct (String.eqb k' k); [now intros [= ->]|].
  intros H. now rewrite IH.
Qed.

Lemma body_style_after_render_twice (d : AppState)
    (l : list (string * jsstring)) :
  body_style_after_render d (body_style_after_render d l)
  = body_style_after_render d l.
Proof.
  unfold body_style_after_render.
  set (v := lit "url(" ++ background d ++ lit ")").
  set (l1 := assoc_set "backgroundImage" v l).
  set (l2 := assoc_set "backgroundSize" (lit "cover") l1).
  set (l3 := assoc_set "backgroundPosition" (lit "center") l2).
  set (l4 := assoc_set "backgroundAttachment" (lit "fixed") l3).
  assert (H1 : assoc_get "backgroundImage" l4 = Some v).
  { subst l4 l3 l2 l1. rewrite !assoc_get_set_ne by reflexivity.
    apply assoc_get_set_eq. }
  assert (H2 : assoc_get "backgroundSize" l4 = Some (lit "cover")).
  { subst l4 l3 l2. rewrite !assoc_get_set_ne by reflexivity.
    apply assoc_get_set_eq. }
  assert (H3 : assoc_get "backgroundPosition" l4 = Some (lit "center")).
  { subst l4 l3. rewrite !assoc_get_set_ne by reflexivity.
    apply assoc_get_set_eq. }
  assert (H4 : assoc_get "backgroundAttachment" l4 = Some (lit "fixed")).
  { subst l4. apply assoc_get_set_eq. }
  now rewrite (assoc_set_same _ _ _ H1), (assoc_set_same _ _ _ H2),
    (assoc_set_same _ _ _ H3), (assoc_set_same _ _ _ H4).
Qed.

Lemma rendered_page_twice (d : AppState) (mode : bool) (doc : Document) :
  rendered_page d mode (rendered_page d mode doc) = rendered_page d mode doc.
Proof.
  rewrite (rendered_page_fields d mode (rendered_page d mode doc)).
  rewrite (rendered_page_fields d mode doc).
  cbn [body_style]. rewrite body_style_after_render_twice.
  unfold remove_existing_overlay at 1 3, app_clear at 1 3.
  cbn [body_before app_children body_after body_style remove_first].
  change (has_class "overlay" (overlay_element d)) with true.
  reflexivity.
Qed.

Lemma render_twice (w : World) :
  after render (after render w) = after render w.
Proof.
  rewrite !render_run. unfold with_document.
  cbn [data editMode host document set_document localStorage console].
  now rewrite rendered_page_twice.
Qed.

(** ** At most one overlay *)

Lemma removal_count (doc : Document) :
  count_forest "overlay"
    (body_before (remove_existing_overlay (app_clear doc)))
  + count_forest "overlay"
      (body_after (remove_existing_overlay (app_clear doc)))
  ≤ count_forest "overlay" (body_before doc)
    + count_forest "overlay" (body_after doc) - 1.
Proof.
  unfold remove_existing_overlay, app_clear.
  cbn [body_before app_children body_after body_style remove_first].
  pose proof (remove_first_count "overlay" (body_before doc)) as Hb.
  pose proof (remove_first_count "overlay" (body_after doc)) as Ha.
  destruct (remove_first "overlay" (body_before doc)) as [b|];
    cbn [body_before body_after]; [lia|].
  destruct (remove_first "overlay" (body_after doc)) as [a|];
    cbn [body_before body_after]; lia.
Qed.

Lemma count_mount_after_render (d : AppState) (mode : bool) :
  count_forest "overlay" (mount_after_render d mode) = 0.
Proof.
  unfold mount_after_render.
  destruct (sections d !! 0), (sections d !! 1); cbn [count_forest];
    rewrite ?count_toggleBtn, ?count_main_element; reflexivity.
Qed.

Lemma rendered_overlay_count (d : AppState) (mode : bool) (doc : Document) :
  1 ≤ overlay_count (rendered_page d mode doc)
  ∧ overlay_count (rendered_page d mode doc)
    ≤ Nat.max 1 (overlay_count doc).
Proof.
  rewrite rendered_page_fields. unfold overlay_count.
  cbn [body_before app_children body_after count_forest].
  rewrite count_mount_after_render.
  change (count_class "overlay" (overlay_element d)) with 1.
  pose proof (removal_count doc) as Hrem. revert Hrem.
  generalize (count_forest "overlay"
                (body_before (remove_existing_overlay (app_clear doc)))),
    (count_forest "overlay"
       (body_after (remove_existing_overlay (app_clear doc)))),
    (count_forest "overlay" (body_before doc)),
    (count_forest "overlay" (app_children doc)),
    (count_forest "overlay" (body_after doc)).
  intros B Af bf ap af Hrem. pose proof (Nat.max_spec 1 (bf + ap + af)). lia.
Qed.

Lemma restyled_overlay_count (color : jsstring) (doc : Document) :
  overlay_count (restyle_overlay color doc) = overlay_count doc.
Proof.
  unfold restyle_overlay.
  destruct (body_before doc) as [|o r] eqn:Hb; [reflexivity|].
  destruct (has_class "overlay" o) eqn:Hc; [|reflexivity].
  unfold overlay_count. cbn [body_before app_children body_after].
  rewrite Hb. cbn [count_forest].
  now rewrite (count_class_children _ (set_style _ _ o)),
    (count_class_children _ o).
Qed.

Lemma step_overlay_count (w : World) (e : event) :
  overlay_count (document (host w)) ≤ 1 →
  overlay_count (document (host (step w e))) ≤ 1.
Proof.
  intros Hw.
  assert (Hrender : ∀ w1, document (host w1) = document (host w) →
            overlay_count (document (host (after render w1))) ≤ 1).
  { intros w1 Hdoc. rewrite render_run.
    cbn [with_document host document set_document].
    destruct (rendered_overlay_count (data w1) (editMode w1)
                (document (host w1))) as [_ H].
    rewrite Hdoc in *.
    pose proof (Nat.max_spec 1 (overlay_count (document (host w)))). lia. }
  unfold step. destruct e as [| |v|v|r|v|idx v|idx i b|idx i|idx v];
    cbn [handle].
  - now apply Hrender.
  - rewrite toggleBtn_onclick_run. now apply Hrender.
  - now rewrite namesInput_onchange_run.
  - now rewrite taglineInput_onchange_run.
  - rewrite reader_onload_run. now apply Hrender.
  - rewrite rangeInput_oninput_run.
    cbn [saved_world with_document host document set_document].
    now rewrite restyled_overlay_count.
  - rewrite titleInput_onchange_run.
    now destruct (sections (data w) !! idx).
  - rewrite checkbox_onchange_run. now apply Hrender.
  - rewrite delBtn_onclick_run.
    destruct (sections (data w) !! idx); [now apply Hrender|exact Hw].
  - rewrite addBtn_onclick_run. destruct (truthy (trim v)); [|exact Hw].
    destruct (sections (data w) !! idx); [now apply Hrender|exact Hw].
Qed.

Lemma run_overlay_count (es : list event) (w : World) :
  overlay_count (document (host w)) ≤ 1 →
  overlay_count (document (host (run es w))) ≤ 1.
Proof.
  revert w. induction es as [|e es IH]; intros w Hw; [exact Hw|].
  cbn [run fold_left]. apply IH. now apply step_overlay_count.
Qed.

(** C8. Rendering twice in a row, with state and mode unchanged, leaves
    exactly the page the first render left.  A render leaves at least one
    overlay and never more than there were (or one): on a page with at
    most one overlay it leaves exactly one, and so it is after any
    sequence of events on a page that started with at most one. *)
Theorem render_idempotent (w : World) :
  after render (after render w) = after render w
  ∧ 1 ≤ overlay_count (document (host (after render w)))
  ∧ overlay_count (document (host (after render w)))
    ≤ Nat.max 1 (overlay_count (document (host w)))
  ∧ (overlay_count (document (host w)) ≤ 1 →
     ∀ es,
       overlay_count (document (host (run es w))) ≤ 1
       ∧ overlay_count (document (host (after render (run es w)))) = 1).
Proof.
  split; [apply render_twice|].
  assert (Hcount : ∀ w1,
    1 ≤ overlay_count (document (host (after render w1)))
    ∧ overlay_count (document (host (after render w1)))
      ≤ Nat.max 1 (overlay_count (document (host w1)))).
  { intros w1. rewrite render_run.
    cbn [with_document host document set_document].
    apply rendered_overlay_count. }
  destruct (Hcount w) as [H1 H2].
  split; [exact H1|]. split; [exact H2|].
  intros Hw es. pose proof (run_overlay_count es w Hw) as Hrun.
  split; [exact Hrun|].
  destruct (Hcount (run es w)) as [H3 H4].
  pose proof (Nat.max_spec 1 (overlay_count (document (host (run es w))))).
  lia.
Qed.

Lemma render_idempotent_witness :
  let w := world_of defaultData (fresh_host 5000) in
  let es := [DOMContentLoaded; ToggleClick;
             AddClick 0 (lit "Swim with dolphins"); RangeInput (lit "0.35");
             CheckboxChange 1 0 true; ToggleClick] in
  overlay_count (document (host w)) ≤ 1
  ∧ after render (after render (run es w)) = after render (run es w)
  ∧ overlay_count (document (host (run es w))) ≤ 1
  ∧ overlay_count (document (host (after render (run es w)))) = 1.
Proof.
  set (w := world_of defaultData (fresh_host 5000)).
  assert (Hw : overlay_count (document (host w)) ≤ 1) by (cbn; lia).
  cbv zeta. split; [exact Hw|].
  destruct (render_idempotent w) as (_ & _ & _ & Hrun).
  split; [apply (render_idempotent (run _ w))|].
  exact (Hrun Hw _).
Defined.

(** ** Overlay slider *)

Lemma rendered_body_before (d : AppState) (mode : bool) (doc : Document) :
  body_before (rendered_page d mode doc)
  = overlay_element d
    :: body_before
         (remove_existing_overlay
            (set_body_style "backgroundAttachment" (lit "fixed")
               (set_body_style "backgroundPosition" (lit "center")
                  (set_body_style "backgroundSize" (lit "cover")
                     (set_body_style "backgroundImage"
                        (lit "url(" ++ background d ++ lit ")")
                        (app_clear doc)))))).
Proof.
  unfold rendered_page.
  destruct (sections d !! 0), (sections d !! 1); reflexivity.
Qed.

Lemma rendered_live_overlay (w : World) : live_overlay (after render w).
Proof.
  rewrite render_run. eexists _, _.
  cbn [with_document host document set_document].
  apply rendered_body_before.
Qed.

Lemma step_live_overlay (w : World) (e : event) :
  live_overlay w → live_overlay (step w e).
Proof.
  intros Hw. unfold step.
  destruct e as [| |v|v|r|v|idx v|idx i b|idx i|idx v]; cbn [handle].
  - apply rendered_live_overlay.
  - rewrite toggleBtn_onclick_run. apply rendered_live_overlay.
  - now rewrite namesInput_onchange_run.
  - now rewrite taglineInput_onchange_run.
  - rewrite reader_onload_run. apply rendered_live_overlay.
  - rewrite rangeInput_oninput_run. destruct Hw as (d & rest & Hlive).
    exists (with_overlay (parseFloat v) d), rest.
    cbn [saved_world with_document host document set_document].
    unfold restyle_overlay. now rewrite Hlive.
  - rewrite titleInput_onchange_run.
    now destruct (sections (data w) !! idx).
  - rewrite checkbox_onchange_run. apply rendered_live_overlay.
  - rewrite delBtn_onclick_run.
    destruct (sections (data w) !! idx);
      [apply rendered_live_overlay|exact Hw].
  - rewrite addBtn_onclick_run. destruct (truthy (trim v)); [|exact Hw].
    destruct (sections (data w) !! idx);
      [apply rendered_live_overlay|exact Hw].
Qed.

Lemma run_live_overlay (es : list event) (w : World) :
  live_overlay w → live_overlay (run es w).
Proof.
  revert w. induction es as [|e es IH]; intros w Hw; [exact Hw|].
  cbn [run fold_left]. apply IH. now apply step_live_overlay.
Qed.

(** C7. The overlay slider: for a value [v] of [0, 0.9], delivered as the
    text the control holds for it, the handler stores exactly [v] in
    [data.overlay] (which is thus within [0, 0.9]) and persists; it does
    not render: the mount, the body style and the rest of the body are
    untouched, and the only change to the page is the colour of the live
    overlay.  Once the app has rendered, whatever events it has handled
    since, the first child of the body is the overlay, a [div] of class
    [overlay] whose only style is the background colour
    [rgba(0, 0, 0, v)], with [v] as the text of the number: the very
    element a render of the new state would insert. *)
Theorem overlay_slider (w : World) (v : number) :
  normal v = true →
  in_overlay_range v = true →
  let w' := after (rangeInput_oninput (Number_toString v)) w in
  overlay (data w') = v
  ∧ in_overlay_range (overlay (data w')) = true
  ∧ names (data w') = names (data w)
  ∧ tagline (data w') = tagline (data w)
  ∧ background (data w') = background (data w)
  ∧ sections (data w') = sections (data w)
  ∧ editMode w' = editMode w
  ∧ persists w w'
  ∧ document (host w')
    = restyle_overlay (overlay_color v) (document (host w))
  ∧ app_children (document (host w')) = app_children (document (host w))
  ∧ body_style (document (host w')) = body_style (document (host w))
  ∧ body_after (document (host w')) = body_after (document (host w))
  ∧ (∀ w0 es, w = run es (after render w0) →
     body_before (document (host w'))
     = overlay_element (data w') :: drop 1 (body_before (document (host w)))
     ∧ ∃ o,
         head (body_before (document (host w'))) = Some o
         ∧ tagName o = "div"%string
         ∧ classList o = ["overlay"%string]
         ∧ style o
           = [("backgroundColor"%string,
               lit "rgba(0, 0, 0, " ++ Number_toString v ++ lit ")")]).
Proof.
  intros Hnormal Hrange w'. subst w'.
  rewrite rangeInput_oninput_run, (parseFloat_toString v Hnormal).
  cbn [saved_world with_document with_data data editMode host document
       set_document with_overlay overlay names tagline background sections].
  split; [reflexivity|]. split; [exact Hrange|].
  repeat (split; [reflexivity|]).
  split.
  { apply (saved_world_persists w
             (with_document _ (with_data (with_overlay v (data w)) w))).
    reflexivity. }
  split; [reflexivity|].
  assert (Hsame : ∀ doc,
            app_children (restyle_overlay (overlay_color v) doc)
            = app_children doc
            ∧ body_style (restyle_overlay (overlay_color v) doc)
              = body_style doc
            ∧ body_after (restyle_overlay (overlay_color v) doc)
              = body_after doc).
  { intros doc. unfold restyle_overlay.
    destruct (body_before doc) as [|o r]; [done|].
    now destruct (has_class "overlay" o). }
  destruct (Hsame (document (host w))) as (H1 & H2 & H3).
  split; [exact H1|]. split; [exact H2|]. split; [exact H3|].
  intros w0 es ->.
  destruct (run_live_overlay es (after render w0) (rendered_live_overlay w0))
    as (d & rest & Hlive).
  unfold restyle_overlay. rewrite Hlive.
  split; [reflexivity|].
  eexists. split; [reflexivity|].
  split; [reflexivity|]. split; reflexivity.
Qed.

Lemma overlay_slider_witness :
  let w := after toggleBtn_onclick
             (after render (world_of defaultData (fresh_host 5000))) in
  let v := Finite false [d3; d5] 0 in
  normal v = true
  ∧ in_overlay_range v = true
  ∧ Number_toString v = lit "0.35"
  ∧ overlay (data (after (rangeInput_oninput (lit "0.35")) w)) = v
  ∧ stored (after (rangeInput_oninput (lit "0.35")) w)
    = Some (JSON_stringify (state_value (with_overlay v defaultData)))
  ∧ ∃ o,
      head (body_before
              (document (host (after (rangeInput_oninput (lit "0.35")) w))))
      = Some o
      ∧ classList o = ["overlay"%string]
      ∧ style o = [("backgroundColor"%string, lit "rgba(0, 0, 0, 0.35)")].
Proof.
  set (w := after toggleBtn_onclick
              (after render (world_of defaultData (fresh_host 5000)))).
  set (v := Finite false [d3; d5] 0).
  assert (Hn : normal v = true) by reflexivity.
  assert (Hr : in_overlay_range v = true) by reflexivity.
  assert (Ht : Number_toString v = lit "0.35") by reflexivity.
  cbv zeta. split; [exact Hn|]. split; [exact Hr|]. split; [exact Ht|].
  destruct (overlay_slider w v Hn Hr)
    as (H1 & _ & _ & _ & _ & _ & _ & H2 & _ & _ & _ & _ & H3).
  rewrite Ht in H1, H2, H3. split; [exact H1|].
  split.
  { destruct H2 as [_ H2].
    assert (Hd : data (after (rangeInput_oninput (lit "0.35")) w)
                 = with_overlay v defaultData) by (vm_compute; reflexivity).
    rewrite Hd in H2. apply H2. vm_compute. reflexivity. }
  destruct (H3 (world_of defaultData (fresh_host 5000)) [ToggleClick]
              eq_refl) as (_ & o & Ho & _ & Hc & Hs).
  exists o. split; [exact Ho|]. split; [exact Hc|exact Hs].
Defined.

(** ** Checkboxes *)

Lemma find_listener_children (h : handler) (e : element) :
  find_listener h e
  = if listens h e then Some e else find_in_forest h (childNodes e).
Proof.
  destruct e as [tag cl pr st li kids]. cbn [find_listener childNodes].
  destruct (listens h _); [reflexivity|].
  induction kids as [|x kids IH]; [reflexivity|].
  cbn [find_in_forest]. now rewrite IH.
Qed.

Lemma find_in_forest_app (h : handler) (l1 l2 : list element) :
  find_in_forest h (l1 ++ l2)
  = match find_in_forest h l1 with
    | Some y => Some y
    | None => find_in_forest h l2
    end.
Proof.
  induction l1 as [|x l1 IH]; [reflexivity|].
  cbn [app find_in_forest]. now destruct (find_listener h x).
Qed.

Lemma fold_appendChild (items : list element) (e : element) :
  fold_left (λ l item, appendChild item l) items e
  = {| tagName := tagName e; classList := classList e; props := props e;
       style := style e; listener := listener e;
       childNodes := childNodes e ++ items |}.
Proof.
  revert e. induction items as [|x items IH]; intros e; cbn [fold_left].
  - rewrite app_nil_r. now destruct e.
  - rewrite IH. cbn [appendChild tagName classList props style listener
                     childNodes].
    now rewrite <- app_assoc.
Qed.

Lemma find_in_quest_item (mode : bool) (idx i idx' j : nat) (t : Task) :
  find_listener (checkbox_change idx i) (quest_item mode idx' j t)
  = if Nat.eqb idx idx' && Nat.eqb i j then Some (checkbox_of idx' j t)
    else None.
Proof.
  unfold quest_item.
  destruct mode, (completed t) eqn:Hc;
    rewrite !find_listener_children;
    cbn [listens listener appendChild set_className classList_add set_prop
         set_listener createElement childNodes app find_in_forest];
    rewrite !find_listener_children;
    cbn [listens listener appendChild set_className classList_add set_prop
         set_listener createElement childNodes app find_in_forest
         handler_eqb];
    rewrite !find_listener_children;
    cbn [listens listener appendChild set_className classList_add set_prop
         set_listener createElement childNodes app find_in_forest
         handler_eqb];
    unfold checkbox_of; rewrite Hc;
    destruct (Nat.eqb idx idx' && Nat.eqb i j); reflexivity.
Qed.

Lemma find_in_quest_items (mode : bool) (idx i idx' k : nat) (ts : list Task) :
  find_in_forest (checkbox_change idx i)
    (imap (λ j, quest_item mode idx' (k + j)) ts)
  = if Nat.eqb idx idx' && Nat.leb k i
    then checkbox_of idx' i <$> ts !! (i - k)
    else None.
Proof.
  revert k. induction ts as [|t ts IH]; intros k.
  - cbn [imap find_in_forest]. now destruct (_ && _).
  - cbn [imap find_in_forest]. rewrite find_in_quest_item.
    replace (k + 0) with k by lia.
    assert (Hext : imap ((λ j, quest_item mode idx' (k + j)) ∘ S) ts
                   = imap (λ j, quest_item mode idx' (S k + j)) ts).
    { apply imap_ext. intros j x _. cbn. f_equal. lia. }
    rewrite Hext, IH.
    destruct (Nat.eqb idx idx'); cbn [andb]; [|reflexivity].
    destruct (Nat.eqb_spec i k) as [->|Hne].
    + rewrite Nat.leb_refl, Nat.sub_diag. reflexivity.
    + destruct (Nat.leb_spec k i) as [Hle|Hgt].
      * assert (Hlt : S k ≤ i) by lia. apply Nat.leb_le in Hlt.
        rewrite Hlt. replace (i - k) with (S (i - S k)) by lia.
        reflexivity.
      * assert (Hn : Nat.leb (S k) i = false) by (apply Nat.leb_gt; lia).
        now rewrite Hn.
Qed.

Lemma find_in_category (mode : bool) (idx i idx' : nat) (s : Category) :
  find_listener (checkbox_change idx i) (category_element mode idx' s)
  = if Nat.eqb idx idx' then checkbox_of idx' i <$> tasks s !! i else None.
Proof.
  pose proof (find_in_quest_items mode idx i idx' 0 (tasks s)) as Hitems.
  cbn [Nat.leb] in Hitems. rewrite andb_true_r, Nat.sub_0_r in Hitems.
  change (λ j : nat, quest_item mode idx' (0 + j))
    with (quest_item mode idx') in Hitems.
  unfold category_element. rewrite fold_appendChild.
  destruct mode;
    rewrite !find_listener_children;
    cbn [listens listener appendChild set_className set_prop set_style
         set_listener createElement childNodes app find_in_forest];
    rewrite !find_listener_children;
    cbn [listens listener appendChild set_className set_prop set_style
         set_listener createElement childNodes app find_in_forest
         handler_eqb];
    rewrite ?find_listener_children;
    cbn [listens listener appendChild set_className set_prop set_style
         set_listener createElement childNodes app find_in_forest
         handler_eqb];
    rewrite Hitems;
    destruct (Nat.eqb idx idx'); [destruct (tasks s !! i)|..];
    try reflexivity.
  all: now destruct (tasks s !! i).
Qed.

Lemma find_in_hero (h : handler) (d : AppState) (mode : bool) (idx i : nat) :
  find_listener (checkbox_change idx i) (hero_element d mode) = None.
Proof. destruct mode; reflexivity. Qed.

(** After a render that built both categories, the checkbox of every task
    of the two categories shows the task's [completed]. *)
Lemma render_shows_completed (w : World) (idx i : nat) (s0 s1 section : Category)
    (task : Task) :
  sections (data w) !! 0 = Some s0 →
  sections (data w) !! 1 = Some s1 →
  idx < 2 →
  sections (data w) !! idx = Some section →
  tasks section !! i = Some task →
  shown_checked (document (host (after render w))) idx i
  = Some (completed task).
Proof.
  intros H0 H1 Hidx Hsec Htask. rewrite render_run.
  cbn [with_document host document set_document].
  rewrite rendered_page_fields. unfold shown_checked, mount_after_render.
  cbn [app_children]. rewrite H0, H1. cbn [find_in_forest].
  assert (Hbtn : find_listener (checkbox_change idx i) (toggleBtn (editMode w))
                 = None) by now destruct (editMode w).
  rewrite Hbtn. unfold main_element.
  rewrite !find_listener_children.
  cbn [listens listener appendChild createElement childNodes app
       find_in_forest].
  rewrite !find_listener_children.
  cbn [listens listener appendChild createElement childNodes app
       find_in_forest].
  rewrite (find_in_hero (checkbox_change idx i)), !find_in_category.
  destruct idx as [|[|idx]]; [| |lia]; cbn [Nat.eqb].
  - rewrite H0 in Hsec. injection Hsec as ->. now rewrite Htask.
  - rewrite H1 in Hsec. injection Hsec as ->. now rewrite Htask.
Qed.

Lemma rendered_in_sync (w : World) :
  2 ≤ length (sections (data w)) → boxes_in_sync (after render w).
Proof.
  intros Hlen idx i section task Hidx Hsec Htask.
  rewrite render_data in Hsec.
  destruct (sections (data w)) as [|s0 [|s1 l]] eqn:Hs;
    cbn [length] in Hlen; [lia|lia|].
  apply (render_shows_completed w idx i s0 s1 section task);
    try assumption; now rewrite Hs.
Qed.

Lemma step_in_sync (w : World) (e : event) :
  2 ≤ length (sections (data w)) →
  boxes_in_sync w →
  2 ≤ length (sections (data (step w e))) ∧ boxes_in_sync (step w e).
Proof.
  intros Hlen Hsync.
  assert (Hrender : ∀ w1, 2 ≤ length (sections (data w1)) →
            2 ≤ length (sections (data (after render w1)))
            ∧ boxes_in_sync (after render w1)).
  { intros w1 H1. split; [now rewrite render_data|].
    now apply rendered_in_sync. }
  unfold step. destruct e as [| |v|v|r|v|idx v|idx i b|idx i|idx v];
    cbn [handle].
  - now apply Hrender.
  - rewrite toggleBtn_onclick_run. now apply Hrender.
  - rewrite namesInput_onchange_run. split; [exact Hlen|exact Hsync].
  - rewrite taglineInput_onchange_run. split; [exact Hlen|exact Hsync].
  - rewrite reader_onload_run. now apply Hrender.
  - rewrite rangeInput_oninput_run. split; [exact Hlen|].
    intros idx i section task Hidx Hsec Htask.
    cbn [saved_world with_document with_data host document set_document data
         with_overlay sections] in *.
    rewrite <- (Hsync idx i section task Hidx Hsec Htask).
    unfold shown_checked, restyle_overlay.
    destruct (body_before (document (host w))) as [|o r]; [reflexivity|].
    now destruct (has_class "overlay" o).
  - rewrite titleInput_onchange_run.
    destruct (sections (data w) !! idx) as [section|] eqn:Hidx;
      [|split; [exact Hlen|exact Hsync]].
    cbn [saved_world with_data data with_sections sections host document].
    split; [now rewrite length_insert|].
    intros idx' i section' task Hidx' Hsec Htask.
    cbn [saved_world with_data data with_sections sections host document]
      in *.
    destruct (decide (idx = idx')) as [<-|Hne].
    + rewrite list_lookup_insert_eq in Hsec
        by (eapply lookup_lt_Some, Hidx).
      injection Hsec as <-. now apply (Hsync idx i section task).
    + rewrite list_lookup_insert_ne in Hsec by exact Hne.
      now apply (Hsync idx' i section' task).
  - rewrite checkbox_onchange_run. apply Hrender.
    cbn [saved_world with_data data with_sections sections].
    now rewrite length_alter.
  - rewrite delBtn_onclick_run.
    destruct (sections (data w) !! idx); [|split; [exact Hlen|exact Hsync]].
    apply Hrender. cbn [saved_world with_data data with_sections sections].
    now rewrite length_insert.
  - rewrite addBtn_onclick_run.
    destruct (truthy (trim v)); [|split; [exact Hlen|exact Hsync]].
    destruct (sections (data w) !! idx); [|split; [exact Hlen|exact Hsync]].
    apply Hrender. cbn [saved_world with_data data with_sections sections].
    now rewrite length_insert.
Qed.

Lemma run_in_sync (es : list event) (w : World) :
  2 ≤ length (sections (data w)) →
  boxes_in_sync w →
  2 ≤ length (sections (data (run es w))) ∧ boxes_in_sync (run es w).
Proof.
  revert w. induction es as [|e es IH]; intros w Hlen Hsync;
    [split; assumption|].
  cbn [run fold_left].
  destruct (step_in_sync w e Hlen Hsync) as [H1 H2]. now apply IH.
Qed.

(** A click on a checkbox that shows the task's [completed] flips exactly
    that field. *)
Lemma click_checkbox_flips (w : World) (idx i : nat) (section : Category)
    (task : Task) :
  sections (data w) !! idx = Some section →
  tasks section !! i = Some task →
  shown_checked (document (host w)) idx i = Some (completed task) →
  let w' := after (click_checkbox idx i) w in
  ∃ section',
    sections (data w') !! idx = Some section'
    ∧ tasks section' !! i
      = Some {| text := text task; completed := negb (completed task) |}
    ∧ (∀ j, j ≠ i → tasks section' !! j = tasks section !! j)
    ∧ length (tasks section') = length (tasks section)
    ∧ title section' = title section
    ∧ (∀ k, k ≠ idx → sections (data w') !! k = sections (data w) !! k)
    ∧ length (sections (data w')) = length (sections (data w))
    ∧ names (data w') = names (data w)
    ∧ tagline (data w') = tagline (data w)
    ∧ background (data w') = background (data w)
    ∧ overlay (data w') = overlay (data w)
    ∧ persists w w'.
Proof.
  intros Hsec Htask Hshown w'. subst w'.
  rewrite click_checkbox_run, Hshown, checkbox_onchange_run, render_data.
  cbn [saved_world with_data data with_sections sections names tagline
       background overlay].
  exists (with_tasks
            (alter (with_completed (negb (completed task))) i (tasks section))
            section).
  split; [now rewrite list_lookup_alter_eq, Hsec|].
  cbn [with_tasks tasks title].
  split; [now rewrite list_lookup_alter_eq, Htask|].
  split; [intros j Hj; now apply list_lookup_alter_ne|].
  split; [apply length_alter|].
  split; [reflexivity|].
  split; [intros k Hk; now apply list_lookup_alter_ne|].
  split; [apply length_alter|].
  repeat (split; [reflexivity|]).
  now apply rendered_persists.
Qed.

(** C5. Toggling the checkbox of a task flips exactly that task's
    [completed] and persists.  The app has been rendered and has handled
    any sequence of events since; the page shows checkboxes when the state
    has its two categories, and then the box of every task shows the
    task's [completed].  After the click the task keeps its text, every
    other task and every category title is as before, and so are names,
    tagline, background and overlay. *)
Theorem toggle_task (w0 : World) (es : list event) (idx i : nat)
    (section : Category) (task : Task) :
  2 ≤ length (sections (data w0)) →
  idx < 2 →
  sections (data (run es (after render w0))) !! idx = Some section →
  tasks section !! i = Some task →
  let w := run es (after render w0) in
  let w' := after (click_checkbox idx i) w in
  shown_checked (document (host w)) idx i = Some (completed task)
  ∧ ∃ section',
      sections (data w') !! idx = Some section'
      ∧ tasks section' !! i
        = Some {| text := text task; completed := negb (completed task) |}
      ∧ (∀ j, j ≠ i → tasks section' !! j = tasks section !! j)
      ∧ length (tasks section') = length (tasks section)
      ∧ title section' = title section
      ∧ (∀ k, k ≠ idx → sections (data w') !! k = sections (data w) !! k)
      ∧ length (sections (data w')) = length (sections (data w))
      ∧ names (data w') = names (data w)
      ∧ tagline (data w') = tagline (data w)
      ∧ background (data w') = background (data w)
      ∧ overlay (data w') = overlay (data w)
      ∧ persists w w'.
Proof.
  intros Hlen Hidx Hsec Htask w w'. subst w w'.
  assert (Hsync : boxes_in_sync (run es (after render w0))).
  { apply run_in_sync; [now rewrite render_data|].
    now apply rendered_in_sync. }
  pose proof (Hsync idx i section task Hidx Hsec Htask) as Hshown.
  split; [exact Hshown|].
  exact (click_checkbox_flips _ idx i section task Hsec Htask Hshown).
Qed.

Lemma toggle_task_witness :
  let w0 := world_of defaultData (fresh_host 5000) in
  let es := [ToggleClick; AddClick 0 (lit "Swim with dolphins")] in
  let task := new_task (lit "See the Northern Lights together") in
  2 ≤ length (sections (data w0))
  ∧ 0 < 2
  ∧ (∃ section,
       sections (data (run es (after render w0))) !! 0 = Some section
       ∧ tasks section !! 2 = Some task)
  ∧ ∃ section',
      sections (data (after (click_checkbox 0 2)
                        (run es (after render w0)))) !! 0 = Some section'
      ∧ tasks section' !! 2
        = Some {| text := lit "See the Northern Lights together";
                  completed := true |}.
Proof.
  set (w0 := world_of defaultData (fresh_host 5000)).
  set (es := [ToggleClick; AddClick 0 (lit "Swim with dolphins")]).
  set (task := new_task (lit "See the Northern Lights together")).
  assert (Hlen : 2 ≤ length (sections (data w0))) by (cbn; lia).
  assert (Hidx : 0 < 2) by lia.
  destruct (sections (data (run es (after render w0))) !! 0)
    as [section|] eqn:Hsec; [|vm_compute in Hsec; discriminate].
  assert (Htask : tasks section !! 2 = Some task).
  { vm_compute in Hsec. injection Hsec as <-. reflexivity. }
  cbv zeta. split; [exact Hlen|]. split; [exact Hidx|].
  split; [exists section; split; [exact Hsec|exact Htask]|].
  destruct (toggle_task w0 es 0 2 section task Hlen Hidx Hsec Htask)
    as (_ & section' & H1 & H2 & _).
  exists section'. split; [exact H1|exact H2].
Defined.

(** ** The default literal is never shared *)

Lemma alloc_Arr (l : list value) (h : heap) :
  alloc (Arr l) h
  = (RRef (length (snd (alloc_elems l h))),
     snd (alloc_elems l h) ++ [ArrayOf (fst (alloc_elems l h))]).
Proof.
  change (alloc (Arr l) h)
    with (let '(rs, h') := alloc_elems l h in
          (RRef (length h'), h' ++ [ArrayOf rs])).
  now destruct (alloc_elems l h).
Qed.

Lemma alloc_Obj (ms : list (jsstring * value)) (h : heap) :
  alloc (Obj ms) h
  = (RRef (length (snd (alloc_members ms h))),
     snd (alloc_members ms h) ++ [ObjectOf (fst (alloc_members ms h))]).
Proof.
  change (alloc (Obj ms) h)
    with (let '(rs, h') := alloc_members ms h in
          (RRef (length h'), h' ++ [ObjectOf rs])).
  now destruct (alloc_members ms h).
Qed.

Lemma alloc_elems_spec (l : list value) :
  Forall (λ v, ∀ h, ∃ fresh, snd (alloc v h) = h ++ fresh
                             ∧ allocated v (fst (alloc v h)) h fresh) l →
  ∀ h, ∃ fresh,
    snd (alloc_elems l h) = h ++ fresh
    ∧ ∀ ext fuel, length fresh ≤ fuel →
        mapM (read fuel (h ++ fresh ++ ext)) (fst (alloc_elems l h)) = Some l
        ∧ ∀ a, a ∈ concat (map (addresses fuel (h ++ fresh ++ ext))
                             (fst (alloc_elems l h))) →
               length h ≤ a ∧ a < length h + length fresh.
Proof.
  induction 1 as [|x r Hx _ IH]; intros h.
  - exists []. split; [now rewrite app_nil_r|].
    intros ext fuel _. split; [reflexivity|].
    intros a Ha. now apply elem_of_nil in Ha.
  - cbn [alloc_elems].
    destruct (Hx h) as (f1 & Hh1 & Hax).
    destruct (alloc x h) as [rx h1]. cbn [fst snd] in Hh1, Hax. subst h1.
    destruct (IH (h ++ f1)) as (f2 & Hh2 & Har).
    destruct (alloc_elems r (h ++ f1)) as [rr h2].
    cbn [fst snd] in Hh2, Har |- *. subst h2.
    exists (f1 ++ f2). split; [now rewrite app_assoc|].
    intros ext fuel Hfuel. rewrite length_app in Hfuel.
    destruct (Hax (f2 ++ ext) fuel ltac:(lia)) as [Hrx Hadx].
    destruct (Har ext fuel ltac:(lia)) as [Hrr Hadr].
    replace (h ++ (f1 ++ f2) ++ ext) with (h ++ f1 ++ f2 ++ ext)
      by now rewrite <- !app_assoc.
    replace ((h ++ f1) ++ f2 ++ ext) with (h ++ f1 ++ f2 ++ ext) in Hrr, Hadr
      by now rewrite <- !app_assoc.
    split.
    + cbn [mapM]. rewrite Hrx. cbn. rewrite Hrr. reflexivity.
    + intros a Ha. cbn [map concat] in Ha. rewrite length_app.
      apply elem_of_app in Ha as [Ha|Ha].
      * apply Hadx in Ha. lia.
      * apply Hadr in Ha. rewrite length_app in Ha. lia.
Qed.

Lemma alloc_members_spec (ms : list (jsstring * value)) :
  Forall (λ kv, ∀ h, ∃ fresh, snd (alloc (snd kv) h) = h ++ fresh
                   ∧ allocated (snd kv) (fst (alloc (snd kv) h)) h fresh) ms →
  ∀ h, ∃ fresh,
    snd (alloc_members ms h) = h ++ fresh
    ∧ ∀ ext fuel, length fresh ≤ fuel →
        mapM (λ kr, match read fuel (h ++ fresh ++ ext) (snd kr) with
                    | Some v => Some (fst kr, v)
                    | None => None
                    end) (fst (alloc_members ms h)) = Some ms
        ∧ ∀ a, a ∈ concat (map (λ kr, addresses fuel (h ++ fresh ++ ext)
                                        (snd kr))
                             (fst (alloc_members ms h))) →
               length h ≤ a ∧ a < length h + length fresh.
Proof.
  induction 1 as [|[k x] r Hx _ IH]; intros h.
  - exists []. split; [now rewrite app_nil_r|].
    intros ext fuel _. split; [reflexivity|].
    intros a Ha. now apply elem_of_nil in Ha.
  - cbn [alloc_members]. cbn [snd] in Hx.
    destruct (Hx h) as (f1 & Hh1 & Hax).
    destruct (alloc x h) as [rx h1]. cbn [fst snd] in Hh1, Hax. subst h1.
    destruct (IH (h ++ f1)) as (f2 & Hh2 & Har).
    destruct (alloc_members r (h ++ f1)) as [rr h2].
    cbn [fst snd] in Hh2, Har |- *. subst h2.
    exists (f1 ++ f2). split; [now rewrite app_assoc|].
    intros ext fuel Hfuel. rewrite length_app in Hfuel.
    destruct (Hax (f2 ++ ext) fuel ltac:(lia)) as [Hrx Hadx].
    destruct (Har ext fuel ltac:(lia)) as [Hrr Hadr].
    replace (h ++ (f1 ++ f2) ++ ext) with (h ++ f1 ++ f2 ++ ext)
      by now rewrite <- !app_assoc.
    replace ((h ++ f1) ++ f2 ++ ext) with (h ++ f1 ++ f2 ++ ext) in Hrr, Hadr
      by now rewrite <- !app_assoc.
    split.
    + cbn [mapM fst snd]. rewrite Hrx. cbn. rewrite Hrr. reflexivity.
    + intros a Ha. cbn [map concat snd] in Ha. rewrite length_app.
      apply elem_of_app in Ha as [Ha|Ha].
      * apply Hadx in Ha. lia.
      * apply Hadr in Ha. rewrite length_app in Ha. lia.
Qed.

(** [alloc] only adds objects, the reference it returns stands for the
    tree, and every object below it is a new one. *)
Lemma alloc_spec (v : value) (h : heap) :
  ∃ fresh, snd (alloc v h) = h ++ fresh
           ∧ allocated v (fst (alloc v h)) h fresh.
Proof.
  revert h. induction v as [|b|n|s|l IH|ms IH] using value_ind; intros h.
  1-4: exists []; (split; [now rewrite app_nil_r|]);
       intros ext fuel _; (split; [now destruct fuel|]);
       intros a Ha; destruct fuel; now apply elem_of_nil in Ha.
  - destruct (alloc_elems_spec l IH h) as (f & Hh & Hspec).
    rewrite alloc_Arr. cbn [fst snd]. rewrite Hh.
    exists (f ++ [ArrayOf (fst (alloc_elems l h))]).
    split; [now rewrite app_assoc|].
    intros ext fuel Hfuel. rewrite length_app in Hfuel. cbn [length] in Hfuel.
    destruct fuel as [|fuel]; [lia|].
    set (A := ArrayOf (fst (alloc_elems l h))) in *.
    replace (h ++ (f ++ [A]) ++ ext) with ((h ++ f) ++ A :: ext)
      by (rewrite <- !app_assoc; reflexivity).
    destruct (Hspec (A :: ext) fuel ltac:(lia)) as [Hr Had].
    replace (h ++ f ++ A :: ext) with ((h ++ f) ++ A :: ext) in Hr, Had
      by now rewrite <- app_assoc.
    cbn [read addresses]. rewrite list_lookup_middle by reflexivity.
    subst A. cbv beta iota. rewrite Hr. split; [reflexivity|].
    intros a Ha. rewrite !length_app. cbn [length].
    apply elem_of_cons in Ha as [->|Ha].
    + rewrite length_app. lia.
    + apply Had in Ha. lia.
  - destruct (alloc_members_spec ms IH h) as (f & Hh & Hspec).
    rewrite alloc_Obj. cbn [fst snd]. rewrite Hh.
    exists (f ++ [ObjectOf (fst (alloc_members ms h))]).
    split; [now rewrite app_assoc|].
    intros ext fuel Hfuel. rewrite length_app in Hfuel. cbn [length] in Hfuel.
    destruct fuel as [|fuel]; [lia|].
    set (A := ObjectOf (fst (alloc_members ms h))) in *.
    replace (h ++ (f ++ [A]) ++ ext) with ((h ++ f) ++ A :: ext)
      by (rewrite <- !app_assoc; reflexivity).
    destruct (Hspec (A :: ext) fuel ltac:(lia)) as [Hr Had].
    replace (h ++ f ++ A :: ext) with ((h ++ f) ++ A :: ext) in Hr, Had
      by now rewrite <- app_assoc.
    cbn [read addresses]. rewrite list_lookup_middle by reflexivity.
    subst A. cbv beta iota. rewrite Hr. split; [reflexivity|].
    intros a Ha. rewrite !length_app. cbn [length].
    apply elem_of_cons in Ha as [->|Ha].
    + rewrite length_app. lia.
    + apply Had in Ha. lia.
Qed.

Lemma alloc_read (v : value) (h : heap) :
  ∃ fresh,
    snd (alloc v h) = h ++ fresh
    ∧ read_tree (h ++ fresh) (fst (alloc v h)) = Some v
    ∧ ∀ l, l ∈ addresses (length (h ++ fresh)) (h ++ fresh) (fst (alloc v h)) →
           length h ≤ l ∧ l < length (h ++ fresh).
Proof.
  destruct (alloc_spec v h) as (fresh & Hh & Hspec).
  exists fresh. split; [exact Hh|].
  destruct (Hspec [] (length (h ++ fresh))) as [Hr Had].
  { rewrite length_app. lia. }
  rewrite app_nil_r in Hr, Had. unfold read_tree.
  split; [exact Hr|]. intros l Hl. apply Had in Hl. rewrite length_app. lia.
Qed.

(** The literal reads as it was written in every heap that keeps its
    objects. *)
Lemma default_literal_framed (rest : heap) :
  read_tree (defaultData_heap ++ rest) defaultData_ref
  = Some (state_value defaultData).
Proof. vm_compute. reflexivity. Qed.

(** The objects of the literal are the first fourteen of the heap. *)
Lemma literal_addresses (rest : heap) :
  addresses (length (defaultData_heap ++ rest)) (defaultData_heap ++ rest)
    defaultData_ref
  = [13; 12; 5; 4; 0; 1; 2; 3; 11; 10; 6; 7; 8; 9].
Proof. vm_compute. reflexivity. Qed.

(** The literal stays readable whatever is written outside its own
    objects. *)
Lemma literal_survives_writes (rest : heap) (l : nat) (o : object) :
  length defaultData_heap ≤ l →
  read_tree (<[l := o]> (defaultData_heap ++ rest)) defaultData_ref
  = Some (state_value defaultData).
Proof.
  intros Hl. rewrite insert_app_r_alt by exact Hl.
  apply default_literal_framed.
Qed.

(** [getData_ref] is [getData] with references: on every host, and in
    every heap that extends the heap of the literal, both return, both
    leave the same host, and the reference the one returns is the
    allocation of the tree the other returns, and reads back as that
    tree. *)
Lemma getData_ref_tree (h : Host) (rest : heap) :
  ∃ v h' fresh,
    getData h = Ok v h'
    ∧ getData_ref (h, defaultData_heap ++ rest)
      = Ok (fst (alloc v (defaultData_heap ++ rest)))
           (h', (defaultData_heap ++ rest) ++ fresh)
    ∧ snd (alloc v (defaultData_heap ++ rest))
      = (defaultData_heap ++ rest) ++ fresh
    ∧ read_tree ((defaultData_heap ++ rest) ++ fresh)
        (fst (alloc v (defaultData_heap ++ rest)))
      = Some v.
Proof.
  assert (Hfallback : ∀ h0,
    (let* text := JSON_stringify_ref defaultData_ref in JSON_parse_ref text)
      (h0, defaultData_heap ++ rest)
    = Ok (fst (alloc (state_value defaultData) (defaultData_heap ++ rest)))
         (h0, snd (alloc (state_value defaultData)
                     (defaultData_heap ++ rest)))).
  { intros h0. cbv [bind JSON_stringify_ref JSON_parse_ref]. cbn [fst snd].
    now rewrite default_literal_framed, default_roundtrip. }
  cbv [bind] in Hfallback.
  unfold getData_ref.
  cbv [bind ret throw try_catch gets modify on_page_host
       localStorage_getItem console_error].
  cbn [fst snd].
  destruct (entries (localStorage h) !! storage_key) as [blob|] eqn:Hs.
  - destruct (truthy blob) eqn:Htruthy.
    + unfold JSON_parse_ref at 1. cbn [fst snd].
      destruct (JSON_parse blob) as [v|] eqn:Hp.
      * destruct (alloc_read v (defaultData_heap ++ rest))
          as (fresh & Hh & Hread & _).
        exists v, h, fresh. rewrite (getData_parsed h blob v Hs Hp), Hh.
        split; [reflexivity|]. split; [reflexivity|].
        split; [reflexivity|exact Hread].
      * destruct (alloc_read (state_value defaultData)
                    (defaultData_heap ++ rest)) as (fresh & Hh & Hread & _).
        eexists (state_value defaultData), _, fresh.
        rewrite (getData_corrupt h blob Hs Hp), Htruthy.
        rewrite Hfallback, Hh.
        split; [reflexivity|]. split; [reflexivity|].
        split; [reflexivity|exact Hread].
    + destruct (alloc_read (state_value defaultData)
                  (defaultData_heap ++ rest)) as (fresh & Hh & Hread & _).
      exists (state_value defaultData), h, fresh.
      rewrite getData_falsy by (rewrite Hs; cbn; now rewrite Htruthy).
      rewrite Hfallback, Hh.
      split; [reflexivity|]. split; [reflexivity|].
      split; [reflexivity|exact Hread].
  - destruct (alloc_read (state_value defaultData)
                (defaultData_heap ++ rest)) as (fresh & Hh & Hread & _).
    exists (state_value defaultData), h, fresh.
    rewrite getData_falsy by now rewrite Hs.
    rewrite Hfallback, Hh.
    split; [reflexivity|]. split; [reflexivity|].
    split; [reflexivity|exact Hread].
Qed.

(** C10. A stored value that is falsy (no item, or the empty string) is
    treated as absent storage: [getData] returns the default state and
    leaves the host as it was; in particular nothing is logged, as a
    failed parse of the empty string would be.  What it returns is a deep
    copy.  With objects as references, in the heap the literal was
    evaluated in and in any heap that extends it, [getData_ref] returns a
    reference other than [defaultData]; it stands for a tree equal to the
    default state; every object below it is a new one, none of them an
    object of the literal; the literal still reads as it was written; and
    overwriting any object of the returned state, or anything else
    outside the literal, leaves the literal as it was written. *)
Theorem load_falsy_blob (h : Host) (rest : heap) :
  falsy (entries (localStorage h) !! storage_key) = true →
  getData h = Ok (state_value defaultData) h
  ∧ JSON_parse [] = None
  ∧ ∃ copy fresh,
      let heap0 := defaultData_heap ++ rest in
      let heap1 := heap0 ++ fresh in
      getData_ref (h, heap0) = Ok copy (h, heap1)
      ∧ copy ≠ defaultData_ref
      ∧ read_tree heap1 copy = Some (state_value defaultData)
      ∧ read_tree heap1 defaultData_ref = Some (state_value defaultData)
      ∧ (∀ l, l ∈ addresses (length heap1) heap1 copy →
          length heap0 ≤ l
          ∧ ¬ (l ∈ addresses (length heap1) heap1 defaultData_ref)
          ∧ ∀ o, read_tree (<[l := o]> heap1) defaultData_ref
                 = Some (state_value defaultData))
      ∧ (∀ others, read_tree (defaultData_heap ++ others) defaultData_ref
                   = Some (state_value defaultData)).
Proof.
  intros Hfalsy.
  assert (Hload := getData_falsy h Hfalsy).
  split; [exact Hload|]. split; [reflexivity|].
  destruct (getData_ref_tree h rest)
    as (v & h' & fresh & Hv & Href & Hsnd & _).
  rewrite Hload in Hv. injection Hv as <- <-.
  destruct (alloc_read (state_value defaultData) (defaultData_heap ++ rest))
    as (fresh' & Hh & Hread & Haddr).
  exists (fst (alloc (state_value defaultData) (defaultData_heap ++ rest))),
    fresh.
  cbv zeta.
  assert (Hsame : fresh' = fresh).
  { rewrite Hh in Hsnd. now apply app_inv_head in Hsnd. }
  subst fresh'.
  assert (Hlit : ∀ l,
    l ∈ addresses (length ((defaultData_heap ++ rest) ++ fresh))
          ((defaultData_heap ++ rest) ++ fresh) defaultData_ref →
    l < length defaultData_heap).
  { intros l Hl. rewrite <- app_assoc, literal_addresses in Hl.
    change (length defaultData_heap) with 14.
    repeat (apply elem_of_cons in Hl as [-> | Hl]; [lia|]).
    now apply elem_of_nil in Hl. }
  split; [exact Href|].
  split.
  { intros Heq. rewrite Heq in Haddr.
    destruct (Haddr 13) as [Hge _].
    - rewrite <- app_assoc, literal_addresses. apply list_elem_of_here.
    - rewrite length_app in Hge. change (length defaultData_heap) with 14 in Hge.
      lia. }
  split; [exact Hread|].
  split; [rewrite <- app_assoc; apply default_literal_framed|].
  split; [|apply default_literal_framed].
  intros l Hl. destruct (Haddr l Hl) as [Hge _].
  split; [exact Hge|].
  rewrite length_app in Hge.
  split.
  - intros Hin. apply Hlit in Hin. lia.
  - intros o. rewrite <- app_assoc. apply literal_survives_writes. lia.
Qed.

Lemma load_falsy_blob_witness :
  let h := host_with [] 5000 in
  entries (localStorage h) !! storage_key = Some []
  ∧ falsy (entries (localStorage h) !! storage_key) = true
  ∧ getData h = Ok (state_value defaultData) h
  ∧ defaultData_ref = RRef 13
  ∧ ∃ fresh, getData_ref (h, defaultData_heap)
             = Ok (RRef 27) (h, defaultData_heap ++ fresh).
Proof.
  assert (Hblob : entries (localStorage (host_with [] 5000)) !! storage_key
                  = Some []) by (vm_compute; reflexivity).
  assert (Hfalsy : falsy (entries (localStorage (host_with [] 5000))
                          !! storage_key) = true)
    by (rewrite Hblob; reflexivity).
  cbv zeta. split; [exact Hblob|]. split; [exact Hfalsy|].
  destruct (load_falsy_blob (host_with [] 5000) [] Hfalsy)
    as (Hload & _ & copy & fresh & Hcopy & _).
  split; [exact Hload|]. split; [reflexivity|].
  cbv zeta in Hcopy. rewrite app_nil_r in Hcopy.
  exists fresh. rewrite Hcopy. f_equal.
  assert (Hother : ∃ m, getData_ref (host_with [] 5000, defaultData_heap)
                        = Ok (RRef 27) (host_with [] 5000, m)).
  { eexists. vm_compute. reflexivity. }
  destruct Hother as [m Hother]. rewrite Hother in Hcopy.
  now injection Hcopy as <- _.
Defined.

(** * Further properties of the script *)

(** ** Loading, whatever is stored *)

(** X1. [getData] never throws and never writes: on every host it returns,
    leaving storage and the page as they were.  It returns the parse of
    the stored item when the item parses, and the default state otherwise
    (no item, the empty string, or text that is not JSON); it logs one
    entry, the parse failure, exactly when a non-empty item does not
    parse. *)
Theorem getData_total (h : Host) :
  getData h
  = Ok (loaded_value (entries (localStorage h) !! storage_key))
       {| localStorage := localStorage h;
          console := console h
                     ++ load_log (entries (localStorage h) !! storage_key);
          document := document h |}.
Proof.
  unfold loaded_value, load_log.
  destruct (entries (localStorage h) !! storage_key) as [blob|] eqn:Hs.
  - destruct (JSON_parse blob) as [v|] eqn:Hp.
    + rewrite (getData_parsed h blob v Hs Hp), app_nil_r. now destruct h.
    + exact (getData_corrupt h blob Hs Hp).
  - rewrite getData_falsy by now rewrite Hs.
    rewrite app_nil_r. now destruct h.
Qed.

(** ** The edit button *)

Lemma or_empty_raw (s : jsstring) : or_empty s = s.
Proof. now destruct s. Qed.

Lemma assoc_set_set {V} (k : string) (v v' : V) (l : list (string * V)) :
  assoc_set k v (assoc_set k v' l) = assoc_set k v l.
Proof.
  induction l as [|[k0 v0] l IH]; cbn [assoc_set].
  - now rewrite String.eqb_refl.
  - destruct (String.eqb k0 k) eqn:E; cbn [assoc_set]; rewrite E;
      [reflexivity|now rewrite IH].
Qed.

Lemma assoc_set_comm {V} (k k0 : string) (v v0 v1 : V)
    (l : list (string * V)) :
  String.eqb k0 k = false →
  assoc_get k l = Some v1 →
  assoc_set k v (assoc_set k0 v0 l) = assoc_set k0 v0 (assoc_set k v l).
Proof.
  intros Hne. induction l as [|[k' v'] l IH]; cbn [assoc_get assoc_set];
    [discriminate|].
  destruct (String.eqb k' k) eqn:Ek, (String.eqb k' k0) eqn:Ek0;
    cbn [assoc_set]; rewrite ?Ek, ?Ek0; try reflexivity.
  - apply String.eqb_eq in Ek, Ek0. subst. rewrite String.eqb_refl in Hne.
    discriminate.
  - intros H. now rewrite IH.
Qed.

Lemma body_style_after_render_over (d d' : AppState)
    (l : list (string * jsstring)) :
  body_style_after_render d (body_style_after_render d' l)
  = body_style_after_render d l.
Proof.
  set (v := lit "url(" ++ background d ++ lit ")").
  set (v' := lit "url(" ++ background d' ++ lit ")").
  assert (Himage :
    assoc_set "backgroundImage" v (body_style_after_render d' l)
    = body_style_after_render d l).
  { unfold body_style_after_render. fold v v'.
    assert (H1 : assoc_get "backgroundImage"
                   (assoc_set "backgroundImage" v' l) = Some v')
      by apply assoc_get_set_eq.
    set (l1 := assoc_set "backgroundImage" v' l) in *.
    assert (H2 : assoc_get "backgroundImage"
                   (assoc_set "backgroundSize" (lit "cover") l1) = Some v')
      by now rewrite assoc_get_set_ne.
    set (l2 := assoc_set "backgroundSize" (lit "cover") l1) in *.
    assert (H3 : assoc_get "backgroundImage"
                   (assoc_set "backgroundPosition" (lit "center") l2)
                 = Some v')
      by now rewrite assoc_get_set_ne.
    rewrite (assoc_set_comm "backgroundImage" "backgroundAttachment" _ _ v'
               _ eq_refl H3).
    subst l2.
    rewrite (assoc_set_comm "backgroundImage" "backgroundPosition" _ _ v'
               _ eq_refl H2).
    subst l1.
    rewrite (assoc_set_comm "backgroundImage" "backgroundSize" _ _ v'
               _ eq_refl H1).
    now rewrite assoc_set_set. }
  unfold body_style_after_render at 1. fold v. rewrite Himage.
  unfold body_style_after_render.  fold v.
  set (m1 := assoc_set "backgroundImage" v l).
  set (m2 := assoc_set "backgroundSize" (lit "cover") m1).
  set (m3 := assoc_set "backgroundPosition" (lit "center") m2).
  set (m4 := assoc_set "backgroundAttachment" (lit "fixed") m3).
  assert (H2 : assoc_get "backgroundSize" m4 = Some (lit "cover")).
  { subst m4 m3 m2. rewrite !assoc_get_set_ne by reflexivity.
    apply assoc_get_set_eq. }
  assert (H3 : assoc_get "backgroundPosition" m4 = Some (lit "center")).
  { subst m4 m3. rewrite !assoc_get_set_ne by reflexivity.
    apply assoc_get_set_eq. }
  assert (H4 : assoc_get "backgroundAttachment" m4 = Some (lit "fixed")).
  { subst m4. apply assoc_get_set_eq. }
  now rewrite (assoc_set_same _ _ _ H2), (assoc_set_same _ _ _ H3),
    (assoc_set_same _ _ _ H4).
Qed.

Lemma rendered_page_over (d d' : AppState) (mode mode' : bool)
    (doc : Document) :
  rendered_page d mode (rendered_page d' mode' doc) = rendered_page d mode doc.
Proof.
  rewrite (rendered_page_fields d mode (rendered_page d' mode' doc)).
  rewrite (rendered_page_fields d' mode' doc).
  rewrite (rendered_page_fields d mode doc).
  cbn [body_style]. rewrite body_style_after_render_over.
  unfold remove_existing_overlay at 1 3, app_clear at 1 3.
  cbn [body_before app_children body_after body_style remove_first].
  change (has_class "overlay" (overlay_element d')) with true.
  reflexivity.
Qed.

(** X2. A render leaves no trace of the render before it.  Rendering any
    state in any mode on the page a previous render left gives the same
    state, mode, storage and console, the same children of the body
    before and after the mount, and the same mount, as rendering it on
    the original page.  When the backgrounds of both states are URLs as
    they stand, so that the body style accepts what both renders assign,
    the two worlds are equal, body style included. *)
Theorem render_forgets_previous_render (w : World) (d : AppState)
    (mode : bool) :
  let again :=
    after render
      {| data := d; editMode := mode; host := host (after render w) |} in
  let once :=
    after render {| data := d; editMode := mode; host := host w |} in
  data again = data once
  ∧ editMode again = editMode once
  ∧ localStorage (host again) = localStorage (host once)
  ∧ console (host again) = console (host once)
  ∧ body_before (document (host again)) = body_before (document (host once))
  ∧ app_children (document (host again))
    = app_children (document (host once))
  ∧ body_after (document (host again)) = body_after (document (host once))
  ∧ (plain_url (background (data w)) = true →
     plain_url (background d) = true →
     again = once).
Proof.
  cbv zeta.
  assert (Heq :
    after render
      {| data := d; editMode := mode; host := host (after render w) |}
    = after render {| data := d; editMode := mode; host := host w |}).
  { rewrite !render_run. unfold with_document.
    cbn [data editMode host document set_document localStorage console].
    now rewrite rendered_page_over. }
  rewrite Heq. repeat split.
Qed.

Lemma render_forgets_previous_render_witness :
  after render
    {| data := with_background (lit "data:image/png;base64,AAAA") defaultData;
       editMode := true;
       host := host (after render (world_of defaultData (fresh_host 0))) |}
  = after render
      {| data := with_background (lit "data:image/png;base64,AAAA")
                   defaultData;
         editMode := true;
         host := fresh_host 0 |}.
Proof.
  refine (proj2 (proj2 (proj2 (proj2 (proj2 (proj2 (proj2
            (render_forgets_previous_render
               (world_of defaultData (fresh_host 0))
               (with_background (lit "data:image/png;base64,AAAA")
                  defaultData) true))))))) _ _); reflexivity.
Defined.

(** X3. A click on the edit button flips [editMode] and re-renders in the
    new mode; the state, storage and the console stay as they were: the
    click neither changes nor saves the state. *)
Theorem toggle_flips_mode_only (w : World) :
  let w' := after toggleBtn_onclick w in
  editMode w' = negb (editMode w)
  ∧ data w' = data w
  ∧ localStorage (host w') = localStorage (host w)
  ∧ console (host w') = console (host w)
  ∧ app_children (document (host w'))
    = mount_after_render (data w) (negb (editMode w)).
Proof.
  cbv zeta. rewrite toggleBtn_onclick_run, render_run.
  cbn [with_document data editMode host set_document localStorage console
       document].
  now rewrite rendered_page_fields.
Qed.

(** X4. Two clicks on the edit button in a row leave the world a single
    [render] would have left: the mode is back, and the page is the page
    of that mode. *)
Theorem toggle_twice_is_render (w : World) :
  after toggleBtn_onclick (after toggleBtn_onclick w) = after render w.
Proof.
  rewrite (toggleBtn_onclick_run (after toggleBtn_onclick w)).
  rewrite toggleBtn_onclick_run.
  rewrite !render_run. unfold with_document.
  cbn [data editMode host document set_document localStorage console].
  now rewrite negb_involutive, rendered_page_over.
Qed.

(** ** Rendering without two categories *)

(** X5. With fewer than two categories [render] throws a [TypeError],
    after it has styled the body, replaced the overlay and put the edit
    button into the mount: the mount then holds the edit button alone.
    State, mode, storage and console are as before. *)
Theorem render_throws_without_categories (w : World) :
  length (sections (data w)) < 2 →
  ∃ w',
    render w = Throw TypeError w'
    ∧ data w' = data w
    ∧ editMode w' = editMode w
    ∧ localStorage (host w') = localStorage (host w)
    ∧ console (host w') = console (host w)
    ∧ app_children (document (host w')) = [toggleBtn (editMode w)]
    ∧ body_before (document (host w'))
      = overlay_element (data w)
        :: body_before (remove_existing_overlay (app_clear (document (host w))))
    ∧ body_style (document (host w'))
      = body_style_after_render (data w) (body_style (document (host w))).
Proof.
  intros Hlen.
  assert (H1 : sections (data w) !! 1 = None)
    by (apply lookup_ge_None; lia).
  pose proof (rendered_page_fields (data w) (editMode w) (document (host w)))
    as Hpage.
  unfold mount_after_render in Hpage. rewrite H1 in Hpage.
  exists (with_document
            (rendered_page (data w) (editMode w) (document (host w))) w).
  split.
  - rewrite render_outcome, H1. now destruct (sections (data w) !! 0).
  - cbn [with_document data editMode host set_document localStorage console
         document].
    rewrite Hpage. cbn [app_children body_before body_style].
    repeat split; now destruct (sections (data w) !! 0).
Qed.

Lemma render_throws_without_categories_witness :
  ∃ w',
    render (world_of (with_sections [] defaultData) (fresh_host 0))
    = Throw TypeError w'
    ∧ app_children (document (host w')) = [toggleBtn false].
Proof.
  destruct (render_throws_without_categories
              (world_of (with_sections [] defaultData) (fresh_host 0)))
    as (w' & Hr & _ & _ & _ & _ & Hm & _).
  - cbn. lia.
  - exists w'. split; [exact Hr|exact Hm].
Defined.

(** ** The controls on the page *)

Lemma listeners_children (e : element) :
  listeners e
  = match listener e with
    | Some (_, h) => [h]
    | None => []
    end ++ forest_listeners (childNodes e).
Proof.
  destruct e as [tag cl pr st li kids]. cbn [listeners listener childNodes].
  reflexivity.
Qed.

Lemma forest_listeners_app (l1 l2 : list element) :
  forest_listeners (l1 ++ l2) = forest_listeners l1 ++ forest_listeners l2.
Proof.
  induction l1 as [|x l1 IH]; [reflexivity|].
  cbn [app forest_listeners]. now rewrite IH, app_assoc.
Qed.

Lemma listeners_quest_item (mode : bool) (idx i : nat) (t : Task) :
  listeners (quest_item mode idx i t) = row_controls mode idx i.
Proof. destruct mode, t as [tx []]; reflexivity. Qed.

Lemma listeners_quest_items (mode : bool) (idx k : nat) (ts : list Task) :
  forest_listeners (imap (λ j, quest_item mode idx (k + j)) ts)
  = concat (map (row_controls mode idx) (seq k (length ts))).
Proof.
  revert k. induction ts as [|t ts IH]; intros k; [reflexivity|].
  cbn [imap forest_listeners length seq map concat].
  rewrite listeners_quest_item. replace (k + 0) with k by lia.
  assert (Hext : imap ((λ j, quest_item mode idx (k + j)) ∘ S) ts
                 = imap (λ j, quest_item mode idx (S k + j)) ts).
  { apply imap_ext. intros j x _. cbn. f_equal. lia. }
  now rewrite Hext, IH.
Qed.

Lemma listeners_category_element (mode : bool) (idx : nat) (s : Category) :
  listeners (category_element mode idx s)
  = category_controls mode idx (length (tasks s)).
Proof.
  pose proof (listeners_quest_items mode idx 0 (tasks s)) as Hitems.
  change (λ j : nat, quest_item mode idx (0 + j))
    with (quest_item mode idx) in Hitems.
  unfold category_element, category_controls. rewrite fold_appendChild.
  destruct mode;
    rewrite !listeners_children;
    cbn [listener appendChild set_className set_prop set_style
         set_listener createElement childNodes app forest_listeners];
    rewrite !listeners_children;
    cbn [listener appendChild set_className set_prop set_style
         set_listener createElement childNodes app forest_listeners];
    rewrite ?listeners_children;
    cbn [listener appendChild set_className set_prop set_style
         set_listener createElement childNodes app forest_listeners];
    rewrite Hitems, ?app_nil_r; reflexivity.
Qed.

Lemma listeners_hero_element (d : AppState) (mode : bool) :
  listeners (hero_element d mode) = hero_controls mode.
Proof. destruct mode; reflexivity. Qed.

Lemma listeners_main_element (d : AppState) (mode : bool) (s0 s1 : Category) :
  listeners (main_element d mode s0 s1)
  = hero_controls mode
    ++ category_controls mode 0 (length (tasks s0))
    ++ category_controls mode 1 (length (tasks s1)).
Proof.
  unfold main_element. rewrite !listeners_children.
  cbn [listener appendChild createElement childNodes app forest_listeners].
  rewrite !listeners_children.
  cbn [listener appendChild createElement childNodes app forest_listeners].
  rewrite listeners_hero_element, !listeners_category_element.
  now rewrite !app_nil_r, <- app_assoc.
Qed.

(** X6. With both categories present [render] returns normally, and the
    listeners on the page are, in document order: the edit button; in
    edit mode the names, tagline, file and slider inputs; then for
    category 0 and for category 1, in edit mode the title input, for
    every task in order its checkbox and in edit mode its delete button,
    each carrying the index of its own category and task, and in edit
    mode the add button.  In view mode the page has the edit button and
    the checkboxes, and nothing else to act on. *)
Theorem rendered_controls (w : World) (s0 s1 : Category) :
  sections (data w) !! 0 = Some s0 →
  sections (data w) !! 1 = Some s1 →
  render w = Ok () (after render w)
  ∧ forest_listeners (app_children (document (host (after render w))))
    = toggleBtn_click
      :: hero_controls (editMode w)
      ++ category_controls (editMode w) 0 (length (tasks s0))
      ++ category_controls (editMode w) 1 (length (tasks s1)).
Proof.
  intros H0 H1. split.
  - unfold after. now rewrite render_outcome, H0, H1.
  - rewrite render_run.
    cbn [with_document host document set_document].
    rewrite rendered_page_fields. unfold mount_after_render.
    cbn [app_children]. rewrite H0, H1. cbn [forest_listeners].
    rewrite listeners_main_element, app_nil_r.
    now destruct (editMode w).
Qed.

Lemma rendered_controls_witness :
  forest_listeners
    (app_children
       (document (host (after render (world_of defaultData (fresh_host 0))))))
  = [toggleBtn_click;
     checkbox_change 0 0; checkbox_change 0 1; checkbox_change 0 2;
     checkbox_change 0 3;
     checkbox_change 1 0; checkbox_change 1 1; checkbox_change 1 2;
     checkbox_change 1 3].
Proof.
  edestruct (rendered_controls (world_of defaultData (fresh_host 0)))
    as [_ Hpage]; [reflexivity|reflexivity|exact Hpage].
Defined.

(** ** Completed tasks on the page *)

Lemma count_quest_item_completed (mode : bool) (idx i : nat) (t : Task) :
  count_class "completed" (quest_item mode idx i t)
  = if completed t then 1 else 0.
Proof. destruct mode, t as [tx []]; reflexivity. Qed.

Lemma count_quest_item_rows (mode : bool) (idx i : nat) (t : Task) :
  count_class "quest-item" (quest_item mode idx i t) = 1.
Proof. destruct mode, t as [tx []]; reflexivity. Qed.

Lemma count_quest_items_completed (f : nat → Task → element) (ts : list Task) :
  (∀ i t, count_class "completed" (f i t) = if completed t then 1 else 0) →
  count_forest "completed" (imap f ts) = length (List.filter completed ts).
Proof.
  revert f. induction ts as [|t ts IH]; intros f Hf; [reflexivity|].
  cbn [imap count_forest List.filter]. rewrite Hf, IH by (intros; apply Hf).
  now destruct (completed t).
Qed.

Lemma count_quest_items_rows (f : nat → Task → element) (ts : list Task) :
  (∀ i t, count_class "quest-item" (f i t) = 1) →
  count_forest "quest-item" (imap f ts) = length ts.
Proof.
  revert f. induction ts as [|t ts IH]; intros f Hf; [reflexivity|].
  cbn [imap count_forest length]. rewrite Hf, IH by (intros; apply Hf).
  reflexivity.
Qed.

Lemma count_category_completed (mode : bool) (idx : nat) (s : Category) :
  count_class "completed" (category_element mode idx s)
  = length (List.filter completed (tasks s))
  ∧ count_class "quest-item" (category_element mode idx s)
    = length (tasks s).
Proof.
  assert (Hdone :
    count_class "completed"
      (fold_left (λ l item, appendChild item l)
         (imap (quest_item mode idx) (tasks s))
         (set_className "quest-list" (createElement "div")))
    = length (List.filter completed (tasks s))).
  { rewrite count_fold_appendChild, count_quest_items_completed;
      [reflexivity|]. intros i t. apply count_quest_item_completed. }
  assert (Hrows :
    count_class "quest-item"
      (fold_left (λ l item, appendChild item l)
         (imap (quest_item mode idx) (tasks s))
         (set_className "quest-list" (createElement "div")))
    = length (tasks s)).
  { rewrite count_fold_appendChild, count_quest_items_rows;
      [reflexivity|]. intros i t. apply count_quest_item_rows. }
  unfold category_element.
  split; destruct mode; rewrite !count_class_children;
    cbn [appendChild childNodes set_style set_prop set_className
         set_listener createElement classList has_class existsb app];
    rewrite ?count_forest_app; cbn [count_forest];
    rewrite ?Hdone, ?Hrows; cbn; lia.
Qed.

(** X7. After a render with both categories, the page has one row of
    class [quest-item] per task of the two categories, and as many
    elements of class [completed] as there are completed tasks. *)
Theorem rendered_rows_and_marks (w : World) (s0 s1 : Category) :
  sections (data w) !! 0 = Some s0 →
  sections (data w) !! 1 = Some s1 →
  let page := app_children (document (host (after render w))) in
  count_forest "quest-item" page = length (tasks s0) + length (tasks s1)
  ∧ count_forest "completed" page
    = length (List.filter completed (tasks s0))
      + length (List.filter completed (tasks s1)).
Proof.
  intros H0 H1. cbv zeta. rewrite render_run.
  cbn [with_document host document set_document].
  rewrite rendered_page_fields. unfold mount_after_render.
  cbn [app_children]. rewrite H0, H1. cbn [count_forest].
  assert (Hbtn : ∀ c : string, c = "quest-item"%string ∨ c = "completed"%string →
            count_class c (toggleBtn (editMode w)) = 0).
  { intros c [-> | ->]; now destruct (editMode w). }
  assert (Hhero : ∀ c : string, c = "quest-item"%string ∨ c = "completed"%string →
            count_class c (hero_element (data w) (editMode w)) = 0).
  { intros c [-> | ->]; now destruct (editMode w). }
  destruct (count_category_completed (editMode w) 0 s0) as [Hd0 Hr0].
  destruct (count_category_completed (editMode w) 1 s1) as [Hd1 Hr1].
  unfold main_element.
  split; rewrite Hbtn by auto; rewrite !count_class_children;
    cbn [appendChild childNodes createElement classList has_class existsb app
         count_forest];
    rewrite !count_class_children;
    cbn [appendChild childNodes createElement classList has_class existsb app
         count_forest];
    rewrite Hhero by auto;
    rewrite ?Hd0, ?Hd1, ?Hr0, ?Hr1; lia.
Qed.

Lemma rendered_rows_and_marks_witness :
  count_forest "quest-item"
    (app_children
       (document (host (after render (world_of defaultData (fresh_host 0))))))
  = 8.
Proof.
  edestruct (rendered_rows_and_marks (world_of defaultData (fresh_host 0)))
    as [Hrows _]; [reflexivity|reflexivity|exact Hrows].
Defined.

(** ** Category titles *)

(** X8. Committing a category title, for a category that exists, returns
    normally and stores the input as it is (empty or white space
    included) as the title of that category; its tasks, the other
    categories, their number, the other fields of the state and the mode
    stay as they were; the state is persisted, and the page is not
    rendered again. *)
Theorem title_commit (w : World) (idx : nat) (value : jsstring)
    (section : Category) :
  sections (data w) !! idx = Some section →
  let w' := after (titleInput_onchange idx value) w in
  titleInput_onchange idx value w = Ok () w'
  ∧ sections (data w') !! idx
    = Some {| title := value; tasks := tasks section |}
  ∧ (∀ j, j ≠ idx → sections (data w') !! j = sections (data w) !! j)
  ∧ length (sections (data w')) = length (sections (data w))
  ∧ names (data w') = names (data w)
  ∧ tagline (data w') = tagline (data w)
  ∧ background (data w') = background (data w)
  ∧ overlay (data w') = overlay (data w)
  ∧ editMode w' = editMode w
  ∧ document (host w') = document (host w)
  ∧ persists w w'.
Proof.
  intros Hsec. cbv zeta.
  assert (Hok : titleInput_onchange idx value w
                = Ok () (after (titleInput_onchange idx value) w)).
  { unfold after, titleInput_onchange. run_js. rewrite Hsec.
    now rewrite saveData_run. }
  split; [exact Hok|].
  rewrite titleInput_onchange_run, Hsec, or_empty_raw.
  cbn [saved_world with_data data with_sections sections names tagline
       background overlay editMode host document].
  split.
  { rewrite list_lookup_insert_eq by (eapply lookup_lt_Some, Hsec).
    reflexivity. }
  split.
  { intros j Hj. now rewrite list_lookup_insert_ne by (intros ->; now apply Hj). }
  split; [now rewrite length_insert|].
  repeat (split; [reflexivity|]).
  now apply saved_world_persists.
Qed.

Lemma title_commit_witness :
  sections
    (data (after (titleInput_onchange 1 (lit " Home "))
             (world_of defaultData (fresh_host 1000)))) !! 1
  = Some {| title := lit " Home ";
            tasks := [ new_task (lit "Learn Spanish together");
                       new_task (lit "Cook 50 new recipes");
                       new_task (lit "Run a 5K together");
                       new_task (lit "Read 12 books together") ] |}.
Proof.
  edestruct (title_commit (world_of defaultData (fresh_host 1000)) 1
               (lit " Home ")) as (_ & Ht & _); [reflexivity|exact Ht].
Defined.

(** ** A category that is not there *)

(** X9. For a category index past the end of [data.sections], the title,
    delete and add handlers throw a [TypeError] and change nothing: no
    state change, no save, no render.  The add handler throws only when
    the trimmed input is not empty; with a blank input it returns before
    looking at the category. *)
Theorem handlers_throw_without_category (w : World) (idx i : nat)
    (value : jsstring) :
  sections (data w) !! idx = None →
  titleInput_onchange idx value w = Throw TypeError w
  ∧ delBtn_onclick idx i w = Throw TypeError w
  ∧ addBtn_onclick idx value w
    = (if truthy (trim value) then Throw TypeError w else Ok () w).
Proof.
  intros Hsec. unfold titleInput_onchange, delBtn_onclick, addBtn_onclick.
  destruct (truthy (trim value)); run_js; rewrite Hsec; now destruct w.
Qed.

Lemma handlers_throw_without_category_witness :
  delBtn_onclick 2 0 (world_of defaultData (fresh_host 0))
  = Throw TypeError (world_of defaultData (fresh_host 0)).
Proof.
  refine (proj1 (proj2 (handlers_throw_without_category
                          (world_of defaultData (fresh_host 0)) 2 0 [] _))).
  reflexivity.
Defined.

(** ** Deleting *)

Lemma delete_out_of_range {A} (l : list A) (i : nat) :
  length l ≤ i → delete i l = l.
Proof.
  revert i. induction l as [|x l IH]; intros i Hi; [now destruct i|].
  destruct i as [|i]; cbn [length] in Hi; [lia|].
  cbn. f_equal. apply IH. lia.
Qed.

(** X10. A delete at a task index past the end of the list removes
    nothing ([splice] past the end): the state is unchanged, and the
    handler still saves and renders. *)
Theorem delete_past_the_end (w : World) (idx i : nat) (section : Category) :
  sections (data w) !! idx = Some section →
  length (tasks section) ≤ i →
  after (delBtn_onclick idx i) w = after render (saved_world w)
  ∧ data (after (delBtn_onclick idx i) w) = data w.
Proof.
  intros Hsec Hlen.
  assert (Hsame :
    with_sections
      (<[idx := with_tasks (delete i (tasks section)) section]>
         (sections (data w))) (data w) = data w).
  { rewrite delete_out_of_range by exact Hlen.
    replace (with_tasks (tasks section) section) with section
      by now destruct section.
    rewrite list_insert_id by exact Hsec. now destruct (data w). }
  rewrite delBtn_onclick_run, Hsec, Hsame.
  replace (with_data (data w) w) with w by now destruct w.
  split; [reflexivity|]. now rewrite render_data.
Qed.

Lemma delete_past_the_end_witness :
  data (after (delBtn_onclick 0 4) (world_of defaultData (fresh_host 0)))
  = defaultData.
Proof.
  edestruct (delete_past_the_end (world_of defaultData (fresh_host 0)) 0 4)
    as [_ Hd]; [reflexivity| |exact Hd]. cbn. lia.
Defined.

(** X11. Adding a task to a category and then deleting the task at the
    position it was added (the old length of the list) gives back the
    state before the add. *)
Theorem add_then_delete_restores (w : World) (idx : nat) (value : jsstring)
    (section : Category) :
  sections (data w) !! idx = Some section →
  truthy (trim value) = true →
  data (after (delBtn_onclick idx (length (tasks section)))
          (after (addBtn_onclick idx value) w))
  = data w.
Proof.
  intros Hsec Htext.
  rewrite addBtn_onclick_run, Htext, Hsec.
  rewrite delBtn_onclick_run, render_data.
  cbn [saved_world with_data data with_sections sections].
  rewrite list_lookup_insert_eq by (eapply lookup_lt_Some, Hsec).
  rewrite render_data.
  cbn [saved_world with_data data with_sections sections with_tasks tasks
       title].
  rewrite list_insert_insert_eq.
  replace (delete (length (tasks section)) (tasks section ++ [new_task (trim value)]))
    with (tasks section).
  - replace (with_tasks (tasks section)
               (with_tasks (tasks section ++ [new_task (trim value)]) section))
      with section by now destruct section.
    rewrite list_insert_id by exact Hsec. now destruct (data w).
  - rewrite delete_middle. now rewrite app_nil_r.
Qed.

Lemma add_then_delete_restores_witness :
  data (after (delBtn_onclick 0 4)
          (after (addBtn_onclick 0 (lit " Swim "))
             (world_of defaultData (fresh_host 0))))
  = defaultData.
Proof.
  exact (add_then_delete_restores (world_of defaultData (fresh_host 0)) 0
           (lit " Swim ")
           {| title := lit "Travel Adventures";
              tasks := [ new_task (lit "Visit Paris, France");
                         new_task (lit "Road trip across Iceland");
                         new_task (lit "See the Northern Lights together");
                         new_task (lit "Tokyo cherry blossoms") ] |}
           eq_refl eq_refl).
Defined.

(** ** The background image *)

(** X12. When the file read completes, the data URL becomes
    [data.background] and nothing else of the state changes; the mode
    stays; the state is persisted; and the page is rendered again, with
    the body's [backgroundImage] set to [url(...)] of the new value. *)
Theorem background_upload (w : World) (result : jsstring) :
  let w' := after (reader_onload result) w in
  data w' = with_background result (data w)
  ∧ editMode w' = editMode w
  ∧ persists w w'
  ∧ assoc_get "backgroundImage" (body_style (document (host w')))
    = Some (lit "url(" ++ result ++ lit ")")
  ∧ app_children (document (host w'))
    = mount_after_render (with_background result (data w)) (editMode w).
Proof.
  cbv zeta. rewrite reader_onload_run.
  split; [now rewrite render_data|].
  split; [now rewrite render_editMode|].
  split; [now apply rendered_persists|].
  rewrite render_run.
  cbn [with_document saved_world with_data host document set_document data
       editMode].
  rewrite rendered_page_fields. cbn [body_style app_children].
  split; [|reflexivity].
  unfold body_style_after_render.
  rewrite !assoc_get_set_ne by reflexivity.
  now rewrite assoc_get_set_eq.
Qed.

(** ** What an event does to storage and the console *)

(** Every event either leaves the state, storage and the console as they
    were, or ends with storage and console as [saveData] leaves them for
    the new state. *)
Lemma step_effects (w : World) (e : event) :
  (data (step w e) = data w
   ∧ localStorage (host (step w e)) = localStorage (host w)
   ∧ console (host (step w e)) = console (host w))
  ∨ (localStorage (host (step w e))
     = saved_storage (data (step w e)) (localStorage (host w))
     ∧ console (host (step w e))
       = console (host w) ++ save_log (data (step w e)) (localStorage (host w))).
Proof.
  assert (Hrender : ∀ w1,
            localStorage (host (after render (saved_world w1)))
            = saved_storage (data (after render (saved_world w1)))
                (localStorage (host w1))
            ∧ console (host (after render (saved_world w1)))
              = console (host w1)
                ++ save_log (data (after render (saved_world w1)))
                     (localStorage (host w1))).
  { intros w1. now rewrite render_storage, render_console, render_data. }
  unfold step. destruct e as [| |v|v|r|v|idx v|idx i b|idx i|idx v];
    cbn [handle].
  - left. now rewrite render_data, render_storage, render_console.
  - left. rewrite toggleBtn_onclick_run.
    now rewrite render_data, render_storage, render_console.
  - right. now rewrite namesInput_onchange_run.
  - right. now rewrite taglineInput_onchange_run.
  - right. rewrite reader_onload_run. apply (Hrender (with_data _ w)).
  - right. now rewrite rangeInput_oninput_run.
  - rewrite titleInput_onchange_run.
    destruct (sections (data w) !! idx); [right|left]; now repeat split.
  - right. rewrite checkbox_onchange_run. apply (Hrender (with_data _ w)).
  - rewrite delBtn_onclick_run.
    destruct (sections (data w) !! idx); [right|left; now repeat split].
    apply (Hrender (with_data _ w)).
  - rewrite addBtn_onclick_run.
    destruct (truthy (trim v)); [|left; now repeat split].
    destruct (sections (data w) !! idx); [right|left; now repeat split].
    apply (Hrender (with_data _ w)).
Qed.

Lemma saved_storage_other_keys (d : AppState) (st : Storage) (k : jsstring) :
  k ≠ storage_key →
  entries (saved_storage d st) !! k = entries st !! k.
Proof.
  intros Hk. unfold saved_storage.
  destruct (fits _ _ _); [|reflexivity].
  cbn [entries]. now rewrite lookup_insert_ne.
Qed.

Lemma saved_storage_quota (d : AppState) (st : Storage) :
  quota (saved_storage d st) = quota st.
Proof. unfold saved_storage. now destruct (fits _ _ _). Qed.

(** X14. Whatever events are delivered, the script writes to storage
    under its own key only: every other key holds what it held before,
    and the quota of the store is unchanged. *)
Theorem other_keys_untouched (es : list event) (w : World) (k : jsstring) :
  k ≠ storage_key →
  entries (localStorage (host (run es w))) !! k
  = entries (localStorage (host w)) !! k
  ∧ quota (localStorage (host (run es w))) = quota (localStorage (host w)).
Proof.
  intros Hk. revert w. induction es as [|e es IH]; intros w;
    [now split|].
  cbn [run fold_left]. destruct (IH (step w e)) as [IH1 IH2].
  unfold run in IH1, IH2. rewrite IH1, IH2.
  destruct (step_effects w e) as [(_ & Hst & _) | [Hst _]]; rewrite Hst.
  - now split.
  - split; [now apply saved_storage_other_keys|apply saved_storage_quota].
Qed.

Lemma other_keys_untouched_witness :
  entries
    (localStorage
       (host (run [DOMContentLoaded; ToggleClick; AddClick 0 (lit "Swim");
                   CheckboxChange 1 2 true]
                {| data := defaultData; editMode := false;
                   host := {| localStorage :=
                                {| entries := {[ lit "theme" := lit "dark" ]};
                                   quota := 5000 |};
                              console := [];
                              document := blank_page |} |})))
  !! lit "theme"
  = Some (lit "dark").
Proof.
  refine (eq_trans (proj1 (other_keys_untouched _ _ (lit "theme") _)) _).
  - vm_compute. discriminate.
  - reflexivity.
Defined.

(** X15. After start-up the script logs nothing but failed saves: over
    any history the console grows by entries [Failed to save data:] with
    a [QuotaExceededError] only, at most one per event. *)
Theorem console_only_save_failures (es : list event) (w : World) :
  ∃ n,
    console (host (run es w))
    = console (host w)
      ++ repeat (lit "Failed to save data:", QuotaExceededError) n
    ∧ n ≤ length es.
Proof.
  revert w. induction es as [|e es IH]; intros w.
  - exists 0. cbn. now rewrite app_nil_r.
  - cbn [run fold_left length]. destruct (IH (step w e)) as (n & Hn & Hle).
    unfold run in Hn. rewrite Hn.
    destruct (step_effects w e) as [(_ & _ & Hlog) | [_ Hlog]]; rewrite Hlog.
    + exists n. split; [reflexivity|lia].
    + unfold save_log. destruct (fits _ _ _).
      * exists n. rewrite app_nil_r. split; [reflexivity|lia].
      * exists (S n). rewrite <- app_assoc. split; [reflexivity|lia].
Qed.

(** ** The state along a history *)

Lemma step_sections_length (w : World) (e : event) :
  length (sections (data (step w e))) = length (sections (data w)).
Proof.
  unfold step. destruct e as [| |v|v|r|v|idx v|idx i b|idx i|idx v];
    cbn [handle].
  - now rewrite render_data.
  - now rewrite toggleBtn_onclick_run, render_data.
  - now rewrite namesInput_onchange_run.
  - now rewrite taglineInput_onchange_run.
  - now rewrite reader_onload_run, render_data.
  - now rewrite rangeInput_oninput_run.
  - rewrite titleInput_onchange_run.
    destruct (sections (data w) !! idx); [|reflexivity].
    cbn [saved_world with_data data with_sections sections].
    now rewrite length_insert.
  - rewrite checkbox_onchange_run, render_data.
    cbn [saved_world with_data data with_sections sections].
    now rewrite length_alter.
  - rewrite delBtn_onclick_run.
    destruct (sections (data w) !! idx); [|reflexivity].
    rewrite render_data.
    cbn [saved_world with_data data with_sections sections].
    now rewrite length_insert.
  - rewrite addBtn_onclick_run.
    destruct (truthy (trim v)); [|reflexivity].
    destruct (sections (data w) !! idx); [|reflexivity].
    rewrite render_data.
    cbn [saved_world with_data data with_sections sections].
    now rewrite length_insert.
Qed.

(** X16. No event adds or removes a category: the number of categories
    is the same after any history. *)
Theorem categories_never_added_or_removed (es : list event) (w : World) :
  length (sections (data (run es w))) = length (sections (data w)).
Proof.
  revert w. induction es as [|e es IH]; intros w; [reflexivity|].
  cbn [run fold_left]. etransitivity; [apply IH|apply step_sections_length].
Qed.

Lemma step_editMode (w : World) (e : event) :
  editMode (step w e)
  = match e with
    | ToggleClick => negb (editMode w)
    | _ => editMode w
    end.
Proof.
  unfold step. destruct e as [| |v|v|r|v|idx v|idx i b|idx i|idx v];
    cbn [handle].
  - now rewrite render_editMode.
  - now rewrite toggleBtn_onclick_run, render_editMode.
  - now rewrite namesInput_onchange_run.
  - now rewrite taglineInput_onchange_run.
  - now rewrite reader_onload_run, render_editMode.
  - now rewrite rangeInput_oninput_run.
  - rewrite titleInput_onchange_run.
    now destruct (sections (data w) !! idx).
  - now rewrite checkbox_onchange_run, render_editMode.
  - rewrite delBtn_onclick_run.
    destruct (sections (data w) !! idx); [|reflexivity].
    now rewrite render_editMode.
  - rewrite addBtn_onclick_run.
    destruct (truthy (trim v)); [|reflexivity].
    destruct (sections (data w) !! idx); [|reflexivity].
    now rewrite render_editMode.
Qed.

(** X17. The mode changes on clicks of the edit button and on nothing
    else: after a history it is the initial mode, flipped once per
    click. *)
Theorem mode_follows_toggle_clicks (es : list event) (w : World) :
  editMode (run es w) = xorb (Nat.odd (toggles es)) (editMode w).
Proof.
  revert w. induction es as [|e es IH]; intros w; [reflexivity|].
  cbn [run fold_left]. unfold run in IH. rewrite IH, step_editMode.
  destruct e; cbn [toggles]; try reflexivity.
  rewrite Nat.odd_succ, <- Nat.negb_odd.
  now destruct (Nat.odd (toggles es)), (editMode w).
Qed.

(** ** Reloading after an event *)

(** X18. If storage holds the serialization of the state, and the store
    accepts the write of the state an event leaves, then after the event
    storage holds the serialization of the new state; and when the
    overlay of that state is a number JSON can carry, starting the script
    again on the host the event left gives exactly that state, in view
    mode. *)
Theorem reload_after_event (w : World) (e : event) :
  storage_current w →
  fits (localStorage (host w)) storage_key
    (JSON_stringify (state_value (data (step w e)))) = true →
  storage_current (step w e)
  ∧ (normal (overlay (data (step w e))) = true →
     boot (host (step w e))
     = Some {| data := data (step w e); editMode := false;
               host := host (step w e) |}).
Proof.
  intros Hcur Hfits.
  assert (Hnow : storage_current (step w e)).
  { unfold storage_current, stored in *.
    destruct (step_effects w e) as [(Hd & Hst & _) | [Hst _]]; rewrite Hst.
    - now rewrite Hd.
    - unfold saved_storage. rewrite Hfits. cbn [entries].
      apply lookup_insert_eq. }
  split; [exact Hnow|].
  intros Hn. unfold boot.
  rewrite (getData_parsed _ _ _ Hnow (state_roundtrip _ Hn)).
  now rewrite as_state_value.
Qed.

Lemma reload_after_event_witness :
  boot (host (step (after saveData (world_of defaultData (fresh_host 1000)))
                (AddClick 0 (lit "Swim"))))
  = Some {| data :=
              data (step (after saveData
                            (world_of defaultData (fresh_host 1000)))
                      (AddClick 0 (lit "Swim")));
            editMode := false;
            host :=
              host (step (after saveData
                            (world_of defaultData (fresh_host 1000)))
                      (AddClick 0 (lit "Swim"))) |}.
Proof.
  refine (proj2 (reload_after_event
                   (after saveData (world_of defaultData (fresh_host 1000)))
                   (AddClick 0 (lit "Swim")) _ _) _).
  - vm_compute. reflexivity.
  - vm_compute. reflexivity.
  - vm_compute. reflexivity.
Defined.

(** ** Task texts *)

Lemma trim_start_clean (s : jsstring) :
  starts_clean (trim_start s) = truthy (trim_start s).
Proof.
  induction s as [|c s IH]; [reflexivity|].
  cbn [trim_start]. destruct (is_space c) eqn:E; [exact IH|].
  cbn [starts_clean truthy]. now rewrite E.
Qed.

Lemma trim_start_fixed (s : jsstring) :
  starts_clean s = true → trim_start s = s.
Proof.
  destruct s as [|c s]; [reflexivity|]. cbn [starts_clean trim_start].
  now destruct (is_space c).
Qed.

Lemma trim_start_suffix (s : jsstring) : ∃ p, s = p ++ trim_start s.
Proof.
  induction s as [|c s [p IH]]; [now exists []|].
  cbn [trim_start]. destruct (is_space c).
  - exists (c :: p). cbn [app]. now rewrite <- IH.
  - now exists [].
Qed.

Lemma starts_clean_app (a b : jsstring) :
  a ≠ [] → starts_clean (a ++ b) = starts_clean a.
Proof. now destruct a. Qed.

Lemma trim_trimmed (s : jsstring) :
  truthy (trim s) = true → trimmed (trim s) = true.
Proof.
  unfold trim, trim_end, trimmed. set (u := trim_start s).
  set (r := trim_start (rev u)). intros Ht.
  assert (Hr : r ≠ []).
  { intros Hr. rewrite Hr in Ht. discriminate. }
  rewrite rev_involutive.
  assert (Hend : starts_clean r = true).
  { subst r. rewrite trim_start_clean.
    now destruct (trim_start (rev u)). }
  rewrite Hend, andb_true_r.
  destruct (trim_start_suffix (rev u)) as [p Hp]. fold r in Hp.
  assert (Hu : u = rev r ++ rev p).
  { rewrite <- rev_app_distr, <- Hp. now rewrite rev_involutive. }
  assert (Hrev : rev r ≠ []).
  { intros H. apply Hr. rewrite <- (rev_involutive r), H. reflexivity. }
  assert (Hfull : truthy u = true).
  { rewrite Hu. destruct (rev r); [now elim Hrev|reflexivity]. }
  rewrite <- (starts_clean_app (rev r) (rev p) Hrev), <- Hu, <- Hfull.
  apply trim_start_clean.
Qed.

Lemma trimmed_trim (s : jsstring) : trimmed s = true → trim s = s.
Proof.
  unfold trimmed, trim, trim_end. intros H.
  apply andb_true_iff in H. destruct H as [H1 H2].
  rewrite (trim_start_fixed s H1), (trim_start_fixed (rev s) H2).
  apply rev_involutive.
Qed.

Lemma trim_idempotent (s : jsstring) : trim (trim s) = trim s.
Proof.
  destruct (truthy (trim s)) eqn:E.
  - now apply trimmed_trim, trim_trimmed.
  - destruct (trim s); [reflexivity|discriminate].
Qed.

(** X19. The add handler sees its input only through [trim]: an input
    and the same input without its surrounding white space have the same
    outcome. *)
Theorem add_ignores_surrounding_space (w : World) (idx : nat)
    (value : jsstring) :
  addBtn_onclick idx value w = addBtn_onclick idx (trim value) w.
Proof. unfold addBtn_onclick. now rewrite trim_idempotent. Qed.

Lemma step_tasks_trimmed (w : World) (e : event) :
  tasks_trimmed (data w) → tasks_trimmed (data (step w e)).
Proof.
  intros Hw. unfold tasks_trimmed in *.
  unfold step. destruct e as [| |v|v|r|v|idx v|idx i b|idx i|idx v];
    cbn [handle].
  - now rewrite render_data.
  - now rewrite toggleBtn_onclick_run, render_data.
  - now rewrite namesInput_onchange_run.
  - now rewrite taglineInput_onchange_run.
  - now rewrite reader_onload_run, render_data.
  - now rewrite rangeInput_oninput_run.
  - rewrite titleInput_onchange_run.
    destruct (sections (data w) !! idx) as [section|] eqn:Hsec; [|exact Hw].
    cbn [saved_world with_data data with_sections sections].
    apply Forall_insert; [exact Hw|]. cbn [with_title tasks].
    exact (Forall_lookup_1 _ _ _ _ Hw Hsec).
  - rewrite checkbox_onchange_run, render_data.
    cbn [saved_world with_data data with_sections sections].
    apply Forall_alter; [exact Hw|].
    intros section Hsec Hts. cbn [with_tasks tasks].
    apply Forall_alter; [exact Hts|]. intros t _ Ht. exact Ht.
  - rewrite delBtn_onclick_run.
    destruct (sections (data w) !! idx) as [section|] eqn:Hsec; [|exact Hw].
    rewrite render_data.
    cbn [saved_world with_data data with_sections sections].
    apply Forall_insert; [exact Hw|]. cbn [with_tasks tasks].
    apply Forall_delete. exact (Forall_lookup_1 _ _ _ _ Hw Hsec).
  - rewrite addBtn_onclick_run.
    destruct (truthy (trim v)) eqn:Htext; [|exact Hw].
    destruct (sections (data w) !! idx) as [section|] eqn:Hsec; [|exact Hw].
    rewrite render_data.
    cbn [saved_world with_data data with_sections sections].
    apply Forall_insert; [exact Hw|]. cbn [with_tasks tasks].
    apply Forall_app. split; [exact (Forall_lookup_1 _ _ _ _ Hw Hsec)|].
    apply Forall_singleton. cbn [new_task text]. now apply trim_trimmed.
Qed.

(** X20. If every task text is non-empty and neither starts nor ends
    with white space, this is still so after any history: the add handler
    is the only one that creates a task, and the text it stores is the
    trimmed input. *)
Theorem task_texts_stay_trimmed (es : list event) (w : World) :
  tasks_trimmed (data w) → tasks_trimmed (data (run es w)).
Proof.
  revert w. induction es as [|e es IH]; intros w Hw; [exact Hw|].
  cbn [run fold_left]. apply IH. now apply step_tasks_trimmed.
Qed.

Lemma task_texts_stay_trimmed_witness :
  tasks_trimmed
    (data (run [DOMContentLoaded; ToggleClick; AddClick 0 (lit "  Swim  ");
                DeleteClick 1 0]
             (world_of defaultData (fresh_host 1000)))).
Proof.
  apply task_texts_stay_trimmed.
  unfold tasks_trimmed.
  repeat (apply List.Forall_cons || apply List.Forall_nil); reflexivity.
Defined.

(** ** Checking and unchecking *)

(** X21. A change of a task's checkbox to any value, followed by a change
    back to the value the task had, gives back the state before the first
    change. *)
Theorem check_then_restore (w : World) (idx i : nat) (b : bool)
    (section : Category) (task : Task) :
  sections (data w) !! idx = Some section →
  tasks section !! i = Some task →
  data (after (checkbox_onchange idx i (completed task))
          (after (checkbox_onchange idx i b) w))
  = data w.
Proof.
  intros Hsec Htask.
  rewrite (checkbox_onchange_run (after _ w)), render_data.
  rewrite checkbox_onchange_run, render_data.
  cbn [saved_world with_data data with_sections sections].
  rewrite list_alter_alter_eq.
  rewrite (list_alter_ext _ id _ (sections (data w)) idx); [|..|reflexivity].
  - rewrite list_alter_id by reflexivity. now destruct (data w).
  - intros x Hx. rewrite Hsec in Hx. injection Hx as <-.
    cbn [compose with_tasks tasks title id].
    rewrite list_alter_alter_eq.
    rewrite (list_alter_ext _ id _ (tasks section) i); [|..|reflexivity].
    + rewrite list_alter_id by reflexivity. now destruct section.
    + intros t Ht. rewrite Htask in Ht. injection Ht as <-.
      now destruct task.
Qed.

Lemma check_then_restore_witness :
  data (after (checkbox_onchange 0 1 false)
          (after (checkbox_onchange 0 1 true)
             (world_of defaultData (fresh_host 0))))
  = defaultData.
Proof.
  exact (check_then_restore (world_of defaultData (fresh_host 0)) 0 1 true
           {| title := lit "Travel Adventures";
              tasks := [ new_task (lit "Visit Paris, France");
                         new_task (lit "Road trip across Iceland");
                         new_task (lit "See the Northern Lights together");
                         new_task (lit "Tokyo cherry blossoms") ] |}
           (new_task (lit "Road trip across Iceland")) eq_refl eq_refl).
Defined.

(** ** Saving twice *)

(** X22. Saving twice in a row leaves storage as saving once leaves it;
    [saveData] changes neither the state nor the page. *)
Theorem save_twice (w : World) :
  localStorage (host (after saveData (after saveData w)))
  = localStorage (host (after saveData w))
  ∧ data (after saveData w) = data w
  ∧ document (host (after saveData w)) = document (host w).
Proof.
  unfold after. rewrite saveData_run. cbn [settle].
  rewrite saveData_run.
  cbn [settle saved_world host data localStorage document].
  split; [|split; reflexivity].
  unfold saved_storage.
  destruct (fits (localStorage (host w)) storage_key
              (JSON_stringify (state_value (data w)))) eqn:Hfits.
  - unfold fits in *. cbn [entries quota].
    rewrite insert_insert_eq, Hfits. reflexivity.
  - now rewrite Hfits.
Qed.

(** ** The edit fields *)

Lemma find_in_rows_none (h : handler) (f : nat → Task → element)
    (ts : list Task) :
  (∀ i t, find_listener h (f i t) = None) →
  find_in_forest h (imap f ts) = None.
Proof.
  revert f. induction ts as [|t ts IH]; intros f Hf; [reflexivity|].
  cbn [imap find_in_forest]. rewrite Hf. apply IH. intros i t'. apply Hf.
Qed.

Lemma slider_stops_text :
  Number_toString <$> slider_stops
  = lit <$> ["0"; "0.05"; "0.1"; "0.15"; "0.2"; "0.25"; "0.3"; "0.35"; "0.4";
             "0.45"; "0.5"; "0.55"; "0.6"; "0.65"; "0.7"; "0.75"; "0.8";
             "0.85"; "0.9"]%string.
Proof. vm_compute. reflexivity. Qed.

Lemma title_field_of_category (j idx : nat) (s : Category) :
  match find_listener (titleInput_change j) (category_element true idx s) with
  | Some e => shown_value e
  | None => None
  end
  = if Nat.eqb j idx then Some (strip_newlines (title s)) else None.
Proof.
  assert (Hrows : find_in_forest (titleInput_change j)
                    (imap (quest_item true idx) (tasks s)) = None).
  { apply find_in_rows_none. intros i [tx []]; reflexivity. }
  unfold category_element. rewrite fold_appendChild.
  rewrite !find_listener_children;
    cbn [listens listener appendChild set_className set_prop set_style
         set_listener createElement childNodes app find_in_forest];
    rewrite !find_listener_children;
    cbn [listens listener appendChild set_className set_prop set_style
         set_listener createElement childNodes app find_in_forest
         handler_eqb];
    rewrite ?find_listener_children;
    cbn [listens listener appendChild set_className set_prop set_style
         set_listener createElement childNodes app find_in_forest
         handler_eqb].
  destruct (Nat.eqb j idx); [reflexivity|].
  rewrite Hrows.
  rewrite ?find_listener_children;
    cbn [listens listener appendChild set_className set_prop set_style
         set_listener createElement childNodes app find_in_forest
         handler_eqb].
  reflexivity.
Qed.

(** X23. In edit mode, after a render with both categories, the edit
    fields show the state: the names, tagline and title inputs show
    [data.names], [data.tagline] and the title of their category without
    line breaks, which a text input strips; and when [data.overlay] is a
    number on the scale of the slider, the slider shows its text. *)
Theorem edit_fields_show_state (w : World) (s0 s1 : Category) :
  editMode w = true →
  sections (data w) !! 0 = Some s0 →
  sections (data w) !! 1 = Some s1 →
  let page := app_children (document (host (after render w))) in
  field_value namesInput_change page
  = Some (strip_newlines (names (data w)))
  ∧ field_value taglineInput_change page
    = Some (strip_newlines (tagline (data w)))
  ∧ field_value (titleInput_change 0) page = Some (strip_newlines (title s0))
  ∧ field_value (titleInput_change 1) page = Some (strip_newlines (title s1))
  ∧ (overlay (data w) ∈ slider_stops →
     field_value rangeInput_input page
     = Some (Number_toString (overlay (data w)))).
Proof.
  intros Hmode H0 H1. cbv zeta. rewrite render_run.
  cbn [with_document host document set_document].
  rewrite rendered_page_fields. unfold mount_after_render.
  cbn [app_children]. rewrite H0, H1, Hmode.
  pose proof (title_field_of_category 1 1 s1) as T11.
  cbn [Nat.eqb] in T11.
  assert (T10' : find_listener (titleInput_change 1)
                   (category_element true 0 s0) = None).
  { destruct (find_listener (titleInput_change 1)
                (category_element true 0 s0)) as [e|] eqn:E; [|reflexivity].
    revert E. unfold category_element. rewrite fold_appendChild.
    rewrite !find_listener_children;
      cbn [listens listener appendChild set_className set_prop set_style
           set_listener createElement childNodes app find_in_forest
           handler_eqb Nat.eqb].
    rewrite !find_listener_children;
      cbn [listens listener appendChild set_className set_prop set_style
           set_listener createElement childNodes app find_in_forest
           handler_eqb Nat.eqb].
    rewrite (find_in_rows_none (titleInput_change 1))
      by (intros i [tx []]; reflexivity).
    rewrite ?find_listener_children;
      cbn [listens listener appendChild set_className set_prop set_style
           set_listener createElement childNodes app find_in_forest
           handler_eqb Nat.eqb].
    discriminate. }
  unfold field_value, main_element.
  do 3 (split; [reflexivity|]).
  split.
  - cbn [find_in_forest].
    change (find_listener (titleInput_change 1) (toggleBtn true)) with
      (@None element).
    cbv beta iota.
    rewrite !find_listener_children;
      cbn [listens listener appendChild createElement childNodes app
           find_in_forest].
    rewrite !find_listener_children;
      cbn [listens listener appendChild createElement childNodes app
           find_in_forest].
    change (find_listener (titleInput_change 1)
              (hero_element (data w) true)) with (@None element).
    cbv beta iota. rewrite T10'.
    destruct (find_listener (titleInput_change 1)
                (category_element true 1 s1)); [exact T11|discriminate T11].
  - intros Hstop.
    apply (list_elem_of_fmap_2 Number_toString) in Hstop.
    apply (bool_decide_eq_true_2 _) in Hstop.
    change (find_in_forest rangeInput_input
              [toggleBtn true;
               appendChild
                 (appendChild (category_element true 1 s1)
                    (createElement "section"))
                 (appendChild
                    (appendChild (category_element true 0 s0)
                       (appendChild (hero_element (data w) true)
                          (createElement "section")))
                    (createElement "main"))])
      with (Some (createElement "input"
                  |> set_prop "type" (PStr (lit "range"))
                  |> set_prop "min" (PStr (lit "0"))
                  |> set_prop "max" (PStr (lit "0.9"))
                  |> set_prop "step" (PStr (lit "0.05"))
                  |> set_prop "value"
                       (PStr (Number_toString (overlay (data w))))
                  |> set_prop "id" (PStr (lit "overlay-range"))
                  |> set_listener "oninput" rangeInput_input)).
    cbv beta iota. unfold shown_value.
    change (prop_text "type" _) with (Some (lit "range")).
    change (prop_text "value" _)
      with (Some (Number_toString (overlay (data w)))).
    change (prop_text "min" _) with (Some (lit "0")).
    change (prop_text "max" _) with (Some (lit "0.9")).
    change (prop_text "step" _) with (Some (lit "0.05")).
    cbv beta iota. rewrite Hstop.
    reflexivity.
Qed.

Lemma edit_fields_show_state_witness :
  let page :=
    app_children
      (document
         (host (after render
                  {| data := with_names (lit "Ann" ++ [10%N] ++ lit "Bob")
                               defaultData;
                     editMode := true;
                     host := fresh_host 0 |}))) in
  field_value namesInput_change page = Some (lit "AnnBob")
  ∧ field_value rangeInput_input page = Some (lit "0.6")
  ∧ field_value (titleInput_change 1) page = Some (lit "Personal Goals").
Proof.
  cbv zeta.
  edestruct (edit_fields_show_state
               {| data := with_names (lit "Ann" ++ [10%N] ++ lit "Bob")
                            defaultData;
                  editMode := true;
                  host := fresh_host 0 |})
    as (Hn & _ & _ & Ht & Hr);
    [reflexivity|reflexivity|reflexivity|].
  split; [exact Hn|]. split; [|exact Ht].
  apply Hr. cbn [overlay defaultData with_names]. unfold slider_stops.
  do 12 apply list_elem_of_further. apply list_elem_of_here.
Defined.

(** ** Which event changes what *)

(** X24. Every event touches only the part of the state that belongs to
    its control: the names change on a names commit only, the tagline on
    a tagline commit only, the background on a completed file read only,
    the overlay on slider input only, and the categories on title,
    checkbox, delete and add events only; the first render and the edit
    button change nothing of the state. *)
Theorem events_touch_their_own_field (w : World) (e : event) :
  names (data (step w e))
  = match e with NamesChange v => v | _ => names (data w) end
  ∧ tagline (data (step w e))
    = match e with TaglineChange v => v | _ => tagline (data w) end
  ∧ background (data (step w e))
    = match e with FileLoaded r => r | _ => background (data w) end
  ∧ overlay (data (step w e))
    = match e with RangeInput v => parseFloat v | _ => overlay (data w) end
  ∧ match e with
    | TitleChange _ _ | CheckboxChange _ _ _ | DeleteClick _ _
    | AddClick _ _ => True
    | _ => sections (data (step w e)) = sections (data w)
    end.
Proof.
  unfold step. destruct e as [| |v|v|r|v|idx v|idx i b|idx i|idx v];
    cbn [handle].
  - now rewrite render_data.
  - now rewrite toggleBtn_onclick_run, render_data.
  - now rewrite namesInput_onchange_run, or_empty_raw.
  - now rewrite taglineInput_onchange_run, or_empty_raw.
  - now rewrite reader_onload_run, render_data.
  - now rewrite rangeInput_oninput_run.
  - rewrite titleInput_onchange_run.
    now destruct (sections (data w) !! idx).
  - now rewrite checkbox_onchange_run, render_data.
  - rewrite delBtn_onclick_run.
    destruct (sections (data w) !! idx); [|now repeat split].
    now rewrite render_data.
  - rewrite addBtn_onclick_run.
    destruct (truthy (trim v)); [|now repeat split].
    destruct (sections (data w) !! idx); [|now repeat split].
    now rewrite render_data.
Qed.

(** ** Every change is saved *)

(** X25. No event changes the state without saving it: if the state after
    an event differs from the state before, the event has run [saveData]
    on the new state, so storage holds its serialization whenever the
    store accepts the write. *)
Theorem every_change_is_saved (w : World) (e : event) :
  data (step w e) ≠ data w →
  persists w (step w e).
Proof.
  intros Hchanged.
  destruct (step_effects w e) as [(Hd & _ & _) | [Hst _]];
    [now elim Hchanged|].
  unfold persists, stored. split; [exact Hst|].
  intros Hfits. rewrite Hst. unfold saved_storage. rewrite Hfits.
  cbn [entries]. apply lookup_insert_eq.
Qed.

Lemma every_change_is_saved_witness :
  persists (world_of defaultData (fresh_host 1000))
    (step (world_of defaultData (fresh_host 1000)) (DeleteClick 0 0)).
Proof.
  apply every_change_is_saved. vm_compute. discriminate.
Defined.
